(** * Availability monitoring engine of web_monitoring_bot

    A shallow embedding of the status machine, the notification fan-out,
    the probe, the check executor, the tick scheduler and the report
    analytics, with the properties the specification states about them.

    Conventions.
    - Python [int] is [Z].  A stored [float] is the rational it stands
      for.  [_calculate_uptime_stats] and [_calculate_daily_stats] compute
      with exact rationals; they carry the properties that rounding error
      does not touch (counts, ranges, the zero cases).  The values the
      program returns are those of [_calculate_uptime_stats_binary64],
      which computes the two rounded fields in IEEE 754 binary64.
    - A [datetime] is the number of whole seconds since the epoch, a [Z]:
      every stored timestamp comes from [datetime.fromtimestamp(int)].
    - A Mongo collection is the list of its documents in insertion order.
    - Coroutines awaited through [asyncio.gather] are run one after the
      other, in argument order, each to completion.
    - An exception is a value of [exn]; effects are threaded through the
      state-and-exception monad [M]. *)

From Stdlib Require Import ZArith QArith Qround List String Bool Lia DecimalString.
From Stdlib Require SpecFloat.
Import ListNotations.
Open Scope string_scope.
Open Scope list_scope.
Open Scope Z_scope.

(** ** utils/enums.py *)

Inductive ResponseStatus := OK | TIMEOUT | DNS_ERROR | UNAVAILABLE_RESPONSE.

Inductive SiteStatus := UNAVAILABLE | AVAILABLE.

Definition ResponseStatus_eqb (a b : ResponseStatus) : bool :=
  match a, b with
  | OK, OK | TIMEOUT, TIMEOUT | DNS_ERROR, DNS_ERROR
  | UNAVAILABLE_RESPONSE, UNAVAILABLE_RESPONSE => true
  | _, _ => false
  end.

Definition SiteStatus_eqb (a b : SiteStatus) : bool :=
  match a, b with
  | UNAVAILABLE, UNAVAILABLE | AVAILABLE, AVAILABLE => true
  | _, _ => false
  end.

(** ** Exceptions *)

Inductive exn :=
| MonitoringSystemException
| TypeError
| AttributeError
| UnboundLocalError
| OtherError (what : string).

Inductive result (A : Type) :=
| Ok (a : A)
| Raise (e : exn).
Arguments Ok {A} a.
Arguments Raise {A} e.

(** ** task_manager/models.py, db/models.py *)

Module ResponseData.
Record t := mk
  { url : string;
    status : ResponseStatus;
    timestamp : Z;
    code : option Z;
    response_time : option Q }.
End ResponseData.

Module Notification.
Record t := mk { url : string; status : SiteStatus }.
End Notification.

Module Site.
Record t := mk
  { url : string; status : SiteStatus; consecutive_failures : Z }.
End Site.

Module Monitor.
Record t := mk { user_id : Z; url : string; interval : Z }.
End Monitor.

(** A check document; the same fields are read back as [db.models.Check]
    (the Mongo [_id] is left out). *)
Module Check.
Record t := mk
  { url : string;
    status : ResponseStatus;
    timestamp : Z;
    code : option Z;
    response_time : option Q }.
End Check.

(** Truthiness of [int | None] and [float | None]. *)
Definition truthy_int (c : option Z) : option Z :=
  match c with
  | Some n => if n =? 0 then None else Some n
  | None => None
  end.

Definition truthy_float (r : option Q) : option Q :=
  match r with
  | Some q => if Qeq_bool q 0 then None else Some q
  | None => None
  end.

(** [ResponseData.prepare_for_database]: a key is written only when its
    value is truthy. *)
Definition prepare_for_database (d : ResponseData.t) : Check.t :=
  Check.mk (ResponseData.url d) (ResponseData.status d)
           (ResponseData.timestamp d)
           (truthy_int (ResponseData.code d))
           (truthy_float (ResponseData.response_time d)).

(** ** The world the engine runs in *)

Record DBState := mkDB
  { db_up : bool;
    sites : list Site.t;
    monitors : list Monitor.t;
    checks : list Check.t }.

(** What [AsyncClient.get] does with one request: it returns the final
    response after [elapsed] seconds, or raises an httpx exception. *)
Inductive HTTPError :=
| ConnectError
| ConnectTimeout
| OtherHTTPError (what : string).

Inductive GetResult :=
| Response (status_code : Z) (elapsed : Q)
| GetRaises (e : HTTPError).

Record Exchange := mkExchange { at_time : Z; outcome : GetResult }.

Record Observer := mkObserver
  { name : string;
    notify : Notification.t -> result unit }.

Inductive LogRecord :=
| MethodError (logger method : string)
| ObserverNotified (observer : string) (n : Notification.t)
| SiteWriteError (url : string)
| RequestError (url : string)
| CheckWriteError (doc : Check.t)
| UrlListError
| TickUrls (urls : list string).

(** [published] is a history variable: the notifications handed to
    [_notify_observers], in order.  [inbox] holds the deliveries that
    returned.  [net] answers the [n]-th request made to [url]. *)
Record World := mkWorld
  { db : DBState;
    observers : list Observer;
    published : list Notification.t;
    inbox : list (string * Notification.t);
    log : list LogRecord;
    ticks : Z;
    net : nat -> string -> Exchange;
    requests : nat }.

Definition with_db (w : World) (d : DBState) : World :=
  mkWorld d (observers w) (published w) (inbox w) (log w) (ticks w) (net w)
          (requests w).

Definition with_published (w : World) (p : list Notification.t) : World :=
  mkWorld (db w) (observers w) p (inbox w) (log w) (ticks w) (net w)
          (requests w).

Definition with_inbox (w : World) (i : list (string * Notification.t)) : World :=
  mkWorld (db w) (observers w) (published w) i (log w) (ticks w) (net w)
          (requests w).

Definition with_log (w : World) (l : list LogRecord) : World :=
  mkWorld (db w) (observers w) (published w) (inbox w) l (ticks w) (net w)
          (requests w).

Definition with_ticks (w : World) (t : Z) : World :=
  mkWorld (db w) (observers w) (published w) (inbox w) (log w) t (net w)
          (requests w).

Definition with_requests (w : World) (n : nat) : World :=
  mkWorld (db w) (observers w) (published w) (inbox w) (log w) (ticks w)
          (net w) n.

(** ** The state-and-exception monad *)

Definition M (A : Type) : Type := World -> World * result A.

Definition ret {A} (a : A) : M A := fun w => (w, Ok a).

Definition raise {A} (e : exn) : M A := fun w => (w, Raise e).

Definition bind {A B} (m : M A) (f : A -> M B) : M B :=
  fun w =>
    match m w with
    | (w', Ok a) => f a w'
    | (w', Raise e) => (w', Raise e)
    end.

Notation "x <- m ;; k" := (bind m (fun x => k))
  (at level 61, m at next level, right associativity).
Notation "m ;;; k" := (bind m (fun _ => k))
  (at level 61, right associativity).

Definition logger (r : LogRecord) : M unit :=
  fun w => (with_log w (log w ++ [r]), Ok tt).

(** [asyncio.gather] over the coroutines [f x] for [x] in [xs]: every
    coroutine runs; the first exception, if any, is the one raised. *)
Fixpoint gather {A B} (f : A -> M B) (xs : list A) : M (list B) :=
  match xs with
  | [] => ret []
  | x :: rest =>
      fun w =>
        let (w1, r) := f x w in
        let (w2, rs) := gather f rest w1 in
        (w2, match r, rs with
             | Ok b, Ok bs => Ok (b :: bs)
             | Raise e, _ => Raise e
             | Ok _, Raise e => Raise e
             end)
  end.

(** ** utils/meta.py

    [ExceptionHandlingMeta] wraps every method: a
    [MonitoringSystemException] is raised again, any other exception is
    logged and the method returns [None]. *)
Definition exception_handling {A} (cls method : string) (body : M A)
  : M (option A) :=
  fun w =>
    match body w with
    | (w', Ok a) => (w', Ok (Some a))
    | (w', Raise MonitoringSystemException) =>
        (w', Raise MonitoringSystemException)
    | (w', Raise _) =>
        (with_log w' (log w' ++ [MethodError cls method]), Ok None)
    end.

(** ** db/db_handler.py *)

(** A driver call: it fails as a whole while the server is unreachable.
    Availability is a state of the world that no operation changes:
    within one run either every call succeeds or every call fails, and a
    single call failing on its own is outside the model. *)
Definition mongo {A} (op : DBState -> DBState * A) : M A :=
  fun w =>
    if db_up (db w)
    then let (d, a) := op (db w) in (with_db w d, Ok a)
    else (w, Raise (OtherError "ServerSelectionTimeoutError")).

Definition find_one_site (url : string) (l : list Site.t) : option Site.t :=
  find (fun s => String.eqb (Site.url s) url) l.

Fixpoint update_one_site (url : string) (st : SiteStatus) (failures : Z)
  (l : list Site.t) : list Site.t :=
  match l with
  | [] => []
  | s :: rest =>
      if String.eqb (Site.url s) url
      then Site.mk (Site.url s) st failures :: rest
      else s :: update_one_site url st failures rest
  end.

Definition with_sites (d : DBState) (l : list Site.t) : DBState :=
  mkDB (db_up d) l (monitors d) (checks d).

Definition with_checks (d : DBState) (l : list Check.t) : DBState :=
  mkDB (db_up d) (sites d) (monitors d) l.

Definition get_site (url : string) : M (option Site.t) :=
  r <- exception_handling "DBHandler" "get_site"
         (mongo (fun d => (d, find_one_site url (sites d)))) ;;
  ret (match r with Some (Some s) => Some s | _ => None end).

Definition update_site (url : string) (st : SiteStatus) (failures : Z)
  : M unit :=
  exception_handling "DBHandler" "update_site"
    (mongo (fun d =>
              (with_sites d (update_one_site url st failures (sites d)), tt))) ;;;
  ret tt.

(** The returned id is the position of the new document. *)
Definition add_site (url : string) (st : SiteStatus) : M (option nat) :=
  exception_handling "DBHandler" "add_site"
    (mongo (fun d =>
              (with_sites d (sites d ++ [Site.mk url st 0]),
               List.length (sites d)))).

Definition add_check_record (doc : Check.t) : M (option nat) :=
  exception_handling "DBHandler" "add_check_record"
    (mongo (fun d =>
              (with_checks d (checks d ++ [doc]), List.length (checks d)))).

(** JavaScript [a % b] on integers: [NaN] for a zero divisor, otherwise
    the remainder with the sign of the dividend. *)
Definition js_rem (a b : Z) : option Z :=
  if b =? 0 then None else Some (Z.rem a b).

Definition where_due (seconds : Z) (m : Monitor.t) : bool :=
  match js_rem seconds (Monitor.interval m) with
  | Some r => r =? 0
  | None => false
  end.

(** [monitors.distinct("url", {"$where": ...})]: the URLs of the matching
    monitors, each once (the order of the answer is the driver's). *)
Definition get_monitors_urls_for_tick (seconds : Z) : M (option (list string)) :=
  exception_handling "DBHandler" "get_monitors_urls_for_tick"
    (mongo (fun d =>
              (d, nodup string_dec
                    (map Monitor.url
                       (filter (where_due seconds) (monitors d)))))).

(** ** task_manager/http_requestor.py *)

(** [httpx.Response.raise_for_status] of httpx 0.28.1, the version pinned
    in setup.py: it raises [HTTPStatusError] unless the status code is a
    success code, 200 to 299.  [true] stands for "raises". *)
Definition raise_for_status (status_code : Z) : bool :=
  negb ((200 <=? status_code) && (status_code <=? 299)).

(** The body of [HTTPRequestor.make_request].  The client answers the
    request from [net]; [at_time] is [int(time.time())]. *)
Definition make_request_body (url : string) : M ResponseData.t :=
  fun w =>
    let x := net w (requests w) url in
    let w' := with_requests w (S (requests w)) in
    let timestamp := at_time x in
    match outcome x with
    | Response status_code response_time =>
        if raise_for_status status_code
        then (w', Ok (ResponseData.mk url UNAVAILABLE_RESPONSE timestamp
                        (Some status_code) None))
        else (w', Ok (ResponseData.mk url OK timestamp
                        (Some status_code) (Some response_time)))
    | GetRaises ConnectError =>
        (w', Ok (ResponseData.mk url DNS_ERROR timestamp None None))
    | GetRaises ConnectTimeout =>
        (w', Ok (ResponseData.mk url TIMEOUT timestamp None None))
    | GetRaises (OtherHTTPError what) => (w', Raise (OtherError what))
    end.

Definition make_request (url : string) : M (option ResponseData.t) :=
  exception_handling "HTTPRequestor" "make_request" (make_request_body url).

(** ** reporting/models.py and the incident dictionaries *)

Module UptimeStats.
Record t := mk
  { total_checks : Z;
    successful_checks : Z;
    failed_checks : Z;
    uptime_percentage : Q;
    downtime_duration : Z;
    average_response_time : Q;
    max_response_time : Q;
    min_response_time : Q }.
End UptimeStats.

Module Incident.
Record t := mk
  { start_time : option Z;
    end_time : option Z;
    duration : Z;
    reason : string }.
End Incident.

Section Engine.

(** constants.py *)
Variable FAILURE_THRESHOLD : Z.
Variable TICK_DURATION : Z.

(** ** task_manager/service_status_manager.py *)

Definition subscribe (observer : Observer) : M unit :=
  fun w =>
    (mkWorld (db w) (observers w ++ [observer]) (published w) (inbox w)
             (log w) (ticks w) (net w) (requests w), Ok tt).

(** [await observer.notify(notification)] *)
Definition await_notify (o : Observer) (n : Notification.t) : M unit :=
  fun w =>
    match notify o n with
    | Ok _ => (with_inbox w (inbox w ++ [(name o, n)]), Ok tt)
    | Raise e => (w, Raise e)
    end.

(** The [for observer in self.observers] loop. *)
Fixpoint for_observers (obs : list Observer) (n : Notification.t) : M unit :=
  match obs with
  | [] => ret tt
  | o :: rest =>
      logger (ObserverNotified (name o) n) ;;;
      await_notify o n ;;;
      for_observers rest n
  end.

Definition _notify_observers (n : Notification.t) : M unit :=
  fun w => for_observers (observers w) n
             (with_published w (published w ++ [n])).

(** Lines 66 to 85 of [process_check_result], once [site] is bound. *)
Definition decide_status (check_info : ResponseData.t) (site : Site.t)
  : M unit :=
  let url := ResponseData.url check_info in
  let current_status := Site.status site in
  let failures := Site.consecutive_failures site in
  if ResponseStatus_eqb (ResponseData.status check_info) OK then
    if SiteStatus_eqb current_status UNAVAILABLE || (0 <? failures) then
      update_site url AVAILABLE 0 ;;;
      _notify_observers (Notification.mk url AVAILABLE)
    else ret tt
  else
    let failures := failures + 1 in
    let new_status :=
      if FAILURE_THRESHOLD <=? failures then UNAVAILABLE else current_status in
    update_site url new_status failures ;;;
    if SiteStatus_eqb current_status AVAILABLE
       && SiteStatus_eqb new_status UNAVAILABLE
    then _notify_observers (Notification.mk url UNAVAILABLE)
    else ret tt.

Definition process_check_result (check_info : ResponseData.t) : M unit :=
  let url := ResponseData.url check_info in
  site <- get_site url ;;
  match site with
  | Some s => decide_status check_info s
  | None =>
      id <- add_site url AVAILABLE ;;
      match id with
      | None => logger (SiteWriteError url)
      | Some _ =>
          site <- get_site url ;;
          match site with
          | Some s => decide_status check_info s
          | None => raise AttributeError
          end
      end
  end.

(** ** task_manager/manager.py *)

Fixpoint index_None {A} (l : list (option A)) : option nat :=
  match l with
  | [] => None
  | None :: _ => Some O
  | Some _ :: rest => option_map S (index_None rest)
  end.

Fixpoint pop {A} (idx : nat) (l : list A) : list A :=
  match idx, l with
  | _, [] => []
  | O, _ :: rest => rest
  | S i, x :: rest => x :: pop i rest
  end.

(** The [while None in responses_data] loop; [fuel] bounds the number of
    iterations. *)
Fixpoint drop_failed (fuel : nat) (urls : list string)
  (responses_data : list (option ResponseData.t))
  : M (list (option ResponseData.t)) :=
  match fuel with
  | O => ret responses_data
  | S fuel' =>
      match index_None responses_data with
      | None => ret responses_data
      | Some idx =>
          match nth_error urls idx with
          | Some u =>
              logger (RequestError u) ;;;
              drop_failed fuel' urls (pop idx responses_data)
          | None => raise (OtherError "IndexError")
          end
      end
  end.

(** [data.prepare_for_database()], evaluated while the list of coroutines
    is built. *)
Fixpoint prepare_all (responses_data : list (option ResponseData.t))
  : M (list Check.t) :=
  match responses_data with
  | [] => ret []
  | Some d :: rest =>
      docs <- prepare_all rest ;; ret (prepare_for_database d :: docs)
  | None :: _ => raise AttributeError
  end.

Fixpoint warn_unwritten (docs : list Check.t) (ids : list (option nat))
  : M unit :=
  match docs, ids with
  | doc :: docs', id :: ids' =>
      match id with
      | None => logger (CheckWriteError doc)
      | Some _ => ret tt
      end ;;;
      warn_unwritten docs' ids'
  | _, _ => ret tt
  end.

Definition forward (data : option ResponseData.t) : M unit :=
  match data with
  | Some d => process_check_result d
  | None => raise AttributeError
  end.

Definition run_task (urls : list string) : M unit :=
  responses_data <- gather make_request urls ;;
  responses_data <- drop_failed (List.length responses_data) urls
                      responses_data ;;
  docs <- prepare_all responses_data ;;
  ids <- gather add_check_record docs ;;
  warn_unwritten docs ids ;;;
  gather forward responses_data ;;;
  ret tt.

(** ** scheduler/scheduler.py *)

Definition Scheduler_init (w : World) : World := with_ticks w 0.

Definition _urls_per_tick : M (list string) :=
  fun w =>
    let w' := with_ticks w (ticks w + 1) in
    (urls <- get_monitors_urls_for_tick (ticks w' * TICK_DURATION) ;;
     match urls with
     | None => logger UrlListError ;;; ret []
     | Some urls => ret urls
     end) w'.

Definition _tick : M unit :=
  urls <- _urls_per_tick ;;
  logger (TickUrls urls) ;;;
  run_task urls.

(** ** reporting/report_generator.py *)

Definition _is_check_successful (check : Check.t) : bool :=
  ResponseStatus_eqb (Check.status check) OK.

(** [str] of an [int | None], as an f-string prints it. *)
Definition str_code (c : option Z) : string :=
  match c with
  | Some n => NilZero.string_of_int (Z.to_int n)
  | None => "None"
  end.

Definition _get_failure_reason (check : Check.t) : string :=
  match Check.status check with
  | UNAVAILABLE_RESPONSE => String.append "HTTP " (str_code (Check.code check))
  | DNS_ERROR => "Connection Error"
  | TIMEOUT => "Timeout"
  | OK => "Unknown Error"
  end.

(** [sorted(checks, key=lambda x: x.timestamp)]: a stable sort. *)
Fixpoint insert_by_timestamp (c : Check.t) (l : list Check.t) : list Check.t :=
  match l with
  | [] => [c]
  | d :: rest =>
      if Check.timestamp c <=? Check.timestamp d
      then c :: l
      else d :: insert_by_timestamp c rest
  end.

Definition sorted_by_timestamp (l : list Check.t) : list Check.t :=
  fold_right insert_by_timestamp [] l.

(** The local variables of [_find_incidents]; [check] is the loop
    variable, still bound after the loop. *)
Record Scan := mkScan
  { incidents : list Incident.t;
    current_incident : option Incident.t;
    failures_counter : Z;
    incident_start : option Z;
    check : option Check.t }.

(** Setting [end_time] and [duration]; the subtraction fails on a start
    that is [None]. *)
Definition close_incident (inc : Incident.t) (end_time : Z)
  : result Incident.t :=
  match Incident.start_time inc with
  | Some start =>
      Ok (Incident.mk (Some start) (Some end_time) (end_time - start)
                      (Incident.reason inc))
  | None => Raise TypeError
  end.

(** One iteration of the loop over the sorted checks. *)
Definition scan_check (st : Scan) (c : Check.t) : result Scan :=
  let is_successful := _is_check_successful c in
  let incident_start :=
    if is_successful then incident_start st
    else if failures_counter st =? 0 then Some (Check.timestamp c)
         else incident_start st in
  let failures_counter :=
    if is_successful then 0 else failures_counter st + 1 in
  match current_incident st with
  | None =>
      if FAILURE_THRESHOLD <=? failures_counter
      then Ok (mkScan (incidents st)
                 (Some (Incident.mk incident_start None 0
                          (_get_failure_reason c)))
                 failures_counter incident_start (Some c))
      else Ok (mkScan (incidents st) None failures_counter incident_start
                 (Some c))
  | Some inc =>
      if is_successful
      then match close_incident inc (Check.timestamp c) with
           | Ok closed =>
               Ok (mkScan (incidents st ++ [closed]) None failures_counter
                     incident_start (Some c))
           | Raise e => Raise e
           end
      else Ok (mkScan (incidents st) (Some inc) failures_counter
                 incident_start (Some c))
  end.

Fixpoint scan_checks (st : Scan) (l : list Check.t) : result Scan :=
  match l with
  | [] => Ok st
  | c :: rest =>
      match scan_check st c with
      | Ok st' => scan_checks st' rest
      | Raise e => Raise e
      end
  end.

(** The statements after the loop: an incident still open is closed at
    the timestamp of the last check the loop saw. *)
Definition after_loop (st : Scan) : result (list Incident.t) :=
  match current_incident st with
  | None => Ok (incidents st)
  | Some inc =>
      match check st with
      | None => Raise UnboundLocalError
      | Some c =>
          match close_incident inc (Check.timestamp c) with
          | Ok closed => Ok (incidents st ++ [closed])
          | Raise e => Raise e
          end
      end
  end.

Definition _find_incidents (checks : list Check.t)
  : result (list Incident.t) :=
  match scan_checks (mkScan [] None 0 None None)
          (sorted_by_timestamp checks) with
  | Raise e => Raise e
  | Ok st => after_loop st
  end.

Definition _calculate_downtime_duration (checks : list Check.t) : result Z :=
  match _find_incidents checks with
  | Ok incs => Ok (fold_left Z.add (map Incident.duration incs) 0)
  | Raise e => Raise e
  end.

(** [round(x, 2)]: to the nearest hundredth, ties to the even one. *)
Definition round_half_even (q : Q) : Z :=
  let f := Qfloor q in
  match Qcompare (q - inject_Z f) (1 # 2) with
  | Lt => f
  | Gt => f + 1
  | Eq => if Z.even f then f else f + 1
  end.

Definition round2 (q : Q) : Q :=
  Qmake (round_half_even (q * inject_Z 100)) 100.

Definition sum_float (l : list Q) : Q := fold_left Qplus l (inject_Z 0).

(** [max] and [min] keep the first extremal element. *)
Definition max_float (x : Q) (l : list Q) : Q :=
  fold_left (fun m y => match Qcompare y m with Gt => y | _ => m end) l x.

Definition min_float (x : Q) (l : list Q) : Q :=
  fold_left (fun m y => match Qcompare y m with Lt => y | _ => m end) l x.

(** The latencies that enter the aggregation. *)
Fixpoint response_times (checks : list Check.t) : list Q :=
  match checks with
  | [] => []
  | c :: rest =>
      if _is_check_successful c
      then match truthy_float (Check.response_time c) with
           | Some q => q :: response_times rest
           | None => response_times rest
           end
      else response_times rest
  end.

Definition _calculate_uptime_stats (checks : list Check.t)
  : result UptimeStats.t :=
  match checks with
  | [] =>
      Ok (UptimeStats.mk 0 0 0 (inject_Z 0) 0 (inject_Z 0) (inject_Z 0)
            (inject_Z 0))
  | _ :: _ =>
      let total_checks := Z.of_nat (List.length checks) in
      let successful_checks :=
        Z.of_nat (List.length (filter _is_check_successful checks)) in
      let failed_checks := total_checks - successful_checks in
      let uptime_percentage :=
        if 0 <? total_checks
        then (inject_Z successful_checks / inject_Z total_checks
              * inject_Z 100)%Q
        else inject_Z 0 in
      match _calculate_downtime_duration checks with
      | Raise e => Raise e
      | Ok downtime_duration =>
          let '(avg, mx, mn) :=
            match response_times checks with
            | [] => (inject_Z 0, inject_Z 0, inject_Z 0)
            | x :: l =>
                ((sum_float (x :: l)
                  / inject_Z (Z.of_nat (List.length (x :: l))))%Q,
                 max_float x l, min_float x l)
            end in
          Ok (UptimeStats.mk total_checks successful_checks failed_checks
                (round2 uptime_percentage) downtime_duration
                (round2 avg) mx mn)
      end
  end.

End Engine.

(** ** reporting/report_generator.py, the statistics in binary64

    A Python [float] is an IEEE 754 binary64 number.  Its operations are
    those of the Standard Library's executable specification
    [SpecFloat], at precision 53 and maximal exponent 1024. *)

Definition float : Type := SpecFloat.spec_float.

(** [float(n)], exact for the integers below 2^53. *)
Definition float_of_int (n : Z) : float :=
  SpecFloat.binary_normalize 53 1024 n 0 false.

(** [x / y], [x * y] and [x + y], each correctly rounded.  The quotient
    of two [int]s is the correctly rounded quotient as well, which for
    integers below 2^53, as the length of a list is, is the quotient of
    their floats. *)
Definition float_truediv (x y : float) : float := SpecFloat.SFdiv 53 1024 x y.

Definition float_mul (x y : float) : float := SpecFloat.SFmul 53 1024 x y.

Definition float_add (x y : float) : float := SpecFloat.SFadd 53 1024 x y.

(** The number a finite float stands for. *)
Definition float_value (x : float) : Q :=
  match x with
  | SpecFloat.S754_finite s m e =>
      let v := if 0 <=? e then inject_Z (Z.pos m * 2 ^ e)
               else Qmake (Z.pos m) (Z.to_pos (2 ^ (- e))) in
      if s then Qopp v else v
  | _ => inject_Z 0
  end.

(** The float of a stored latency.  The record holds the rational the
    float stands for, and dividing its numerator by its denominator
    gives the float back, both being floats themselves; for a rational
    written in decimal, such as 1/100, the quotient is the nearest
    float. *)
Definition float_of_Q (q : Q) : float :=
  float_truediv (float_of_int (Qnum q)) (float_of_int (Z.pos (Qden q))).

(** The builtin [sum] on floats, as it is before Python 3.12: the items
    are added from left to right to the integer 0.  From 3.12 on the
    builtin compensates the rounding errors; setup.py admits both, so
    the statistics take the builtin as a parameter. *)
Definition sum_sequential (l : list float) : float :=
  fold_left float_add l (float_of_int 0).

(** [_calculate_uptime_stats] with the arithmetic of the interpreter.
    [round(x, 2)] rounds the number the float [x] stands for, ties to
    even, and returns the float nearest to the resulting hundredth; the
    field holds that hundredth. *)
Definition _calculate_uptime_stats_binary64
  (builtin_sum : list float -> float) (FAILURE_THRESHOLD : Z)
  (checks : list Check.t) : result UptimeStats.t :=
  match checks with
  | [] =>
      Ok (UptimeStats.mk 0 0 0 (inject_Z 0) 0 (inject_Z 0) (inject_Z 0)
            (inject_Z 0))
  | _ :: _ =>
      let total_checks := Z.of_nat (List.length checks) in
      let successful_checks :=
        Z.of_nat (List.length (filter _is_check_successful checks)) in
      let failed_checks := total_checks - successful_checks in
      let uptime_percentage :=
        if 0 <? total_checks
        then float_mul
               (float_truediv (float_of_int successful_checks)
                  (float_of_int total_checks))
               (float_of_int 100)
        else float_of_int 0 in
      match _calculate_downtime_duration FAILURE_THRESHOLD checks with
      | Raise e => Raise e
      | Ok downtime_duration =>
          let '(avg, mx, mn) :=
            match response_times checks with
            | [] => (float_of_int 0, inject_Z 0, inject_Z 0)
            | x :: l =>
                (float_truediv (builtin_sum (map float_of_Q (x :: l)))
                   (float_of_int (Z.of_nat (List.length (x :: l)))),
                 max_float x l, min_float x l)
            end in
          Ok (UptimeStats.mk total_checks successful_checks failed_checks
                (round2 (float_value uptime_percentage)) downtime_duration
                (round2 (float_value avg)) mx mn)
      end
  end.

(** * Vocabulary of the properties *)

(** ** Relations between a world and a later one *)

(** An operation is [stable] for a relation [R] between a world and a
    later one when it only moves to [R]-related worlds. *)
Definition stable (R : World -> World -> Prop) {A} (m : M A) : Prop :=
  forall w, R w (fst (m w)).

(** What the scheduler reads: the counter and the monitors. *)
Definition same_schedule (w w' : World) : Prop :=
  ticks w' = ticks w
  /\ db_up (db w') = db_up (db w)
  /\ monitors (db w') = monitors (db w).

(** The status machine's view of the world. *)
Definition same_status (w w' : World) : Prop :=
  db_up (db w') = db_up (db w)
  /\ sites (db w') = sites (db w)
  /\ published w' = published w
  /\ inbox w' = inbox w
  /\ observers w' = observers w.

(** The check log. *)
Definition same_checks (w w' : World) : Prop :=
  db_up (db w') = db_up (db w) /\ checks (db w') = checks (db w).

(** The record of one site. *)
Definition same_site (u : string) (w w' : World) : Prop :=
  db_up (db w') = db_up (db w)
  /\ find_one_site u (sites (db w')) = find_one_site u (sites (db w)).

(** ** The specification's own formulations *)

(** The isolation the specification asks of the bus: the publisher sees
    no exception and every observer whose own delivery works is served. *)
Definition isolated_delivery (n : Notification.t) (w : World) : Prop :=
  snd (_notify_observers n w) = Ok tt
  /\ forall o, In o (observers w) -> notify o n = Ok tt ->
       In (name o, n) (inbox (fst (_notify_observers n w))).

(** The first row of the classification table as the specification has
    it: a final response in the 2xx or 3xx range is reported as OK, with
    its code and latency. *)
Definition ok_through_3xx (url : string) (w : World) : Prop :=
  forall c t,
    outcome (net w (requests w) url) = Response c t ->
    200 <= c <= 399 ->
    snd (make_request url w)
    = Ok (Some (ResponseData.mk url OK (at_time (net w (requests w) url))
                  (Some c) (Some t))).

(** The uptime percentage as the specification has it, without rounding:
    the exact ratio, or the binary64 product as it is. *)
Definition exact_uptime (builtin_sum : list float -> float) (k : Z)
  (checks : list Check.t) : Prop :=
  forall st,
    _calculate_uptime_stats_binary64 builtin_sum k checks = Ok st ->
    (UptimeStats.uptime_percentage st
     == inject_Z (UptimeStats.successful_checks st)
        / inject_Z (UptimeStats.total_checks st) * inject_Z 100)%Q.

Definition unrounded_uptime (builtin_sum : list float -> float) (k : Z)
  (checks : list Check.t) : Prop :=
  forall st,
    _calculate_uptime_stats_binary64 builtin_sum k checks = Ok st ->
    (UptimeStats.uptime_percentage st
     == float_value
          (float_mul
             (float_truediv (float_of_int (UptimeStats.successful_checks st))
                (float_of_int (UptimeStats.total_checks st)))
             (float_of_int 100)))%Q.

(** ** Scheduler runs and batches *)

(** The world after [n] fired ticks of a scheduler that was just built. *)
Fixpoint fire (k td : Z) (n : nat) (w : World) : World :=
  match n with
  | O => Scheduler_init w
  | S n' => fst (_tick k td (fire k td n' w))
  end.

(** The results that are not [None], in order. *)
Fixpoint somes {A} (l : list (option A)) : list A :=
  match l with
  | [] => []
  | Some a :: rest => a :: somes rest
  | None :: rest => somes rest
  end.

(** ** Incidents by look-ahead *)

(** A history in which no check is older than the one before it. *)
Fixpoint time_ordered (l : list Check.t) : Prop :=
  match l with
  | [] => True
  | c :: rest =>
      match rest with
      | [] => True
      | d :: _ => Check.timestamp c <= Check.timestamp d
      end /\ time_ordered rest
  end.

(** The longest run of failed checks at the head of a history, and what
    follows it. *)
Fixpoint failure_streak (l : list Check.t) : list Check.t :=
  match l with
  | [] => []
  | c :: rest =>
      if _is_check_successful c then [] else c :: failure_streak rest
  end.

Fixpoint after_streak (l : list Check.t) : list Check.t :=
  match l with
  | [] => []
  | c :: rest => if _is_check_successful c then l else after_streak rest
  end.

(** When the incident whose streak runs into [l] ends: at the next
    successful check, or else at the last check of the history. *)
Definition closing_time (l : list Check.t) (last_seen : Check.t) : Z :=
  match after_streak l with
  | s :: _ => Check.timestamp s
  | [] => Check.timestamp (last l last_seen)
  end.

(** The incident of a streak that started at [t0] and runs into [l]. *)
Definition streak_incident (t0 : Z) (reason : string) (l : list Check.t)
  (last_seen : Check.t) : Incident.t :=
  Incident.mk (Some t0) (Some (closing_time l last_seen))
    (closing_time l last_seen - t0) reason.

(** The incidents as the specification describes them, by looking ahead
    from the first failure of every streak: a streak of at least
    FAILURE_THRESHOLD failures is one incident, which starts at the first
    failure of the streak, takes its reason from the failure that reaches
    the threshold, and ends at [closing_time]. *)
Fixpoint incidents_by_streak (k : Z) (in_streak : bool) (l : list Check.t)
  : list Incident.t :=
  match l with
  | [] => []
  | c :: rest =>
      if _is_check_successful c then incidents_by_streak k false rest
      else if in_streak then incidents_by_streak k true rest
      else
        let streak := c :: failure_streak rest in
        (if k <=? Z.of_nat (List.length streak)
         then [Incident.mk (Some (Check.timestamp c))
                 (Some (closing_time rest c))
                 (closing_time rest c - Check.timestamp c)
                 (_get_failure_reason (nth (Z.to_nat (k - 1)) streak c))]
         else [])
        ++ incidents_by_streak k true rest
  end.

(** The loop and what follows it, from an arbitrary state. *)
Definition resume (k : Z) (st : Scan) (l : list Check.t)
  : result (list Incident.t) :=
  match scan_checks k st l with
  | Ok st' => after_loop st'
  | Raise e => Raise e
  end.

(** ** Sample data *)

Definition example_url : string := "https://example.org".

Definition silent_net (_ : nat) (_ : string) : Exchange :=
  mkExchange 0 (GetRaises ConnectError).

Definition world_of (ss : list Site.t) (obs : list Observer) : World :=
  mkWorld (mkDB true ss [] []) obs [] [] [] 0 silent_net 0%nat.

Definition failed_at (t : Z) : ResponseData.t :=
  ResponseData.mk example_url TIMEOUT t None None.

Definition ok_at (t : Z) : ResponseData.t :=
  ResponseData.mk example_url OK t (Some 200) (Some (1 # 2)).

Definition broken_observer : Observer :=
  mkObserver "broken" (fun _ => Raise (OtherError "TelegramError")).

Definition working_observer : Observer :=
  mkObserver "working" (fun _ => Ok tt).

Definition world_answering (x : Exchange) : World :=
  mkWorld (mkDB true [] [] []) [] [] [] [] 0 (fun _ _ => x) 0%nat.

Definition world_monitoring (ms : list Monitor.t) : World :=
  mkWorld (mkDB true [] ms []) [] [] [] [] 0 silent_net 0%nat.

Definition flaky_net (_ : nat) (url : string) : Exchange :=
  if String.eqb url example_url
  then mkExchange 1700000000 (GetRaises (OtherHTTPError "ReadError"))
  else mkExchange 1700000000 (Response 200 (1 # 4)).

Definition flaky_world : World :=
  mkWorld (mkDB true [] [] []) [] [] [] [] 0 flaky_net 0%nat.

Definition check_at (st : ResponseStatus) (t : Z) (latency : option Q)
  : Check.t :=
  Check.mk example_url st t None latency.

Definition one_of_three : list Check.t :=
  [check_at OK 0 (Some (1 # 4)); check_at TIMEOUT 10 None;
   check_at DNS_ERROR 20 None].

Definition failure_run : list Check.t :=
  [check_at OK 100 (Some (1 # 4)); check_at TIMEOUT 110 None;
   check_at DNS_ERROR 120 None; check_at TIMEOUT 130 None;
   check_at OK 140 (Some (1 # 4))].

Definition two_quick : list Check.t :=
  [check_at OK 0 (Some (1 # 100)); check_at OK 10 (Some (2 # 100))].

(** * More of the code *)

(** ** db/db_handler.py, the monitors and the check log *)

Definition with_monitors (d : DBState) (l : list Monitor.t) : DBState :=
  mkDB (db_up d) (sites d) l (checks d).

(** The filter [{"user_id": user_id, "url": url}]. *)
Definition monitor_matches (user_id : Z) (url : string) (m : Monitor.t)
  : bool :=
  (Monitor.user_id m =? user_id) && String.eqb (Monitor.url m) url.

Definition add_monitor (user_id : Z) (url : string) (interval : Z)
  : M (option nat) :=
  exception_handling "DBHandler" "add_monitor"
    (mongo (fun d =>
              (with_monitors d
                 (monitors d ++ [Monitor.mk user_id url interval]),
               List.length (monitors d)))).

(** [delete_one]: the first matching document goes; the second component
    is [deleted_count]. *)
Fixpoint delete_one_monitor (user_id : Z) (url : string)
  (l : list Monitor.t) : list Monitor.t * Z :=
  match l with
  | [] => ([], 0)
  | m :: rest =>
      if monitor_matches user_id url m then (rest, 1)
      else let (rest', n) := delete_one_monitor user_id url rest in
           (m :: rest', n)
  end.

Definition delete_monitor (user_id : Z) (url : string) : M (option Z) :=
  exception_handling "DBHandler" "delete_monitor"
    (mongo (fun d =>
              let (l, n) := delete_one_monitor user_id url (monitors d) in
              (with_monitors d l, n))).

(** [update_one] with [$set]: the first matching document is written; the
    second component is [modified_count], which is 0 when the document
    already held the value. *)
Fixpoint update_one_monitor (user_id : Z) (url : string) (interval : Z)
  (l : list Monitor.t) : list Monitor.t * Z :=
  match l with
  | [] => ([], 0)
  | m :: rest =>
      if monitor_matches user_id url m
      then (Monitor.mk (Monitor.user_id m) (Monitor.url m) interval :: rest,
            if Monitor.interval m =? interval then 0 else 1)
      else let (rest', n) := update_one_monitor user_id url interval rest in
           (m :: rest', n)
  end.

Definition update_monitor (user_id : Z) (url : string) (interval : Z)
  : M (option Z) :=
  exception_handling "DBHandler" "update_monitor"
    (mongo (fun d =>
              let (l, n) :=
                update_one_monitor user_id url interval (monitors d) in
              (with_monitors d l, n))).

Definition get_monitor_users_by_url (url : string) : M (option (list Z)) :=
  exception_handling "DBHandler" "get_monitor_users_by_url"
    (mongo (fun d =>
              (d, nodup Z.eq_dec
                    (map Monitor.user_id
                       (filter (fun m => String.eqb (Monitor.url m) url)
                          (monitors d)))))).

Definition get_user_monitors_count (user_id : Z) : M (option Z) :=
  exception_handling "DBHandler" "get_user_monitors_count"
    (mongo (fun d =>
              (d, Z.of_nat
                    (List.length
                       (filter (fun m => Monitor.user_id m =? user_id)
                          (monitors d)))))).

Definition check_user_monitors_for_url (user_id : Z) (url : string)
  : M (option bool) :=
  exception_handling "DBHandler" "check_user_monitors_for_url"
    (mongo (fun d =>
              (d, match find (monitor_matches user_id url) (monitors d) with
                  | Some _ => true
                  | None => false
                  end))).

(** The filter of [get_check_records]: the URL, and the timestamp between
    [beg_date] and [end_date], both included. *)
Definition in_period (url : string) (beg_date end_date : Z) (c : Check.t)
  : bool :=
  String.eqb (Check.url c) url
  && (beg_date <=? Check.timestamp c)
  && (Check.timestamp c <=? end_date).

Definition get_check_records (url : string) (beg_date end_date : Z)
  : M (option (list Check.t)) :=
  exception_handling "DBHandler" "get_check_records"
    (mongo (fun d =>
              (d, filter (in_period url beg_date end_date) (checks d)))).

(** ** reporting/report_generator.py, the daily statistics and the report *)

Module DailyStat.
Record t := mk
  { date : Z;
    uptime_percentage : Q;
    total_checks : Z;
    average_response_time : Q }.
End DailyStat.

Module WeeklyReport.
Record t := mk
  { url : string;
    period_start : Z;
    period_end : Z;
    stats : UptimeStats.t;
    incidents : list Incident.t;
    daily_stats : list DailyStat.t }.
End WeeklyReport.

(** [datetime.date()], as a number of days: the quotient by the length of
    a day. *)
Definition date_of (t : Z) : Z := t / 86400.

(** [round(x, 1)]. *)
Definition round1 (q : Q) : Q :=
  Qmake (round_half_even (q * inject_Z 10)) 10.

(** The body of the [while current_date <= end_date_only] loop for one
    day: nothing is appended for a day without checks. *)
Definition day_stats (checks : list Check.t) (current_date : Z)
  : list DailyStat.t :=
  match filter (fun c => date_of (Check.timestamp c) =? current_date)
          checks with
  | [] => []
  | c :: l =>
      let day_checks := c :: l in
      let successful :=
        Z.of_nat (List.length (filter _is_check_successful day_checks)) in
      let total := Z.of_nat (List.length day_checks) in
      let uptime_percent :=
        if 0 <? total
        then (inject_Z successful / inject_Z total * inject_Z 100)%Q
        else inject_Z 0 in
      let avg_response_time :=
        match response_times day_checks with
        | [] => inject_Z 0
        | x :: r =>
            (sum_float (x :: r)
             / inject_Z (Z.of_nat (List.length (x :: r))))%Q
        end in
      [DailyStat.mk current_date (round1 uptime_percent) total
         (round2 avg_response_time)]
  end.

(** The loop, [days] iterations from [current_date] on. *)
Fixpoint daily_loop (days : nat) (current_date : Z) (checks : list Check.t)
  : list DailyStat.t :=
  match days with
  | O => []
  | S days' =>
      day_stats checks current_date
      ++ daily_loop days' (current_date + 1) checks
  end.

(** The loop runs once for every day from the day of [start_date] to the
    day of [end_date], and not at all when the latter is the earlier. *)
Definition _calculate_daily_stats (checks : list Check.t)
  (start_date end_date : Z) : list DailyStat.t :=
  daily_loop (Z.to_nat (date_of end_date - date_of start_date + 1))
    (date_of start_date) checks.

Definition lift {A} (r : result A) : M A := fun w => (w, r).

(** [generate_weekly_report]; [now] is [datetime.now()].  When the
    database call has returned [None], the statistics are the all-zero
    ones and [sorted(None)] then fails in [_find_incidents]. *)
Definition generate_weekly_report (k : Z) (now : Z) (url : string)
  (end_date : option Z) : M WeeklyReport.t :=
  let end_date := match end_date with Some e => e | None => now end in
  let start_date := end_date - 7 * 86400 in
  checks <- get_check_records url start_date end_date ;;
  match checks with
  | None =>
      lift (_calculate_uptime_stats k []) ;;;
      raise TypeError
  | Some checks =>
      stats <- lift (_calculate_uptime_stats k checks) ;;
      incidents <- lift (_find_incidents k checks) ;;
      ret (WeeklyReport.mk url start_date end_date stats incidents
             (_calculate_daily_stats checks start_date end_date))
  end.

(** ** bot/url_validator.py, the address check

    An [ipaddress] address or network is its version and its integer;
    [ip in network] compares the versions and then the address under the
    network mask. *)

Inductive IPVersion := IPv4 | IPv6.

Record IPAddress := mkIP { ip_version : IPVersion; ip_value : Z }.

Record IPNetwork := mkNetwork
  { net_version : IPVersion;
    network_address : Z;
    prefixlen : Z }.

Definition IPVersion_eqb (a b : IPVersion) : bool :=
  match a, b with
  | IPv4, IPv4 | IPv6, IPv6 => true
  | _, _ => false
  end.

Definition max_prefixlen (v : IPVersion) : Z :=
  match v with IPv4 => 32 | IPv6 => 128 end.

Definition netmask (n : IPNetwork) : Z :=
  Z.shiftl (Z.ones (prefixlen n))
    (max_prefixlen (net_version n) - prefixlen n).

Definition network_contains (n : IPNetwork) (ip : IPAddress) : bool :=
  IPVersion_eqb (net_version n) (ip_version ip)
  && (Z.land (ip_value ip) (netmask n) =? network_address n).

(** [a.b.c.d] as an integer. *)
Definition dotted (a b c d : Z) : Z :=
  a * 16777216 + b * 65536 + c * 256 + d.

Definition forbidden_ip_ranges : list IPNetwork :=
  [ mkNetwork IPv4 (dotted 127 0 0 0) 8;
    mkNetwork IPv4 (dotted 10 0 0 0) 8;
    mkNetwork IPv4 (dotted 172 16 0 0) 12;
    mkNetwork IPv4 (dotted 192 168 0 0) 16;
    mkNetwork IPv4 (dotted 169 254 0 0) 16;
    mkNetwork IPv4 (dotted 224 0 0 0) 4;
    mkNetwork IPv4 (dotted 240 0 0 0) 4;
    mkNetwork IPv6 1 128;
    mkNetwork IPv6 (Z.shiftl 64512 112) 7;
    mkNetwork IPv6 (Z.shiftl 65152 112) 10 ].

(** [IPv4Address.is_multicast] and [is_reserved]: membership in
    224.0.0.0/4 and in 240.0.0.0/4. *)
Definition is_multicast (ip : IPAddress) : bool :=
  network_contains (mkNetwork IPv4 (dotted 224 0 0 0) 4) ip.

Definition is_reserved (ip : IPAddress) : bool :=
  network_contains (mkNetwork IPv4 (dotted 240 0 0 0) 4) ip.

(** The four messages of [_validate_ip_address]; each stands for the
    f-string built from the values it carries. *)
Inductive IPMessage :=
| InForbiddenRange (ip : IPAddress) (forbidden_range : IPNetwork)
| MulticastForbidden (ip : IPAddress)
| ReservedForbidden (ip : IPAddress)
| AddressCorrect.

Definition _validate_ip_address (ip : IPAddress) : bool * IPMessage :=
  match find (fun r => network_contains r ip) forbidden_ip_ranges with
  | Some forbidden_range => (false, InForbiddenRange ip forbidden_range)
  | None =>
      match ip_version ip with
      | IPv4 =>
          if is_multicast ip then (false, MulticastForbidden ip)
          else if is_reserved ip then (false, ReservedForbidden ip)
          else (true, AddressCorrect)
      | IPv6 => (true, AddressCorrect)
      end
  end.

(** ** utils/functions.py, [format_duration]

    The returned text is a sequence of figures, each followed by the
    abbreviation of a unit or, with [full_words], by a word for it; the
    word comes in one of three forms.  A piece of the text is kept as
    the figure and what follows it. *)

Inductive TimeUnit := Seconds | Minutes | Hours | Days.

Inductive WordForm := FormOne | FormFew | FormMany.

Inductive UnitLabel :=
| Abbrev (u : TimeUnit)
| Word (u : TimeUnit) (f : WordForm).

(** The inner [format_full_words]: the form is chosen by [num % 10]. *)
Definition format_full_words (num : Z) (word : TimeUnit) : UnitLabel :=
  if num mod 10 =? 1 then Word word FormOne
  else if (2 <=? num mod 10) && (num mod 10 <? 5) then Word word FormFew
  else Word word FormMany.

Definition format_duration (seconds : Z) (full_words : bool)
  : list (Z * UnitLabel) :=
  if seconds <? 60 then
    if full_words then [(seconds, format_full_words seconds Seconds)]
    else [(seconds, Abbrev Seconds)]
  else if seconds <? 3600 then
    if full_words then
      if seconds mod 60 =? 0
      then [(seconds / 60, format_full_words (seconds / 60) Minutes)]
      else [(seconds / 60, format_full_words (seconds / 60) Minutes);
            (seconds mod 60, format_full_words seconds Seconds)]
    else [(seconds / 60, Abbrev Minutes); (seconds mod 60, Abbrev Seconds)]
  else if seconds <? 86400 then
    let hours := seconds / 3600 in
    let minutes := (seconds mod 3600) / 60 in
    if full_words then
      if minutes =? 0
      then [(hours, format_full_words hours Hours)]
      else [(hours, format_full_words hours Hours);
            (minutes, format_full_words minutes Minutes)]
    else [(hours, Abbrev Hours); (minutes, Abbrev Minutes)]
  else
    let days := seconds / 86400 in
    let hours := seconds mod 86400 in
    if full_words then
      if hours =? 0
      then [(days, format_full_words days Days)]
      else [(days, format_full_words days Days);
            (hours, format_full_words hours Hours)]
    else [(days, Abbrev Days); (hours, Abbrev Hours)].

(** * Vocabulary of the further properties *)

(** A stream of alerts in which no (url, UNAVAILABLE) follows another
    without a (url, AVAILABLE) in between; [down] tells whether the
    stream starts while the site is reported down. *)
Fixpoint well_alerted (down : bool) (l : list Notification.t) : Prop :=
  match l with
  | [] => True
  | n :: rest =>
      match Notification.status n with
      | UNAVAILABLE => down = false /\ well_alerted true rest
      | AVAILABLE => well_alerted false rest
      end
  end.

(** Whether a recorded status is UNAVAILABLE. *)
Definition is_down (st : SiteStatus) : bool := SiteStatus_eqb st UNAVAILABLE.

(** No subscribed observer raises, whatever it is sent. *)
Definition observers_deliver (w : World) : Prop :=
  forall o n, In o (observers w) -> notify o n = Ok tt.

(** For every dropped result, the number of kept results before it. *)
Fixpoint kept_before {A} (seen : nat) (rs : list (option A)) : list nat :=
  match rs with
  | [] => []
  | Some _ :: rest => kept_before (S seen) rest
  | None :: rest => seen :: kept_before seen rest
  end.

(** The number of monitors of a user and URL, and the monitors that are
    not of that user and URL. *)
Definition matching (user_id : Z) (url : string) (l : list Monitor.t) : nat :=
  List.length (filter (monitor_matches user_id url) l).

Definition others (user_id : Z) (url : string) (l : list Monitor.t)
  : list Monitor.t :=
  filter (fun m => negb (monitor_matches user_id url m)) l.

(** An incident with both ends, the start not after the end, and the
    duration their difference. *)
Definition well_timed (i : Incident.t) : Prop :=
  exists s e,
    Incident.start_time i = Some s /\ Incident.end_time i = Some e
    /\ s <= e /\ Incident.duration i = e - s.

(** The number of failed checks. *)
Definition failed (l : list Check.t) : nat :=
  List.length (filter (fun c => negb (_is_check_successful c)) l).

(** A check of day [d]; a check of a day from [lo] to [hi - 1]. *)
Definition on_day (d : Z) (c : Check.t) : bool :=
  date_of (Check.timestamp c) =? d.

Definition in_days (lo hi : Z) (c : Check.t) : bool :=
  (lo <=? date_of (Check.timestamp c)) && (date_of (Check.timestamp c) <? hi).

(** Strictly increasing. *)
Fixpoint rising (l : list Z) : Prop :=
  match l with
  | [] => True
  | x :: rest =>
      match rest with
      | [] => True
      | y :: _ => x < y
      end /\ rising rest
  end.

Definition sum_Z (l : list Z) : Z := fold_right Z.add 0 l.

(** The unit a label names, and its length in seconds. *)
Definition unit_of (l : UnitLabel) : TimeUnit :=
  match l with Abbrev u | Word u _ => u end.

Definition unit_seconds (u : TimeUnit) : Z :=
  match u with
  | Seconds => 1
  | Minutes => 60
  | Hours => 3600
  | Days => 86400
  end.

(** The duration a text reads as: every figure times its unit. *)
Definition shown (l : list (Z * UnitLabel)) : Z :=
  sum_Z (map (fun p => fst p * unit_seconds (unit_of (snd p))) l).

(** ** Further sample data *)

(** A world whose database does not answer, and one that holds checks. *)
Definition world_without_database : World :=
  mkWorld (mkDB false [] [] []) [] [] [] [] 0 silent_net 0%nat.

Definition world_with_checks (cs : list Check.t) : World :=
  mkWorld (mkDB true [] [] cs) [] [] [] [] 0 silent_net 0%nat.

(** * Properties *)

(** ** The store *)

Lemma with_db_same (w : World) : with_db w (db w) = w.
Proof. destruct w; reflexivity. Qed.

Lemma find_one_site_url (url : string) (l : list Site.t) (s : Site.t) :
  find_one_site url l = Some s -> Site.url s = url.
Proof.
  unfold find_one_site. intros H. apply find_some in H.
  destruct H as [_ H]. now apply String.eqb_eq.
Qed.

Lemma find_one_site_update (url : string) (st : SiteStatus) (f : Z)
  (l : list Site.t) (s : Site.t) :
  find_one_site url l = Some s ->
  find_one_site url (update_one_site url st f l) = Some (Site.mk url st f).
Proof.
  unfold find_one_site. induction l as [|x l IH]; simpl; [discriminate|].
  destruct (String.eqb (Site.url x) url) eqn:E; simpl.
  - intros _. rewrite E. apply String.eqb_eq in E. now rewrite E.
  - intros H. rewrite E. auto.
Qed.

Lemma find_one_site_update_other (url u : string) (st : SiteStatus) (f : Z)
  (l : list Site.t) :
  u <> url ->
  find_one_site u (update_one_site url st f l) = find_one_site u l.
Proof.
  intros Hne. unfold find_one_site.
  induction l as [|x l IH]; simpl; [reflexivity|].
  destruct (String.eqb (Site.url x) url) eqn:E; simpl.
  - apply String.eqb_eq in E.
    destruct (String.eqb (Site.url x) u) eqn:E'; [|reflexivity].
    apply String.eqb_eq in E'. congruence.
  - destruct (String.eqb (Site.url x) u); [reflexivity | apply IH].
Qed.

Lemma find_one_site_app_other (url u : string) (st : SiteStatus) (f : Z)
  (l : list Site.t) :
  u <> url ->
  find_one_site u (l ++ [Site.mk url st f]) = find_one_site u l.
Proof.
  intros Hne. unfold find_one_site.
  induction l as [|x l IH]; simpl.
  - destruct (String.eqb url u) eqn:E; [|reflexivity].
    apply String.eqb_eq in E. congruence.
  - destruct (String.eqb (Site.url x) u); [reflexivity | apply IH].
Qed.

Lemma get_site_up (url : string) (w : World) :
  db_up (db w) = true ->
  get_site url w = (w, Ok (find_one_site url (sites (db w)))).
Proof.
  intros Hup. unfold get_site, bind, exception_handling, mongo, ret.
  rewrite Hup, with_db_same.
  now destruct (find_one_site url (sites (db w))).
Qed.

Lemma update_site_up (url : string) (st : SiteStatus) (f : Z) (w : World) :
  db_up (db w) = true ->
  update_site url st f w =
  (with_db w (with_sites (db w) (update_one_site url st f (sites (db w)))),
   Ok tt).
Proof.
  intros Hup. unfold update_site, bind, exception_handling, mongo, ret.
  now rewrite Hup.
Qed.

(** ** The notification fan-out *)

Lemma for_observers_frame (obs : list Observer) (n : Notification.t)
  (w : World) :
  let w' := fst (for_observers obs n w) in
  db w' = db w /\ published w' = published w /\ observers w' = observers w.
Proof.
  revert w. induction obs as [|o obs IH]; intros w; simpl; [auto|].
  unfold bind, logger, await_notify. simpl.
  destruct (notify o n) as [[]|e]; simpl; [|auto].
  match goal with |- context [for_observers obs n ?x] =>
    destruct (IH x) as (H1 & H2 & H3) end.
  simpl in *. auto.
Qed.

Lemma notify_observers_frame (n : Notification.t) (w : World) :
  let w' := fst (_notify_observers n w) in
  db w' = db w /\ published w' = published w ++ [n]
  /\ observers w' = observers w.
Proof.
  unfold _notify_observers.
  destruct (for_observers_frame (observers w) n
              (with_published w (published w ++ [n]))) as (H1 & H2 & H3).
  simpl in *. auto.
Qed.

(** With the server reachable and the site on record,
    [process_check_result] is [decide_status] on that record. *)
Lemma process_existing_site (k : Z) (d : ResponseData.t) (s : Site.t)
  (w : World) :
  db_up (db w) = true ->
  find_one_site (ResponseData.url d) (sites (db w)) = Some s ->
  process_check_result k d w = decide_status k d s w.
Proof.
  intros Hup Hs. unfold process_check_result, bind.
  now rewrite (get_site_up _ _ Hup), Hs.
Qed.

(** ** The status machine *)

Lemma decide_status_failed (k : Z) (d : ResponseData.t) (s : Site.t)
  (w : World) :
  db_up (db w) = true ->
  ResponseData.status d <> OK ->
  let url := ResponseData.url d in
  let failures := Site.consecutive_failures s + 1 in
  let new_status := if k <=? failures then UNAVAILABLE else Site.status s in
  let w' := fst (decide_status k d s w) in
  db w' = with_sites (db w)
            (update_one_site url new_status failures (sites (db w)))
  /\ published w' =
     published w ++
       (if SiteStatus_eqb (Site.status s) AVAILABLE
           && SiteStatus_eqb new_status UNAVAILABLE
        then [Notification.mk url UNAVAILABLE] else []).
Proof.
  intros Hup Hst. cbv zeta. unfold decide_status.
  replace (ResponseStatus_eqb (ResponseData.status d) OK) with false
    by (destruct (ResponseData.status d); simpl; congruence).
  unfold bind. rewrite (update_site_up _ _ _ _ Hup).
  set (w1 := with_db w _).
  destruct (SiteStatus_eqb (Site.status s) AVAILABLE && _).
  - destruct (notify_observers_frame
                (Notification.mk (ResponseData.url d) UNAVAILABLE) w1)
      as (H1 & H2 & _).
    rewrite H1, H2. subst w1. simpl. auto.
  - subst w1. simpl. now rewrite app_nil_r.
Qed.

Lemma decide_status_ok (k : Z) (d : ResponseData.t) (s : Site.t)
  (w : World) :
  db_up (db w) = true ->
  ResponseData.status d = OK ->
  let url := ResponseData.url d in
  (Site.status s = UNAVAILABLE \/ 0 < Site.consecutive_failures s ->
   let w' := fst (decide_status k d s w) in
   db w' = with_sites (db w) (update_one_site url AVAILABLE 0 (sites (db w)))
   /\ published w' = published w ++ [Notification.mk url AVAILABLE])
  /\ (Site.status s = AVAILABLE /\ Site.consecutive_failures s <= 0 ->
      decide_status k d s w = (w, Ok tt)).
Proof.
  intros Hup Hst. cbv zeta. unfold decide_status. rewrite Hst. simpl.
  split.
  - intros Hc.
    replace (SiteStatus_eqb (Site.status s) UNAVAILABLE
             || (0 <? Site.consecutive_failures s)) with true.
    + unfold bind. rewrite (update_site_up _ _ _ _ Hup).
      set (w1 := with_db w _).
      destruct (notify_observers_frame
                  (Notification.mk (ResponseData.url d) AVAILABLE) w1)
        as (H1 & H2 & _).
      rewrite H1, H2. subst w1. simpl. auto.
    + symmetry. apply orb_true_iff. destruct Hc as [Hc|Hc].
      * left. now rewrite Hc.
      * right. now apply Z.ltb_lt.
  - intros [Hs Hf]. rewrite Hs. simpl.
    replace (0 <? Site.consecutive_failures s) with false; [reflexivity|].
    symmetry. apply Z.ltb_ge. exact Hf.
Qed.

(** C2.  A failed check against the recorded state [(status, failures)]
    persists [(UNAVAILABLE, failures + 1)] when [failures + 1] reaches
    FAILURE_THRESHOLD and [(status, failures + 1)] otherwise, touches no
    other site, and publishes the notification [(url, UNAVAILABLE)] if and
    only if the status was AVAILABLE before and is UNAVAILABLE after. *)
Theorem failed_check_transition (k : Z) (w : World) (d : ResponseData.t)
  (s : Site.t) :
  db_up (db w) = true ->
  find_one_site (ResponseData.url d) (sites (db w)) = Some s ->
  ResponseData.status d <> OK ->
  let url := ResponseData.url d in
  let failures := Site.consecutive_failures s in
  let w' := fst (process_check_result k d w) in
  (k <= failures + 1 ->
   find_one_site url (sites (db w'))
   = Some (Site.mk url UNAVAILABLE (failures + 1)))
  /\ (failures + 1 < k ->
      find_one_site url (sites (db w'))
      = Some (Site.mk url (Site.status s) (failures + 1)))
  /\ (forall u, u <> url ->
        find_one_site u (sites (db w')) = find_one_site u (sites (db w)))
  /\ exists emitted,
       published w' = published w ++ emitted
       /\ (emitted = [] \/ emitted = [Notification.mk url UNAVAILABLE])
       /\ (emitted = [Notification.mk url UNAVAILABLE] <->
           Site.status s = AVAILABLE
           /\ exists s', find_one_site url (sites (db w')) = Some s'
                         /\ Site.status s' = UNAVAILABLE).
Proof.
  intros Hup Hs Hst. cbv zeta.
  rewrite (process_existing_site k d s w Hup Hs).
  destruct (decide_status_failed k d s w Hup Hst) as [Hdb Hpub].
  cbv zeta in Hdb, Hpub. rewrite Hdb, Hpub. simpl sites.
  set (f := Site.consecutive_failures s + 1) in *.
  set (new_status := if k <=? f then UNAVAILABLE else Site.status s) in *.
  assert (Hfind := find_one_site_update (ResponseData.url d) new_status f
                     _ _ Hs).
  repeat split.
  - intros Hk. rewrite Hfind. subst new_status.
    now replace (k <=? f) with true by (symmetry; apply Z.leb_le; lia).
  - intros Hk. rewrite Hfind. subst new_status.
    now replace (k <=? f) with false by (symmetry; apply Z.leb_gt; lia).
  - intros u Hu. now apply find_one_site_update_other.
  - eexists. split; [reflexivity|]. rewrite Hfind. split.
    + destruct (SiteStatus_eqb (Site.status s) AVAILABLE
                && SiteStatus_eqb new_status UNAVAILABLE); auto.
    + split.
      * intros He.
        destruct (Site.status s) eqn:Es; simpl in He; [discriminate|].
        split; [reflexivity|]. eexists; split; [reflexivity|]. simpl.
        destruct new_status; [reflexivity | discriminate].
      * intros [Ha (s' & Hs' & Hu)]. injection Hs' as <-. simpl in Hu.
        now rewrite Ha, Hu.
Qed.

(** C3.  A successful check against the recorded state persists
    [(AVAILABLE, 0)] and publishes exactly the notification
    [(url, AVAILABLE)] when [failures > 0] or the status is UNAVAILABLE,
    whatever the value of [failures]; otherwise the call changes nothing
    at all. *)
Theorem ok_check_transition (k : Z) (w : World) (d : ResponseData.t)
  (s : Site.t) :
  db_up (db w) = true ->
  find_one_site (ResponseData.url d) (sites (db w)) = Some s ->
  ResponseData.status d = OK ->
  let url := ResponseData.url d in
  let w' := fst (process_check_result k d w) in
  (0 < Site.consecutive_failures s \/ Site.status s = UNAVAILABLE ->
   find_one_site url (sites (db w')) = Some (Site.mk url AVAILABLE 0)
   /\ published w' = published w ++ [Notification.mk url AVAILABLE])
  /\ (~ (0 < Site.consecutive_failures s \/ Site.status s = UNAVAILABLE) ->
      process_check_result k d w = (w, Ok tt)).
Proof.
  intros Hup Hs Hst. cbv zeta.
  rewrite (process_existing_site k d s w Hup Hs).
  destruct (decide_status_ok k d s w Hup Hst) as [Hyes Hno]. split.
  - intros Hc. destruct Hyes as [Hdb Hpub]; [tauto|].
    rewrite Hdb, Hpub. simpl sites. split; [|reflexivity].
    now apply find_one_site_update with (s := s).
  - intros Hc. apply Hno. split; [|lia].
    destruct (Site.status s); [tauto | reflexivity].
Qed.

(** A successful check on a site that is AVAILABLE with a running failure
    count publishes (url, AVAILABLE) and leaves the status as it was. *)
Lemma recovery_publishes_without_change (k : Z) (w : World)
  (d : ResponseData.t) (s : Site.t) :
  db_up (db w) = true ->
  find_one_site (ResponseData.url d) (sites (db w)) = Some s ->
  ResponseData.status d = OK ->
  Site.status s = AVAILABLE ->
  0 < Site.consecutive_failures s ->
  let url := ResponseData.url d in
  let w' := fst (process_check_result k d w) in
  find_one_site url (sites (db w')) = Some (Site.mk url (Site.status s) 0)
  /\ published w' = published w ++ [Notification.mk url AVAILABLE].
Proof.
  intros Hup Hs Hst Ha Hf. cbv zeta.
  rewrite (process_existing_site k d s w Hup Hs).
  destruct (decide_status_ok k d s w Hup Hst) as [Hyes _].
  destruct Hyes as [Hdb Hpub]; [now right|].
  rewrite Hdb, Hpub, Ha. simpl sites. split; [|reflexivity].
  now apply find_one_site_update with (s := s).
Qed.

(** C1.  With FAILURE_THRESHOLD = 3 and the site at (AVAILABLE, 0), two
    failed checks followed by a successful one leave the status AVAILABLE
    at every step, yet the successful check publishes the notification
    (url, AVAILABLE): a notification without a change of status. *)
Theorem blips_then_success_notifies :
  let w0 := world_of [Site.mk example_url AVAILABLE 0] [] in
  let w1 := fst (process_check_result 3 (failed_at 1) w0) in
  let w2 := fst (process_check_result 3 (failed_at 2) w1) in
  let w3 := fst (process_check_result 3 (ok_at 3) w2) in
  sites (db w1) = [Site.mk example_url AVAILABLE 1]
  /\ sites (db w2) = [Site.mk example_url AVAILABLE 2]
  /\ published w2 = []
  /\ sites (db w3) = [Site.mk example_url AVAILABLE 0]
  /\ published w3 = [Notification.mk example_url AVAILABLE].
Proof. vm_compute. repeat split. Qed.

(** ** Delivery to the observers *)

(** C4, as stated, fails: with a raising observer subscribed before a
    working one, the exception reaches the publisher and the working
    observer is never served. *)
Lemma delivery_not_isolated :
  ~ isolated_delivery (Notification.mk example_url UNAVAILABLE)
      (world_of [] [broken_observer; working_observer]).
Proof.
  unfold isolated_delivery. intros [H _]. vm_compute in H. discriminate.
Qed.

Lemma for_observers_all_served (obs : list Observer) (n : Notification.t)
  (w : World) :
  (forall o, In o obs -> notify o n = Ok tt) ->
  for_observers obs n w =
  (mkWorld (db w) (observers w) (published w)
     (inbox w ++ map (fun o => (name o, n)) obs)
     (log w ++ map (fun o => ObserverNotified (name o) n) obs)
     (ticks w) (net w) (requests w), Ok tt).
Proof.
  revert w. induction obs as [|o obs IH]; intros w Hall; simpl.
  - rewrite !app_nil_r. now destruct w.
  - unfold bind, logger, await_notify. simpl.
    rewrite (Hall o (or_introl eq_refl)). simpl.
    rewrite IH by (intros; apply Hall; now right). simpl.
    now rewrite <- !app_assoc.
Qed.

(** C4, amended.  Observers are served in subscription order and an
    exception raised by one of them is not caught: the observers before it
    have been served, each attempt up to and including the failing one was
    announced in the log, the observers after it are not served, and the
    exception is raised to the publisher. *)
Theorem delivery_stops_at_first_failure (n : Notification.t) (w : World)
  (served : list Observer) (failing : Observer) (skipped : list Observer)
  (e : exn) :
  observers w = served ++ failing :: skipped ->
  (forall o, In o served -> notify o n = Ok tt) ->
  notify failing n = Raise e ->
  let w' := fst (_notify_observers n w) in
  snd (_notify_observers n w) = Raise e
  /\ inbox w' = inbox w ++ map (fun o => (name o, n)) served
  /\ log w' = log w ++ map (fun o => ObserverNotified (name o) n)
                         (served ++ [failing])
  /\ published w' = published w ++ [n].
Proof.
  intros Hobs Hserved Hfail. cbv zeta. unfold _notify_observers.
  rewrite Hobs.
  assert (Hgen : forall w0,
    snd (for_observers (served ++ failing :: skipped) n w0) = Raise e
    /\ inbox (fst (for_observers (served ++ failing :: skipped) n w0))
       = inbox w0 ++ map (fun o => (name o, n)) served
    /\ log (fst (for_observers (served ++ failing :: skipped) n w0))
       = log w0 ++ map (fun o => ObserverNotified (name o) n)
                     (served ++ [failing])
    /\ published (fst (for_observers (served ++ failing :: skipped) n w0))
       = published w0).
  { clear Hobs. induction served as [|o served IH]; intros w0; simpl.
    - unfold bind, logger, await_notify. simpl. rewrite Hfail. simpl.
      now rewrite app_nil_r.
    - unfold bind, logger, await_notify. simpl.
      rewrite (Hserved o (or_introl eq_refl)). simpl.
      match goal with |- context [for_observers _ n ?x] =>
        destruct (IH (fun o' H => Hserved o' (or_intror H)) x)
          as (H1 & H2 & H3 & H4) end.
      rewrite H1, H2, H3, H4. simpl. now rewrite <- !app_assoc. }
  destruct (Hgen (with_published w (published w ++ [n])))
    as (H1 & H2 & H3 & H4).
  rewrite H1, H2, H3, H4. simpl. auto.
Qed.

(** ** What each operation leaves alone

    [R w w'] relates a world to a later one.  Each closure hypothesis says
    that one kind of write keeps [R]; an operation is [stable] when it
    only moves to [R]-related worlds.  [touched] holds of the URLs whose
    site record may be written. *)

Section Stability.

Variable R : World -> World -> Prop.
Hypothesis R_refl : forall w, R w w.
Hypothesis R_trans : forall a b c, R a b -> R b c -> R a c.
Hypothesis R_log : forall w l, R w (with_log w l).
Variable touched : string -> Prop.
Hypothesis R_site_update :
  forall w url st f, touched url -> db_up (db w) = true ->
    R w (with_db w (with_sites (db w)
                      (update_one_site url st f (sites (db w))))).
Hypothesis R_site_add :
  forall w url st, touched url -> db_up (db w) = true ->
    R w (with_db w (with_sites (db w) (sites (db w) ++ [Site.mk url st 0]))).
Hypothesis touched_all : forall url, touched url.
Hypothesis R_checks :
  forall w l, db_up (db w) = true -> R w (with_db w (with_checks (db w) l)).
Hypothesis R_published : forall w p, R w (with_published w p).
Hypothesis R_inbox : forall w i, R w (with_inbox w i).
Hypothesis R_requests : forall w n, R w (with_requests w n).

Lemma stable_ret {A} (a : A) : stable R (ret a).
Proof. intros w. apply R_refl. Qed.

Lemma stable_raise {A} (e : exn) : stable R (@raise A e).
Proof. intros w. apply R_refl. Qed.

Lemma stable_bind {A B} (m : M A) (f : A -> M B) :
  stable R m -> (forall a, stable R (f a)) -> stable R (bind m f).
Proof.
  intros Hm Hf w. unfold bind. specialize (Hm w).
  destruct (m w) as [w1 [a|e]]; simpl in *; [|exact Hm].
  eapply R_trans; [exact Hm | apply Hf].
Qed.

Lemma stable_gather {A B} (f : A -> M B) (xs : list A) :
  (forall x, In x xs -> stable R (f x)) -> stable R (gather f xs).
Proof.
  induction xs as [|x xs IH]; intros Hf w; simpl.
  - apply R_refl.
  - assert (Hx := Hf x (or_introl eq_refl) w).
    destruct (f x w) as [w1 r]. simpl in Hx.
    assert (Hxs := IH (fun y Hy => Hf y (or_intror Hy)) w1).
    destruct (gather f xs w1) as [w2 rs]. simpl in *.
    eapply R_trans; eassumption.
Qed.

Lemma stable_logger (r : LogRecord) : stable R (logger r).
Proof. intros w. apply R_log. Qed.

Lemma stable_exception_handling {A} (cls method : string) (body : M A) :
  stable R body -> stable R (exception_handling cls method body).
Proof.
  intros Hb w. unfold exception_handling. specialize (Hb w).
  destruct (body w) as [w1 [a|[]]]; simpl in *; try exact Hb;
    (eapply R_trans; [exact Hb | apply R_log]).
Qed.

Lemma stable_get_site (url : string) : stable R (get_site url).
Proof.
  apply stable_bind; [|intros; apply stable_ret].
  apply stable_exception_handling. intros w. unfold mongo.
  destruct (db_up (db w)); simpl; [rewrite with_db_same|]; apply R_refl.
Qed.

Lemma stable_get_monitors_urls_for_tick (seconds : Z) :
  stable R (get_monitors_urls_for_tick seconds).
Proof.
  apply stable_exception_handling. intros w. unfold mongo.
  destruct (db_up (db w)); simpl; [rewrite with_db_same|]; apply R_refl.
Qed.

Lemma stable_update_site (url : string) (st : SiteStatus) (f : Z) :
  touched url -> stable R (update_site url st f).
Proof.
  intros Hu. apply stable_bind; [|intros; apply stable_ret].
  apply stable_exception_handling. intros w. unfold mongo.
  destruct (db_up (db w)) eqn:E; simpl;
    [now apply R_site_update | apply R_refl].
Qed.

Lemma stable_add_site (url : string) (st : SiteStatus) :
  touched url -> stable R (add_site url st).
Proof.
  intros Hu. apply stable_exception_handling. intros w. unfold mongo.
  destruct (db_up (db w)) eqn:E; simpl;
    [now apply R_site_add | apply R_refl].
Qed.

Lemma stable_add_check_record (doc : Check.t) :
  stable R (add_check_record doc).
Proof.
  apply stable_exception_handling. intros w. unfold mongo.
  destruct (db_up (db w)) eqn:E; simpl; [now apply R_checks | apply R_refl].
Qed.

Lemma stable_for_observers (obs : list Observer) (n : Notification.t) :
  stable R (for_observers obs n).
Proof.
  induction obs as [|o obs IH]; simpl; [apply stable_ret|].
  apply stable_bind; [apply stable_logger | intros _].
  apply stable_bind; [|intros _; exact IH].
  intros w. unfold await_notify.
  destruct (notify o n); simpl; [apply R_inbox | apply R_refl].
Qed.

Lemma stable_notify_observers (n : Notification.t) :
  stable R (_notify_observers n).
Proof.
  intros w. unfold _notify_observers.
  eapply R_trans; [apply R_published | apply stable_for_observers].
Qed.

Lemma stable_decide_status (k : Z) (d : ResponseData.t) (s : Site.t) :
  touched (ResponseData.url d) -> stable R (decide_status k d s).
Proof.
  intros Hu. unfold decide_status.
  destruct (ResponseStatus_eqb (ResponseData.status d) OK).
  - destruct (SiteStatus_eqb (Site.status s) UNAVAILABLE
              || (0 <? Site.consecutive_failures s)).
    + apply stable_bind; [now apply stable_update_site | intros _].
      apply stable_notify_observers.
    + apply stable_ret.
  - apply stable_bind; [now apply stable_update_site | intros _].
    destruct (SiteStatus_eqb (Site.status s) AVAILABLE && _).
    + apply stable_notify_observers.
    + apply stable_ret.
Qed.

Lemma stable_process_check_result (k : Z) (d : ResponseData.t) :
  touched (ResponseData.url d) -> stable R (process_check_result k d).
Proof.
  intros Hu. unfold process_check_result.
  apply stable_bind; [apply stable_get_site | intros [s|]].
  - now apply stable_decide_status.
  - apply stable_bind; [now apply stable_add_site | intros [i|]].
    + apply stable_bind; [apply stable_get_site | intros [s|]].
      * now apply stable_decide_status.
      * apply stable_raise.
    + apply stable_logger.
Qed.

Lemma stable_make_request (url : string) : stable R (make_request url).
Proof.
  apply stable_exception_handling. intros w. unfold make_request_body.
  destruct (outcome (net w (requests w) url)) as [c t|[| |what]]; simpl;
    try destruct (raise_for_status c); simpl; apply R_requests.
Qed.

Lemma stable_drop_failed (fuel : nat) (urls : list string)
  (rs : list (option ResponseData.t)) :
  stable R (drop_failed fuel urls rs).
Proof.
  revert rs. induction fuel as [|fuel IH]; intros rs; simpl.
  - apply stable_ret.
  - destruct (index_None rs) as [idx|]; [|apply stable_ret].
    destruct (nth_error urls idx); [|apply stable_raise].
    apply stable_bind; [apply stable_logger | intros _; apply IH].
Qed.

Lemma stable_prepare_all (rs : list (option ResponseData.t)) :
  stable R (prepare_all rs).
Proof.
  induction rs as [|[d|] rs IH]; simpl.
  - apply stable_ret.
  - apply stable_bind; [exact IH | intros; apply stable_ret].
  - apply stable_raise.
Qed.

Lemma stable_warn_unwritten (docs : list Check.t) (ids : list (option nat)) :
  stable R (warn_unwritten docs ids).
Proof.
  revert ids. induction docs as [|doc docs IH]; intros [|i ids]; simpl;
    try apply stable_ret.
  apply stable_bind; [|intros _; apply IH].
  destruct i; [apply stable_ret | apply stable_logger].
Qed.

Lemma stable_forward (k : Z) (data : option ResponseData.t) :
  stable R (forward k data).
Proof.
  destruct data; simpl;
    [apply stable_process_check_result, touched_all | apply stable_raise].
Qed.

Lemma stable_run_task (k : Z) (urls : list string) :
  stable R (run_task k urls).
Proof.
  unfold run_task.
  apply stable_bind;
    [apply stable_gather; intros; apply stable_make_request | intros rs].
  apply stable_bind; [apply stable_drop_failed | intros rs'].
  apply stable_bind; [apply stable_prepare_all | intros docs].
  apply stable_bind;
    [apply stable_gather; intros; apply stable_add_check_record|].
  intros ids.
  apply stable_bind; [apply stable_warn_unwritten | intros _].
  apply stable_bind;
    [apply stable_gather; intros; apply stable_forward | intros _].
  apply stable_ret.
Qed.

End Stability.

(** ** The probe *)

(** C7, as stated, fails on a final 3xx response: 304 Not Modified is
    reported as UNAVAILABLE. *)
Lemma not_modified_is_not_ok :
  snd (make_request example_url
         (world_answering (mkExchange 1700000000 (Response 304 (1 # 4)))))
  = Ok (Some (ResponseData.mk example_url UNAVAILABLE_RESPONSE 1700000000
                (Some 304) None))
  /\ ~ ok_through_3xx example_url
         (world_answering (mkExchange 1700000000 (Response 304 (1 # 4)))).
Proof.
  split; [reflexivity|].
  intros H. specialize (H 304 (1 # 4) eq_refl ltac:(lia)).
  vm_compute in H. discriminate.
Qed.

(** C7, amended.  [make_request] never raises.  It reports OK, with the
    HTTP code and the latency, for a final 2xx response; UNAVAILABLE,
    with the HTTP code, for any other final status; DNS_ERROR when the
    client raises ConnectError; TIMEOUT when it raises ConnectTimeout.
    The timestamp is the time of the request. *)
Theorem make_request_classifies (url : string) (w : World) :
  let x := net w (requests w) url in
  let returned := snd (make_request url w) in
  (forall c t, outcome x = Response c t -> 200 <= c <= 299 ->
     returned = Ok (Some (ResponseData.mk url OK (at_time x)
                            (Some c) (Some t))))
  /\ (forall c t, outcome x = Response c t -> ~ 200 <= c <= 299 ->
        returned = Ok (Some (ResponseData.mk url UNAVAILABLE_RESPONSE
                               (at_time x) (Some c) None)))
  /\ (outcome x = GetRaises ConnectError ->
      returned = Ok (Some (ResponseData.mk url DNS_ERROR (at_time x)
                             None None)))
  /\ (outcome x = GetRaises ConnectTimeout ->
      returned = Ok (Some (ResponseData.mk url TIMEOUT (at_time x)
                             None None)))
  /\ exists r, returned = Ok r.
Proof.
  cbv zeta. unfold make_request, exception_handling, make_request_body.
  repeat split.
  - intros c t -> Hc. unfold raise_for_status.
    replace (200 <=? c) with true by (symmetry; apply Z.leb_le; lia).
    now replace (c <=? 299) with true by (symmetry; apply Z.leb_le; lia).
  - intros c t -> Hc. unfold raise_for_status.
    destruct (200 <=? c) eqn:E1; destruct (c <=? 299) eqn:E2; simpl;
      try reflexivity.
    apply Z.leb_le in E1, E2. lia.
  - now intros ->.
  - now intros ->.
  - destruct (outcome (net w (requests w) url)) as [c t|[| |what]]; simpl;
      try destruct (raise_for_status c); simpl; eauto.
Qed.

(** ** The tick scheduler *)

Lemma where_due_iff (seconds : Z) (m : Monitor.t) :
  0 < seconds ->
  where_due seconds m = true <-> seconds mod Monitor.interval m = 0.
Proof.
  intros Hs. unfold where_due, js_rem.
  destruct (Monitor.interval m =? 0) eqn:E.
  - apply Z.eqb_eq in E. rewrite E, Z.mod_0_r. split; [discriminate | lia].
  - apply Z.eqb_neq in E. rewrite Z.eqb_eq.
    rewrite (Z.rem_divide _ _ E), (Z.mod_divide _ _ E). tauto.
Qed.

Lemma tick_keeps_schedule (k td : Z) (w : World) :
  let w' := fst (_tick k td w) in
  ticks w' = ticks w + 1
  /\ db_up (db w') = db_up (db w)
  /\ monitors (db w') = monitors (db w).
Proof.
  assert (Hrefl : forall a, same_schedule a a) by (now unfold same_schedule).
  assert (Htrans : forall a b c,
             same_schedule a b -> same_schedule b c -> same_schedule a c).
  { unfold same_schedule. intros a b c (H1 & H2 & H3) (H4 & H5 & H6).
    repeat split; congruence. }
  assert (Hrest : stable same_schedule
            (urls <- (urls <- get_monitors_urls_for_tick
                                (ticks (with_ticks w (ticks w + 1)) * td) ;;
                      match urls with
                      | None => logger UrlListError ;;; ret []
                      | Some urls => ret urls
                      end) ;;
             logger (TickUrls urls) ;;; run_task k urls)).
  { assert (Hlog : forall (a : World) (l : list LogRecord),
               same_schedule a (with_log a l)) by (now unfold same_schedule).
    apply (stable_bind _ Htrans).
    - apply (stable_bind _ Htrans).
      + apply (stable_get_monitors_urls_for_tick _ Hrefl Htrans Hlog).
      + intros [urls|]; [apply (stable_ret _ Hrefl)|].
        apply (stable_bind _ Htrans); [apply (stable_logger _ Hlog)|].
        intros _. apply (stable_ret _ Hrefl).
    - intros urls.
      apply (stable_bind _ Htrans); [apply (stable_logger _ Hlog)|].
      intros _.
      apply (stable_run_task _ Hrefl Htrans Hlog) with (touched := fun _ => True);
        unfold same_schedule; intros; simpl; auto. }
  specialize (Hrest (with_ticks w (ticks w + 1))).
  destruct Hrest as (H1 & H2 & H3). cbv zeta.
  unfold _tick, _urls_per_tick in *. unfold bind in *.
  split; [|split].
  - etransitivity; [exact H1 | reflexivity].
  - etransitivity; [exact H2 | reflexivity].
  - etransitivity; [exact H3 | reflexivity].
Qed.

Lemma fire_schedule (k td : Z) (n : nat) (w : World) :
  ticks (fire k td n w) = Z.of_nat n
  /\ db_up (db (fire k td n w)) = db_up (db w)
  /\ monitors (db (fire k td n w)) = monitors (db w).
Proof.
  induction n as [|n (H1 & H2 & H3)].
  - simpl. auto.
  - destruct (tick_keeps_schedule k td (fire k td n w)) as (T1 & T2 & T3).
    change (fire k td (S n) w) with (fst (_tick k td (fire k td n w))).
    rewrite T1, T2, T3, H1, H2, H3. repeat split. lia.
Qed.

Lemma urls_per_tick_up (td : Z) (w : World) :
  db_up (db w) = true ->
  _urls_per_tick td w =
  (with_ticks w (ticks w + 1),
   Ok (nodup string_dec
         (map Monitor.url
            (filter (where_due ((ticks w + 1) * td)) (monitors (db w)))))).
Proof.
  intros Hup.
  unfold _urls_per_tick, get_monitors_urls_for_tick, bind,
    exception_handling, mongo, ret.
  destruct w as [d obs pub inb lg tk nt rq]. simpl in *. now rewrite Hup.
Qed.

(** C6.  After [n] fired ticks the counter is [n], so the first fired
    tick works with 1 and each tick adds exactly 1; the URLs of tick [t]
    are, without repetition, those of the monitors whose interval [I]
    satisfies [(t * TICK_DURATION) mod I = 0].  With TICK_DURATION = 10
    and interval 30 a monitor is due on the ticks 3, 6, 9, ... and not on
    the ticks 1, 2, 4, 5. *)
Theorem tick_due_set (k td : Z) (w : World) (n : nat) :
  0 < td ->
  db_up (db w) = true ->
  let before := fire k td n w in
  let t := Z.of_nat n + 1 in
  ticks before = Z.of_nat n
  /\ ticks (fst (_urls_per_tick td before)) = t
  /\ ticks (fire k td (S n) w) = t
  /\ (exists urls,
        snd (_urls_per_tick td before) = Ok urls
        /\ NoDup urls
        /\ forall u, In u urls <->
             exists m, In m (monitors (db before))
                       /\ Monitor.url m = u
                       /\ (t * td) mod Monitor.interval m = 0)
  /\ (forall m, Monitor.interval m = 30 ->
        (forall j, 1 <= j -> where_due (3 * j * 10) m = true)
        /\ where_due (1 * 10) m = false
        /\ where_due (2 * 10) m = false
        /\ where_due (4 * 10) m = false
        /\ where_due (5 * 10) m = false).
Proof.
  intros Htd Hup. cbv zeta.
  destruct (fire_schedule k td n w) as (H1 & H2 & H3).
  destruct (fire_schedule k td (S n) w) as (H4 & _).
  assert (Hup' : db_up (db (fire k td n w)) = true) by congruence.
  rewrite (urls_per_tick_up td _ Hup'). simpl fst. simpl snd.
  rewrite H1. repeat split.
  - rewrite H4. lia.
  - eexists. split; [reflexivity|]. split; [apply NoDup_nodup|].
    intros u. rewrite nodup_In, in_map_iff. split.
    + intros (m & Hu & Hm). apply filter_In in Hm. destruct Hm as [Hin Hd].
      exists m. repeat split; auto. apply where_due_iff; [nia | exact Hd].
    + intros (m & Hin & Hu & Hd). exists m. split; [exact Hu|].
      apply filter_In. split; [exact Hin|]. apply where_due_iff; [nia|].
      exact Hd.
  - intros j Hj. apply where_due_iff; [lia|]. rewrite H.
    replace (3 * j * 10) with (j * 30) by lia. apply Z_mod_mult.
  - unfold where_due, js_rem. now rewrite H.
  - unfold where_due, js_rem. now rewrite H.
  - unfold where_due, js_rem. now rewrite H.
  - unfold where_due, js_rem. now rewrite H.
Qed.

(** ** The check executor *)

Lemma index_None_absent {A} (rs : list (option A)) :
  index_None rs = None -> rs = map Some (somes rs).
Proof.
  induction rs as [|[a|] rs IH]; simpl; try discriminate; [reflexivity|].
  destruct (index_None rs); simpl; [discriminate|].
  intros _. now rewrite <- IH.
Qed.

Lemma index_None_found {A} (rs : list (option A)) (idx : nat) :
  index_None rs = Some idx ->
  (idx < List.length rs)%nat
  /\ somes (pop idx rs) = somes rs
  /\ S (List.length (pop idx rs)) = List.length rs.
Proof.
  revert idx. induction rs as [|[a|] rs IH]; simpl; intros idx H.
  - discriminate.
  - destruct (index_None rs) as [i|]; simpl in H; [|discriminate].
    injection H as <-. destruct (IH i eq_refl) as (H1 & H2 & H3).
    simpl. rewrite H2, H3. repeat split. lia.
  - injection H as <-. simpl. repeat split. lia.
Qed.

(** The loop ends within [fuel] iterations, never fails on [urls[idx]],
    and leaves exactly the results that are not [None], in order. *)
Lemma drop_failed_result (fuel : nat) (urls : list string)
  (rs : list (option ResponseData.t)) (w : World) :
  (List.length rs <= fuel)%nat ->
  (List.length rs <= List.length urls)%nat ->
  snd (drop_failed fuel urls rs w) = Ok (map Some (somes rs)).
Proof.
  revert rs w. induction fuel as [|fuel IH]; intros rs w Hfuel Hurls; simpl.
  - destruct rs; [reflexivity | simpl in Hfuel; lia].
  - destruct (index_None rs) as [idx|] eqn:E.
    + destruct (index_None_found rs idx E) as (H1 & H2 & H3).
      destruct (nth_error urls idx) as [u|] eqn:En.
      * unfold bind, logger. rewrite IH by lia. now rewrite H2.
      * apply nth_error_None in En. lia.
    + simpl. f_equal. now apply index_None_absent.
Qed.

Lemma make_request_returns (url : string) (w : World) :
  exists r, snd (make_request url w) = Ok r
            /\ forall d, r = Some d -> ResponseData.url d = url.
Proof.
  unfold make_request, exception_handling, make_request_body.
  destruct (outcome (net w (requests w) url)) as [c t|[| |what]]; simpl;
    try destruct (raise_for_status c); simpl;
    eexists; (split; [reflexivity|]); intros d H; inversion H; reflexivity.
Qed.

Lemma gather_make_request_returns (urls : list string) (w : World) :
  exists rs,
    snd (gather make_request urls w) = Ok rs
    /\ Forall2 (fun u r => forall d, r = Some d -> ResponseData.url d = u)
         urls rs.
Proof.
  revert w. induction urls as [|u urls IH]; intros w; simpl.
  - exists []. split; [reflexivity | constructor].
  - destruct (make_request_returns u w) as (r & Hr & Hu).
    destruct (make_request u w) as [w1 r1]. simpl in Hr. subst r1.
    destruct (IH w1) as (rs & Hrs & Hall).
    destruct (gather make_request urls w1) as [w2 rs2]. simpl in Hrs.
    subst rs2. exists (r :: rs). split; [reflexivity|]. now constructor.
Qed.

Lemma prepare_all_somes (l : list ResponseData.t) (w : World) :
  prepare_all (map Some l) w = (w, Ok (map prepare_for_database l)).
Proof.
  induction l as [|d l IH]; simpl; [reflexivity|].
  unfold bind. now rewrite IH.
Qed.

Lemma add_check_record_up (doc : Check.t) (w : World) :
  db_up (db w) = true ->
  add_check_record doc w =
  (with_db w (with_checks (db w) (checks (db w) ++ [doc])),
   Ok (Some (List.length (checks (db w))))).
Proof.
  intros Hup. unfold add_check_record, exception_handling, mongo.
  now rewrite Hup.
Qed.

Lemma gather_add_check_record_up (docs : list Check.t) (w : World) :
  db_up (db w) = true ->
  let w' := fst (gather add_check_record docs w) in
  checks (db w') = checks (db w) ++ docs
  /\ db_up (db w') = true
  /\ exists ids, snd (gather add_check_record docs w) = Ok ids.
Proof.
  revert w. induction docs as [|doc docs IH]; intros w Hup; simpl.
  - rewrite app_nil_r. eauto.
  - rewrite (add_check_record_up doc w Hup).
    match goal with |- context [gather add_check_record docs ?x] =>
      destruct (IH x Hup) as (H1 & H2 & ids & H3);
      destruct (gather add_check_record docs x) as [w2 r] end.
    simpl in *. subst r. rewrite H1, <- app_assoc. simpl. eauto.
Qed.

Lemma warn_unwritten_returns (docs : list Check.t) (ids : list (option nat))
  (w : World) :
  snd (warn_unwritten docs ids w) = Ok tt.
Proof.
  revert ids w. induction docs as [|doc docs IH]; intros [|i ids] w; simpl;
    try reflexivity.
  unfold bind. destruct i; simpl; apply IH.
Qed.

Lemma gather_forward_somes (k : Z) (l : list ResponseData.t) (w : World) :
  fst (gather (forward k) (map Some l) w)
  = fst (gather (process_check_result k) l w).
Proof.
  revert w. induction l as [|d l IH]; intros w; simpl; [reflexivity|].
  destruct (process_check_result k d w) as [w1 r]. specialize (IH w1).
  destruct (gather (forward k) (map Some l) w1),
           (gather (process_check_result k) l w1). simpl in *. exact IH.
Qed.

Lemma same_status_trans (a b c : World) :
  same_status a b -> same_status b c -> same_status a c.
Proof.
  unfold same_status. intros (H1 & H2 & H3 & H4 & H5) (G1 & G2 & G3 & G4 & G5).
  repeat split; congruence.
Qed.

Lemma same_checks_trans (a b c : World) :
  same_checks a b -> same_checks b c -> same_checks a c.
Proof.
  unfold same_checks. intros (H1 & H2) (G1 & G2). split; congruence.
Qed.

Lemma same_site_trans (u : string) (a b c : World) :
  same_site u a b -> same_site u b c -> same_site u a c.
Proof.
  unfold same_site. intros (H1 & H2) (G1 & G2). split; congruence.
Qed.

Lemma status_machine_keeps_checks (k : Z) (l : list ResponseData.t) :
  stable same_checks (gather (process_check_result k) l).
Proof.
  apply stable_gather; [now unfold same_checks | apply same_checks_trans|].
  intros d _.
  apply stable_process_check_result with (touched := fun _ => True);
    try (unfold same_checks; intros; simpl; now auto).
  apply same_checks_trans.
Qed.

Lemma status_machine_keeps_other_sites (k : Z) (u : string)
  (l : list ResponseData.t) :
  ~ In u (map ResponseData.url l) ->
  stable (same_site u) (gather (process_check_result k) l).
Proof.
  intros Hu.
  apply stable_gather; [now unfold same_site | apply same_site_trans|].
  intros d Hd.
  apply stable_process_check_result with (touched := fun url => u <> url);
    try (unfold same_site; intros; simpl; now auto).
  - apply same_site_trans.
  - unfold same_site. intros w0 url st f Hne _. simpl. split; [reflexivity|].
    now apply find_one_site_update_other.
  - unfold same_site. intros w0 url st Hne _. simpl. split; [reflexivity|].
    now apply find_one_site_app_other.
  - intros ->. apply Hu. now apply in_map.
Qed.

Lemma probes_keep_status (urls : list string) :
  stable same_status (gather make_request urls).
Proof.
  apply stable_gather; [now unfold same_status | apply same_status_trans|].
  intros u _. apply stable_make_request;
    [apply same_status_trans | now unfold same_status ..].
Qed.

Lemma probes_keep_checks (urls : list string) :
  stable same_checks (gather make_request urls).
Proof.
  apply stable_gather; [now unfold same_checks | apply same_checks_trans|].
  intros u _. apply stable_make_request;
    [apply same_checks_trans | now unfold same_checks ..].
Qed.

(** C8.  In a batch, the results dropped by the probe ([None]) leave no
    check record and no site update, while every other result has its
    check record appended, in order, and is then handed to
    [process_check_result], in order. *)
Theorem dropped_results_are_skipped (k : Z) (urls : list string)
  (w : World) :
  db_up (db w) = true ->
  exists results w2,
    snd (gather make_request urls w) = Ok results
    /\ Forall2 (fun u r => forall d, r = Some d -> ResponseData.url d = u)
         urls results
    /\ same_status w w2
    /\ checks (db w2)
       = checks (db w) ++ map prepare_for_database (somes results)
    /\ fst (run_task k urls w)
       = fst (gather (process_check_result k) (somes results) w2)
    /\ checks (db (fst (run_task k urls w)))
       = checks (db w) ++ map prepare_for_database (somes results)
    /\ forall u, ~ In u (map ResponseData.url (somes results)) ->
         find_one_site u (sites (db (fst (run_task k urls w))))
         = find_one_site u (sites (db w)).
Proof.
  intros Hup.
  destruct (gather_make_request_returns urls w) as (rs & Hrs & Hall).
  assert (S1 := probes_keep_status urls w).
  assert (C1 := probes_keep_checks urls w).
  assert (Hlen := Forall2_length Hall).
  unfold run_task, bind.
  destruct (gather make_request urls w) as [w1 r1]. simpl in Hrs, S1, C1.
  subst r1.
  assert (D := drop_failed_result (List.length rs) urls rs w1
                 (le_n _) ltac:(lia)).
  assert (S2 : same_status w1 (fst (drop_failed (List.length rs) urls rs w1))).
  { apply stable_drop_failed;
      [now unfold same_status | apply same_status_trans
      | now unfold same_status]. }
  assert (C2 : same_checks w1 (fst (drop_failed (List.length rs) urls rs w1))).
  { apply stable_drop_failed;
      [now unfold same_checks | apply same_checks_trans
      | now unfold same_checks]. }
  destruct (drop_failed (List.length rs) urls rs w1) as [w1' r]. simpl in *.
  subst r. rewrite prepare_all_somes.
  set (docs := map prepare_for_database (somes rs)).
  assert (Hup1 : db_up (db w1') = true).
  { destruct S1 as (E1 & _), S2 as (E2 & _). congruence. }
  destruct (gather_add_check_record_up docs w1' Hup1) as (A1 & A2 & ids & A3).
  assert (S3 : same_status w1' (fst (gather add_check_record docs w1'))).
  { apply stable_gather; [now unfold same_status | apply same_status_trans|].
    intros doc _. apply stable_add_check_record;
      [now unfold same_status | apply same_status_trans
      | now unfold same_status ..]. }
  destruct (gather add_check_record docs w1') as [w2a r]. simpl in *.
  subst r.
  assert (W := warn_unwritten_returns docs ids w2a).
  assert (S4 : same_status w2a (fst (warn_unwritten docs ids w2a))).
  { apply stable_warn_unwritten;
      [now unfold same_status | apply same_status_trans
      | now unfold same_status]. }
  assert (C4 : same_checks w2a (fst (warn_unwritten docs ids w2a))).
  { apply stable_warn_unwritten;
      [now unfold same_checks | apply same_checks_trans
      | now unfold same_checks]. }
  destruct (warn_unwritten docs ids w2a) as [w2 r]. simpl in *. subst r.
  assert (Hstatus : same_status w w2).
  { eapply same_status_trans; [exact S1|].
    eapply same_status_trans; [exact S2|].
    eapply same_status_trans; [exact S3 | exact S4]. }
  assert (Hchecks : checks (db w2) = checks (db w) ++ docs).
  { destruct C1 as (_ & E1), C2 as (_ & E2), C4 as (_ & E4). congruence. }
  assert (Hrun :
    fst (let (w', r) := gather (forward k) (map Some (somes rs)) w2 in
         match r with
         | Ok _ => ret tt w'
         | Raise e => (w', Raise e)
         end)
    = fst (gather (process_check_result k) (somes rs) w2)).
  { rewrite <- gather_forward_somes.
    now destruct (gather (forward k) (map Some (somes rs)) w2) as [w' [a|e]]. }
  exists rs, w2. rewrite Hrun.
  repeat split; try assumption; try apply Hstatus.
  - destruct (status_machine_keeps_checks k (somes rs) w2) as (_ & E).
    rewrite E. exact Hchecks.
  - intros u Hu.
    destruct (status_machine_keeps_other_sites k u (somes rs) Hu w2)
      as (_ & E).
    destruct Hstatus as (_ & E' & _). rewrite E. now rewrite E'.
Qed.

(** ** The incident analyzer *)

Lemma sorted_by_timestamp_ordered (l : list Check.t) :
  time_ordered l -> sorted_by_timestamp l = l.
Proof.
  induction l as [|c l IH]; simpl; [reflexivity|].
  intros [Hc Hl]. rewrite (IH Hl). destruct l as [|d l]; [reflexivity|].
  simpl. now replace (Check.timestamp c <=? Check.timestamp d) with true
    by (symmetry; now apply Z.leb_le).
Qed.

Lemma resume_cons (k : Z) (st : Scan) (c : Check.t) (l : list Check.t) :
  resume k st (c :: l) =
  match scan_check k st c with
  | Ok st' => resume k st' l
  | Raise e => Raise e
  end.
Proof. unfold resume. simpl. now destruct (scan_check k st c). Qed.

Lemma last_default_irrelevant {A} (x : A) (l : list A) (d d' : A) :
  last (x :: l) d = last (x :: l) d'.
Proof.
  revert x. induction l as [|y l IH]; intros x; [reflexivity|].
  change (last (y :: l) d = last (y :: l) d'). apply IH.
Qed.

Lemma closing_time_failure (c : Check.t) (l : list Check.t) (d : Check.t) :
  _is_check_successful c = false ->
  closing_time (c :: l) d = closing_time l c.
Proof.
  intros E. unfold closing_time. simpl after_streak. rewrite E.
  destruct (after_streak l); [|reflexivity].
  destruct l as [|x l]; [reflexivity|].
  change (last (c :: x :: l) d) with (last (x :: l) d).
  now rewrite (last_default_irrelevant x l d c).
Qed.

Lemma closing_time_success (c : Check.t) (l : list Check.t) (d : Check.t) :
  _is_check_successful c = true ->
  closing_time (c :: l) d = Check.timestamp c.
Proof. intros E. unfold closing_time. simpl. now rewrite E. Qed.

Lemma incidents_by_streak_success (k : Z) (b : bool) (c : Check.t)
  (l : list Check.t) :
  _is_check_successful c = true ->
  incidents_by_streak k b (c :: l) = incidents_by_streak k false l.
Proof. intros E. simpl. now rewrite E. Qed.

Lemma incidents_by_streak_inside (k : Z) (c : Check.t) (l : list Check.t) :
  _is_check_successful c = false ->
  incidents_by_streak k true (c :: l) = incidents_by_streak k true l.
Proof. intros E. simpl. now rewrite E. Qed.

Lemma incidents_by_streak_first (k : Z) (c : Check.t) (l : list Check.t) :
  _is_check_successful c = false ->
  incidents_by_streak k false (c :: l)
  = (if k <=? 1 + Z.of_nat (List.length (failure_streak l))
     then [streak_incident (Check.timestamp c)
             (_get_failure_reason
                (nth (Z.to_nat (k - 1)) (c :: failure_streak l) c))
             l c]
     else [])
    ++ incidents_by_streak k true l.
Proof.
  intros E. cbn [incidents_by_streak]. rewrite E. cbv zeta.
  cbn [List.length]. now rewrite Nat2Z.inj_succ, <- Z.add_1_l.
Qed.

Lemma failure_streak_failure (c : Check.t) (l : list Check.t) :
  _is_check_successful c = false ->
  failure_streak (c :: l) = c :: failure_streak l.
Proof. intros E. simpl. now rewrite E. Qed.

Lemma failure_streak_success (c : Check.t) (l : list Check.t) :
  _is_check_successful c = true -> failure_streak (c :: l) = [].
Proof. intros E. simpl. now rewrite E. Qed.

Ltac scan_step E :=
  rewrite resume_cons; unfold scan_check;
  cbn [current_incident failures_counter incident_start incidents check];
  rewrite E.

Lemma resume_refines (k : Z) (l : list Check.t) :
  1 <= k ->
  (forall incs start chk,
     resume k (mkScan incs None 0 start chk) l
     = Ok (incs ++ incidents_by_streak k false l))
  /\ (forall incs n t0 chk d0 d1,
        0 < n < k ->
        resume k (mkScan incs None n (Some t0) chk) l
        = Ok (incs
              ++ (if k <=? n + Z.of_nat (List.length (failure_streak l))
                  then [streak_incident t0
                          (_get_failure_reason
                             (nth (Z.to_nat (k - 1 - n)) (failure_streak l) d0))
                          l d1]
                  else [])
              ++ incidents_by_streak k true l))
  /\ (forall incs inc t0 n start c_last,
        Incident.start_time inc = Some t0 ->
        resume k (mkScan incs (Some inc) n start (Some c_last)) l
        = Ok (incs
              ++ [streak_incident t0 (Incident.reason inc) l c_last]
              ++ incidents_by_streak k true l)).
Proof.
  intros Hk. induction l as [|c l (IHidle & IHcount & IHopen)].
  - repeat split.
    + intros. unfold resume. simpl. now rewrite app_nil_r.
    + intros incs n t0 chk d0 d1 Hn. unfold resume. simpl.
      replace (k <=? n + 0) with false by (symmetry; apply Z.leb_gt; lia).
      now rewrite app_nil_r.
    + intros incs inc t0 n start c_last Hs. unfold resume, after_loop. simpl.
      unfold close_incident. rewrite Hs. reflexivity.
  - repeat split.
    + intros incs start chk.
      destruct (_is_check_successful c) eqn:E; scan_step E.
      * replace (k <=? 0) with false by (symmetry; apply Z.leb_gt; lia).
        rewrite IHidle. now rewrite (incidents_by_streak_success k false c l E).
      * rewrite Z.eqb_refl, (incidents_by_streak_first k c l E).
        change (0 + 1) with 1.
        destruct (k <=? 1) eqn:Ek.
        -- apply Z.leb_le in Ek. assert (k = 1) by lia. subst k.
           rewrite (IHopen _ _ (Check.timestamp c)) by reflexivity.
           replace (1 <=? 1 + Z.of_nat (List.length (failure_streak l)))
             with true by (symmetry; apply Z.leb_le; lia).
           reflexivity.
        -- apply Z.leb_gt in Ek.
           rewrite (IHcount _ 1 _ _ c c) by lia.
           replace (Z.to_nat (k - 1)) with (S (Z.to_nat (k - 1 - 1))) by lia.
           reflexivity.
    + intros incs n t0 chk d0 d1 Hn.
      destruct (_is_check_successful c) eqn:E; scan_step E.
      * replace (k <=? 0) with false by (symmetry; apply Z.leb_gt; lia).
        rewrite IHidle, (failure_streak_success c l E),
          (incidents_by_streak_success k true c l E).
        cbn [List.length Z.of_nat].
        replace (k <=? n + 0) with false by (symmetry; apply Z.leb_gt; lia).
        reflexivity.
      * replace (n =? 0) with false by (symmetry; apply Z.eqb_neq; lia).
        rewrite (failure_streak_failure c l E),
          (incidents_by_streak_inside k c l E).
        cbn [List.length]. rewrite Nat2Z.inj_succ, <- Z.add_1_l, Z.add_assoc.
        unfold streak_incident. rewrite (closing_time_failure c l d1 E).
        destruct (k <=? n + 1) eqn:Ek.
        -- apply Z.leb_le in Ek. assert (Hn1 : n + 1 = k) by lia.
           rewrite (IHopen _ _ t0) by reflexivity.
           replace (k <=? n + 1 + Z.of_nat (List.length (failure_streak l)))
             with true by (symmetry; apply Z.leb_le; lia).
           replace (Z.to_nat (k - 1 - n)) with O by lia. reflexivity.
        -- apply Z.leb_gt in Ek.
           rewrite (IHcount _ (n + 1) _ _ d0 c) by lia.
           replace (Z.to_nat (k - 1 - n))
             with (S (Z.to_nat (k - 1 - (n + 1)))) by lia.
           reflexivity.
    + intros incs inc t0 n start c_last Hs. unfold streak_incident.
      destruct (_is_check_successful c) eqn:E; scan_step E.
      * unfold close_incident. rewrite Hs, IHidle.
        rewrite (closing_time_success c l c_last E),
          (incidents_by_streak_success k true c l E).
        now rewrite <- app_assoc.
      * rewrite (IHopen _ _ t0) by exact Hs.
        now rewrite (closing_time_failure c l c_last E),
          (incidents_by_streak_inside k c l E).
Qed.

(** With a positive threshold the analyzer never fails, whatever the order
    of its input. *)
Lemma find_incidents_sorted (k : Z) (checks : list Check.t) :
  1 <= k ->
  _find_incidents k checks
  = Ok (incidents_by_streak k false (sorted_by_timestamp checks)).
Proof.
  intros Hk. destruct (resume_refines k (sorted_by_timestamp checks) Hk)
    as (Hidle & _).
  exact (Hidle [] None None).
Qed.

(** C5.  On a history ordered by timestamp the analyzer returns the
    incidents of the specification: one for every streak of at least
    FAILURE_THRESHOLD consecutive failures, started at the first failure
    of the streak, ended at the next successful check or, when there is
    none, at the last check.  With threshold 3, the checks t0 (OK), t1,
    t2, t3 (failed), t4 (OK) give exactly one incident, from t1 to t4,
    lasting t4 - t1 seconds. *)
Theorem find_incidents_by_streak (k : Z) (checks : list Check.t) :
  1 <= k ->
  time_ordered checks ->
  _find_incidents k checks = Ok (incidents_by_streak k false checks)
  /\ forall c0 c1 c2 c3 c4,
       k = 3 ->
       checks = [c0; c1; c2; c3; c4] ->
       _is_check_successful c0 = true ->
       _is_check_successful c1 = false ->
       _is_check_successful c2 = false ->
       _is_check_successful c3 = false ->
       _is_check_successful c4 = true ->
       _find_incidents k checks
       = Ok [Incident.mk (Some (Check.timestamp c1))
               (Some (Check.timestamp c4))
               (Check.timestamp c4 - Check.timestamp c1)
               (_get_failure_reason c3)].
Proof.
  intros Hk Hord.
  assert (H : _find_incidents k checks
              = Ok (incidents_by_streak k false checks)).
  { rewrite (find_incidents_sorted k checks Hk).
    now rewrite (sorted_by_timestamp_ordered checks Hord). }
  split; [exact H|].
  intros c0 c1 c2 c3 c4 -> -> E0 E1 E2 E3 E4. rewrite H.
  simpl. rewrite E0, E1, E2, E3, E4. simpl.
  rewrite !closing_time_failure, closing_time_success by assumption.
  reflexivity.
Qed.

(** ** The uptime statistics *)

Lemma max_float_spec (x : Q) (l : list Q) :
  In (max_float x l) (x :: l)
  /\ forall q, In q (x :: l) -> (q <= max_float x l)%Q.
Proof.
  revert x. induction l as [|y l IH]; intros x.
  - split; [now left|]. intros q [<-|[]]. apply Qle_refl.
  - change (max_float x (y :: l))
      with (max_float (match Qcompare y x with Gt => y | _ => x end) l).
    destruct (IH (match Qcompare y x with Gt => y | _ => x end))
      as [Hin Hle].
    destruct (Qcompare y x) eqn:E.
    + split; [destruct Hin as [<-|Hin]; simpl; auto|].
      intros q [<-|[<-|Hq]]; [apply Hle; now left | | apply Hle; now right].
      apply Qle_trans with x; [|apply Hle; now left].
      apply Qeq_alt in E. rewrite E. apply Qle_refl.
    + split; [destruct Hin as [<-|Hin]; simpl; auto|].
      intros q [<-|[<-|Hq]]; [apply Hle; now left | | apply Hle; now right].
      apply Qle_trans with x; [|apply Hle; now left].
      apply Qlt_le_weak. now apply Qlt_alt.
    + split; [destruct Hin as [<-|Hin]; simpl; auto|].
      intros q [<-|[<-|Hq]]; [| apply Hle; now left | apply Hle; now right].
      apply Qle_trans with y; [|apply Hle; now left].
      apply Qlt_le_weak. now apply Qgt_alt.
Qed.

Lemma min_float_spec (x : Q) (l : list Q) :
  In (min_float x l) (x :: l)
  /\ forall q, In q (x :: l) -> (min_float x l <= q)%Q.
Proof.
  revert x. induction l as [|y l IH]; intros x.
  - split; [now left|]. intros q [<-|[]]. apply Qle_refl.
  - change (min_float x (y :: l))
      with (min_float (match Qcompare y x with Lt => y | _ => x end) l).
    destruct (IH (match Qcompare y x with Lt => y | _ => x end))
      as [Hin Hle].
    destruct (Qcompare y x) eqn:E.
    + split; [destruct Hin as [<-|Hin]; simpl; auto|].
      intros q [<-|[<-|Hq]]; [apply Hle; now left | | apply Hle; now right].
      apply Qle_trans with x; [apply Hle; now left|].
      apply Qeq_alt in E. rewrite E. apply Qle_refl.
    + split; [destruct Hin as [<-|Hin]; simpl; auto|].
      intros q [<-|[<-|Hq]]; [| apply Hle; now left | apply Hle; now right].
      apply Qle_trans with y; [apply Hle; now left|].
      apply Qlt_le_weak. now apply Qlt_alt.
    + split; [destruct Hin as [<-|Hin]; simpl; auto|].
      intros q [<-|[<-|Hq]]; [apply Hle; now left | | apply Hle; now right].
      apply Qle_trans with x; [apply Hle; now left|].
      apply Qlt_le_weak. now apply Qgt_alt.
Qed.

Lemma response_times_In (checks : list Check.t) (q : Q) :
  In q (response_times checks) <->
  exists c, In c checks /\ _is_check_successful c = true
            /\ Check.response_time c = Some q /\ ~ (q == 0)%Q.
Proof.
  induction checks as [|c l IH]; simpl.
  - split; [tauto | now intros (c & [] & _)].
  - destruct (_is_check_successful c) eqn:E.
    + unfold truthy_float.
      destruct (Check.response_time c) as [r|] eqn:Er.
      * destruct (Qeq_bool r 0) eqn:Ez.
        -- rewrite IH. split.
           ++ intros (c' & Hin & H). exists c'. split; [now right | exact H].
           ++ intros (c' & [<-|Hin] & Hok & Hr & Hz).
              ** exfalso. apply Hz. rewrite Er in Hr. injection Hr as <-.
                 now apply Qeq_bool_iff.
              ** exists c'. auto.
        -- simpl. rewrite IH. split.
           ++ intros [<-|(c' & Hin & H)].
              ** exists c. repeat split; auto.
                 intros Hz. apply Qeq_bool_iff in Hz. congruence.
              ** exists c'. split; [now right | exact H].
           ++ intros (c' & [<-|Hin] & Hok & Hr & Hz).
              ** left. congruence.
              ** right. exists c'. auto.
      * rewrite IH. split.
        -- intros (c' & Hin & H). exists c'. split; [now right | exact H].
        -- intros (c' & [<-|Hin] & Hok & Hr & Hz); [congruence|].
           exists c'. auto.
    + rewrite IH. split.
      * intros (c' & Hin & H). exists c'. split; [now right | exact H].
      * intros (c' & [<-|Hin] & Hok & Hr & Hz); [congruence|].
        exists c'. auto.
Qed.


(** The binary64 statistics of a history that is not empty, field by
    field. *)
Lemma uptime_stats_binary64_nonempty (builtin_sum : list float -> float)
  (k : Z) (c : Check.t) (l : list Check.t) :
  1 <= k ->
  exists downtime,
    _calculate_uptime_stats_binary64 builtin_sum k (c :: l)
    = Ok (UptimeStats.mk
            (Z.of_nat (List.length (c :: l)))
            (Z.of_nat (List.length (filter _is_check_successful (c :: l))))
            (Z.of_nat (List.length (c :: l))
             - Z.of_nat (List.length (filter _is_check_successful (c :: l))))
            (round2
               (float_value
                  (float_mul
                     (float_truediv
                        (float_of_int
                           (Z.of_nat
                              (List.length
                                 (filter _is_check_successful (c :: l)))))
                        (float_of_int (Z.of_nat (List.length (c :: l)))))
                     (float_of_int 100))))
            downtime
            (round2
               (float_value
                  match response_times (c :: l) with
                  | [] => float_of_int 0
                  | x :: r =>
                      float_truediv (builtin_sum (map float_of_Q (x :: r)))
                        (float_of_int (Z.of_nat (List.length (x :: r))))
                  end))
            match response_times (c :: l) with
            | [] => inject_Z 0
            | x :: r => max_float x r
            end
            match response_times (c :: l) with
            | [] => inject_Z 0
            | x :: r => min_float x r
            end).
Proof.
  intros Hk.
  unfold _calculate_uptime_stats_binary64, _calculate_downtime_duration.
  rewrite (find_incidents_sorted k (c :: l) Hk).
  replace (0 <? Z.of_nat (List.length (c :: l))) with true
    by (symmetry; apply Z.ltb_lt; simpl List.length; lia).
  eexists. destruct (response_times (c :: l)); reflexivity.
Qed.

(** C9, as stated, fails: with one successful check out of three the
    reported percentage is 33.33, which is neither 100/3 nor the binary64
    product of 1/3 and 100. *)
Lemma uptime_is_rounded :
  (exists st,
     _calculate_uptime_stats_binary64 sum_sequential 3 one_of_three = Ok st
     /\ UptimeStats.uptime_percentage st = (3333 # 100)%Q)
  /\ ~ exact_uptime sum_sequential 3 one_of_three
  /\ ~ unrounded_uptime sum_sequential 3 one_of_three.
Proof.
  split; [|split].
  - eexists. split; vm_compute; reflexivity.
  - intros H. specialize (H _ eq_refl). vm_compute in H. discriminate.
  - intros H. specialize (H _ eq_refl). vm_compute in H. discriminate.
Qed.

(** C9, amended.  For every history, and whichever summation the builtin
    [sum] performs: total is the number of checks, successful the number
    of checks with outcome OK, failed their difference; the uptime
    percentage is [round(successful / total * 100, 2)] with the quotient
    and the product computed in binary64 (0 for the empty history); the
    latencies aggregated are exactly those of the successful checks with
    a recorded, non-zero latency: the average is
    [round(sum(latencies) / count, 2)] in binary64, the maximum and the
    minimum are their largest and smallest element, and all three are 0
    when there is none.  Ten checks of which seven are OK give 70; 160
    checks of which 23 are OK give 14.37, the binary64 product lying just
    below 14.375. *)
Theorem uptime_stats_rounded (builtin_sum : list float -> float) (k : Z)
  (checks : list Check.t) :
  1 <= k ->
  exists st,
    _calculate_uptime_stats_binary64 builtin_sum k checks = Ok st
    /\ UptimeStats.total_checks st = Z.of_nat (List.length checks)
    /\ UptimeStats.successful_checks st
       = Z.of_nat (List.length (filter _is_check_successful checks))
    /\ UptimeStats.failed_checks st
       = UptimeStats.total_checks st - UptimeStats.successful_checks st
    /\ (checks = [] -> (UptimeStats.uptime_percentage st == 0)%Q)
    /\ (checks <> [] ->
        UptimeStats.uptime_percentage st
        = round2
            (float_value
               (float_mul
                  (float_truediv
                     (float_of_int (UptimeStats.successful_checks st))
                     (float_of_int (UptimeStats.total_checks st)))
                  (float_of_int 100))))
    /\ (forall q, In q (response_times checks) <->
          exists c, In c checks /\ _is_check_successful c = true
                    /\ Check.response_time c = Some q /\ ~ (q == 0)%Q)
    /\ (response_times checks = [] ->
        (UptimeStats.average_response_time st == 0)%Q
        /\ (UptimeStats.max_response_time st == 0)%Q
        /\ (UptimeStats.min_response_time st == 0)%Q)
    /\ (response_times checks <> [] ->
        UptimeStats.average_response_time st
        = round2
            (float_value
               (float_truediv
                  (builtin_sum (map float_of_Q (response_times checks)))
                  (float_of_int
                     (Z.of_nat (List.length (response_times checks))))))
        /\ In (UptimeStats.max_response_time st) (response_times checks)
        /\ In (UptimeStats.min_response_time st) (response_times checks)
        /\ forall q, In q (response_times checks) ->
             (UptimeStats.min_response_time st <= q)%Q
             /\ (q <= UptimeStats.max_response_time st)%Q)
    /\ (List.length checks = 10%nat ->
        List.length (filter _is_check_successful checks) = 7%nat ->
        UptimeStats.uptime_percentage st = (7000 # 100)%Q)
    /\ (List.length checks = 160%nat ->
        List.length (filter _is_check_successful checks) = 23%nat ->
        UptimeStats.uptime_percentage st = (1437 # 100)%Q).
Proof.
  intros Hk. destruct checks as [|c l].
  - eexists. split; [reflexivity|]. simpl.
    repeat split; try reflexivity; try discriminate; try tauto;
      try (now intros (c & [] & _)).
  - destruct (uptime_stats_binary64_nonempty builtin_sum k c l Hk)
      as (downtime & Hst).
    eexists. split; [exact Hst|].
    cbn [UptimeStats.total_checks UptimeStats.successful_checks
         UptimeStats.failed_checks UptimeStats.uptime_percentage
         UptimeStats.average_response_time UptimeStats.max_response_time
         UptimeStats.min_response_time].
    split; [reflexivity|]. split; [reflexivity|]. split; [reflexivity|].
    split; [discriminate|]. split; [reflexivity|].
    split; [apply response_times_In|].
    split; [|split; [|split]].
    + intros ->. repeat split; reflexivity.
    + destruct (response_times (c :: l)) as [|x r]; [intros H; now elim H|].
      intros _. destruct (max_float_spec x r) as [Hmax Hmaxle].
      destruct (min_float_spec x r) as [Hmin Hminle].
      repeat split; auto.
    + intros Hlen Hok. rewrite Hlen, Hok. vm_compute. reflexivity.
    + intros Hlen Hok. rewrite Hlen, Hok. vm_compute. reflexivity.
Qed.



(** ** The theorems at concrete inputs *)

Lemma failed_check_transition_witness :
  let w := world_of [Site.mk example_url AVAILABLE 2] [] in
  let w' := fst (process_check_result 3 (failed_at 5) w) in
  db_up (db w) = true
  /\ find_one_site example_url (sites (db w))
     = Some (Site.mk example_url AVAILABLE 2)
  /\ ResponseData.status (failed_at 5) <> OK
  /\ find_one_site example_url (sites (db w'))
     = Some (Site.mk example_url UNAVAILABLE 3).
Proof.
  intros w w'.
  split; [reflexivity|]. split; [reflexivity|]. split; [discriminate|].
  destruct (failed_check_transition 3 w (failed_at 5)
              (Site.mk example_url AVAILABLE 2)) as [H _];
    [reflexivity | reflexivity | discriminate |].
  apply H. simpl. lia.
Defined.

Lemma ok_check_transition_witness :
  let w := world_of [Site.mk example_url UNAVAILABLE 7] [] in
  let w' := fst (process_check_result 3 (ok_at 9) w) in
  db_up (db w) = true
  /\ find_one_site example_url (sites (db w))
     = Some (Site.mk example_url UNAVAILABLE 7)
  /\ ResponseData.status (ok_at 9) = OK
  /\ find_one_site example_url (sites (db w'))
     = Some (Site.mk example_url AVAILABLE 0)
  /\ published w' = published w ++ [Notification.mk example_url AVAILABLE].
Proof.
  intros w w'.
  split; [reflexivity|]. split; [reflexivity|]. split; [reflexivity|].
  destruct (ok_check_transition 3 w (ok_at 9)
              (Site.mk example_url UNAVAILABLE 7)) as [H _];
    [reflexivity | reflexivity | reflexivity |].
  apply H. left. simpl. lia.
Defined.

Lemma delivery_stops_at_first_failure_witness :
  let n := Notification.mk example_url UNAVAILABLE in
  let w := world_of [] [working_observer; broken_observer; working_observer] in
  observers w = [working_observer] ++ broken_observer :: [working_observer]
  /\ (forall o, In o [working_observer] -> notify o n = Ok tt)
  /\ notify broken_observer n = Raise (OtherError "TelegramError")
  /\ snd (_notify_observers n w) = Raise (OtherError "TelegramError")
  /\ inbox (fst (_notify_observers n w)) = [("working", n)].
Proof.
  intros n w.
  assert (H1 : observers w
               = [working_observer] ++ broken_observer :: [working_observer])
    by reflexivity.
  assert (H2 : forall o, In o [working_observer] -> notify o n = Ok tt).
  { intros o [<-|[]]. reflexivity. }
  assert (H3 : notify broken_observer n = Raise (OtherError "TelegramError"))
    by reflexivity.
  split; [exact H1|]. split; [exact H2|]. split; [exact H3|].
  destruct (delivery_stops_at_first_failure n w [working_observer]
              broken_observer [working_observer]
              (OtherError "TelegramError") H1 H2 H3) as (R1 & R2 & _).
  split; [exact R1 | exact R2].
Defined.

Lemma find_incidents_by_streak_witness :
  1 <= 3
  /\ time_ordered failure_run
  /\ _find_incidents 3 failure_run
     = Ok [Incident.mk (Some 110) (Some 140) 30 "Timeout"].
Proof.
  assert (H1 : 1 <= 3) by lia.
  assert (H2 : time_ordered failure_run) by (simpl; repeat split; lia).
  split; [exact H1|]. split; [exact H2|].
  destruct (find_incidents_by_streak 3 failure_run H1 H2) as [_ H].
  exact (H _ _ _ _ _ eq_refl eq_refl eq_refl eq_refl eq_refl eq_refl
           eq_refl).
Defined.

Lemma tick_due_set_witness :
  let w := world_monitoring [Monitor.mk 1 example_url 30] in
  0 < 10
  /\ db_up (db w) = true
  /\ ticks (fire 3 10 2 w) = 2
  /\ ticks (fire 3 10 3 w) = 3.
Proof.
  intros w.
  assert (H1 : 0 < 10) by lia.
  split; [exact H1|]. split; [reflexivity|].
  destruct (tick_due_set 3 10 w 2 H1 eq_refl) as (T1 & _ & T3 & _).
  split; [exact T1 | exact T3].
Defined.

Lemma make_request_classifies_witness :
  let w := world_answering (mkExchange 1700000000 (Response 200 (1 # 4))) in
  outcome (net w (requests w) example_url) = Response 200 (1 # 4)
  /\ 200 <= 200 <= 299
  /\ snd (make_request example_url w)
     = Ok (Some (ResponseData.mk example_url OK 1700000000 (Some 200)
                   (Some (1 # 4)))).
Proof.
  intros w.
  assert (H1 : outcome (net w (requests w) example_url)
               = Response 200 (1 # 4)) by reflexivity.
  assert (H2 : 200 <= 200 <= 299) by lia.
  split; [exact H1|]. split; [exact H2|].
  destruct (make_request_classifies example_url w) as (H & _).
  exact (H 200 (1 # 4) H1 H2).
Defined.

Lemma dropped_results_are_skipped_witness :
  db_up (db flaky_world) = true
  /\ exists results w2,
       snd (gather make_request [example_url; "https://example.net"]
              flaky_world) = Ok results
       /\ checks (db (fst (run_task 3 [example_url; "https://example.net"]
                             flaky_world)))
          = checks (db flaky_world)
            ++ map prepare_for_database (somes results)
       /\ same_status flaky_world w2.
Proof.
  split; [reflexivity|].
  destruct (dropped_results_are_skipped 3
              [example_url; "https://example.net"] flaky_world eq_refl)
    as (results & w2 & H1 & _ & H3 & _ & _ & H6 & _).
  exists results, w2. split; [exact H1|]. split; [exact H6 | exact H3].
Defined.

Lemma uptime_stats_rounded_witness :
  1 <= 3
  /\ exists st,
       _calculate_uptime_stats_binary64 sum_sequential 3 two_quick = Ok st
       /\ UptimeStats.total_checks st = 2
       /\ UptimeStats.successful_checks st = 2
       /\ UptimeStats.uptime_percentage st = (10000 # 100)%Q
       /\ UptimeStats.average_response_time st = (1 # 100)%Q.
Proof.
  assert (H1 : 1 <= 3) by lia.
  split; [exact H1|].
  destruct (uptime_stats_rounded sum_sequential 3 two_quick H1)
    as (st & H & Ht & Hs & _ & _ & Hu & _ & _ & Ha & _).
  exists st. split; [exact H|]. split; [exact Ht|]. split; [exact Hs|].
  split.
  - rewrite (Hu ltac:(discriminate)), Ht, Hs. vm_compute. reflexivity.
  - destruct Ha as [Ha _]; [discriminate|]. rewrite Ha. vm_compute.
    reflexivity.
Defined.


(** * Further properties *)

(** ** The status machine over a stream of checks *)

Lemma find_one_site_app_new (u : string) (l : list Site.t) (s : Site.t) :
  find_one_site u l = None -> Site.url s = u ->
  find_one_site u (l ++ [s]) = Some s.
Proof.
  intros Hnone Hu. unfold find_one_site in *.
  induction l as [|x l IH]; simpl in *.
  - now rewrite Hu, String.eqb_refl.
  - destruct (String.eqb (Site.url x) u); [discriminate | auto].
Qed.

Lemma update_one_site_app_new (u : string) (st : SiteStatus) (f : Z)
  (l : list Site.t) (s : Site.t) :
  find_one_site u l = None -> Site.url s = u ->
  update_one_site u st f (l ++ [s]) = l ++ [Site.mk u st f].
Proof.
  intros Hnone Hu. unfold find_one_site in *.
  induction l as [|x l IH]; simpl in *.
  - now rewrite Hu, String.eqb_refl.
  - destruct (String.eqb (Site.url x) u); [discriminate|].
    now rewrite IH.
Qed.

Lemma decide_status_keeps_up (k : Z) (d : ResponseData.t) (s : Site.t)
  (w : World) :
  db_up (db (fst (decide_status k d s w))) = db_up (db w).
Proof.
  apply (stable_decide_status (fun a b => db_up (db b) = db_up (db a))
           ltac:(reflexivity) ltac:(intros; congruence)
           ltac:(reflexivity) (fun _ => True));
    auto; intros; reflexivity.
Qed.

(** One failed check on a recorded site, in one equation per field. *)
Lemma failed_step (k : Z) (d : ResponseData.t) (s : Site.t) (w : World) :
  db_up (db w) = true ->
  find_one_site (ResponseData.url d) (sites (db w)) = Some s ->
  ResponseData.status d <> OK ->
  let u := ResponseData.url d in
  let f := Site.consecutive_failures s + 1 in
  let st := if k <=? f then UNAVAILABLE else Site.status s in
  let w' := fst (process_check_result k d w) in
  db_up (db w') = true
  /\ find_one_site u (sites (db w')) = Some (Site.mk u st f)
  /\ published w' =
     published w ++
       (if SiteStatus_eqb (Site.status s) AVAILABLE
           && SiteStatus_eqb st UNAVAILABLE
        then [Notification.mk u UNAVAILABLE] else []).
Proof.
  intros Hup Hs Hst. cbv zeta.
  rewrite (process_existing_site k d s w Hup Hs).
  destruct (decide_status_failed k d s w Hup Hst) as [Hdb Hpub].
  cbv zeta in Hdb, Hpub. split; [|split].
  - now rewrite decide_status_keeps_up.
  - rewrite Hdb. simpl sites. now apply find_one_site_update with (s := s).
  - exact Hpub.
Qed.

Lemma failures_while_down (k : Z) (u : string) (ds : list ResponseData.t) :
  Forall (fun d => ResponseData.url d = u /\ ResponseData.status d <> OK) ds ->
  forall (w : World) (f : Z),
    db_up (db w) = true ->
    find_one_site u (sites (db w)) = Some (Site.mk u UNAVAILABLE f) ->
    let w' := fst (gather (process_check_result k) ds w) in
    db_up (db w') = true
    /\ find_one_site u (sites (db w'))
       = Some (Site.mk u UNAVAILABLE (f + Z.of_nat (List.length ds)))
    /\ published w' = published w.
Proof.
  induction 1 as [|d ds [Hu Hst] _ IH]; intros w f Hup Hs; cbv zeta.
  - simpl. now rewrite Z.add_0_r.
  - subst u. destruct (failed_step k d _ w Hup Hs Hst) as (H1 & H2 & H3).
    cbv zeta in H1, H2, H3. simpl Site.consecutive_failures in *.
    simpl Site.status in *.
    replace (if k <=? f + 1 then UNAVAILABLE else UNAVAILABLE)
      with UNAVAILABLE in * by (now destruct (k <=? f + 1)).
    simpl in H3. rewrite app_nil_r in H3.
    cbn [gather]. destruct (process_check_result k d w) as [w1 r].
    simpl in H1, H2, H3.
    destruct (IH w1 (f + 1) H1 H2) as (G1 & G2 & G3). cbv zeta in G1, G2, G3.
    destruct (gather (process_check_result k) ds w1) as [w2 rs].
    simpl in *. rewrite G2, G3, H3. repeat split; auto.
    do 2 f_equal. lia.
Qed.

Lemma failures_while_up (k : Z) (u : string) (ds : list ResponseData.t) :
  Forall (fun d => ResponseData.url d = u /\ ResponseData.status d <> OK) ds ->
  forall (w : World) (f : Z),
    db_up (db w) = true ->
    f < k ->
    find_one_site u (sites (db w)) = Some (Site.mk u AVAILABLE f) ->
    let n := f + Z.of_nat (List.length ds) in
    let w' := fst (gather (process_check_result k) ds w) in
    find_one_site u (sites (db w'))
    = Some (Site.mk u (if k <=? n then UNAVAILABLE else AVAILABLE) n)
    /\ published w' =
       published w
       ++ (if k <=? n then [Notification.mk u UNAVAILABLE] else []).
Proof.
  induction 1 as [|d ds [Hu Hst] Hds IH]; intros w f Hup Hf Hs; cbv zeta.
  - simpl. rewrite Z.add_0_r.
    replace (k <=? f) with false by (symmetry; apply Z.leb_gt; lia).
    now rewrite app_nil_r.
  - subst u. destruct (failed_step k d _ w Hup Hs Hst) as (H1 & H2 & H3).
    cbv zeta in H1, H2, H3. simpl Site.consecutive_failures in *.
    simpl Site.status in *.
    cbn [gather List.length]. rewrite Nat2Z.inj_succ.
    replace (f + Z.succ (Z.of_nat (List.length ds)))
      with (f + 1 + Z.of_nat (List.length ds)) by lia.
    destruct (k <=? f + 1) eqn:Ek.
    + apply Z.leb_le in Ek.
      assert (G := failures_while_down k (ResponseData.url d) ds Hds
                     (fst (process_check_result k d w)) (f + 1) H1 H2).
      cbv zeta in G. destruct G as (_ & G2 & G3).
      destruct (process_check_result k d w) as [w1 r]. simpl in *.
      destruct (gather (process_check_result k) ds w1) as [w2 rs].
      simpl in *.
      replace (k <=? f + 1 + Z.of_nat (List.length ds)) with true
        by (symmetry; apply Z.leb_le; lia).
      rewrite G2, G3, H3. auto.
    + apply Z.leb_gt in Ek.
      assert (G := IH (fst (process_check_result k d w)) (f + 1) H1 Ek H2).
      cbv zeta in G. destruct G as (G2 & G3).
      destruct (process_check_result k d w) as [w1 r]. simpl in *.
      destruct (gather (process_check_result k) ds w1) as [w2 rs].
      simpl in *. rewrite G2, G3, H3, app_nil_r. auto.
Qed.

(** X1.  From (AVAILABLE, 0) and with a threshold of at least 1, a run of
    [n] failed checks of one URL leaves the counter at [n]; the site is
    UNAVAILABLE exactly when [n] reaches the threshold, and in that case
    exactly one notification (url, UNAVAILABLE) was published, however
    long the run. *)
Theorem failure_run_notifies_once (k : Z) (u : string)
  (ds : list ResponseData.t) (w : World) :
  1 <= k ->
  db_up (db w) = true ->
  find_one_site u (sites (db w)) = Some (Site.mk u AVAILABLE 0) ->
  Forall (fun d => ResponseData.url d = u /\ ResponseData.status d <> OK) ds ->
  let n := Z.of_nat (List.length ds) in
  let w' := fst (gather (process_check_result k) ds w) in
  find_one_site u (sites (db w'))
  = Some (Site.mk u (if k <=? n then UNAVAILABLE else AVAILABLE) n)
  /\ published w' =
     published w ++ (if k <=? n then [Notification.mk u UNAVAILABLE] else []).
Proof.
  intros Hk Hup Hs Hds.
  exact (failures_while_up k u ds Hds w 0 Hup ltac:(lia) Hs).
Qed.

(** One check on a recorded site: what is published and how the status
    moves. *)
Lemma status_step (k : Z) (d : ResponseData.t) (s : Site.t) (w : World) :
  db_up (db w) = true ->
  find_one_site (ResponseData.url d) (sites (db w)) = Some s ->
  let u := ResponseData.url d in
  let w' := fst (process_check_result k d w) in
  exists s' e,
    db_up (db w') = true
    /\ find_one_site u (sites (db w')) = Some s'
    /\ published w' = published w ++ e
    /\ ((e = [] /\ Site.status s' = Site.status s)
        \/ (e = [Notification.mk u UNAVAILABLE]
            /\ Site.status s = AVAILABLE /\ Site.status s' = UNAVAILABLE)
        \/ (e = [Notification.mk u AVAILABLE]
            /\ Site.status s' = AVAILABLE)).
Proof.
  intros Hup Hs. cbv zeta.
  destruct (ResponseStatus_eqb (ResponseData.status d) OK) eqn:Eok.
  - assert (Hst : ResponseData.status d = OK)
      by (destruct (ResponseData.status d); simpl in Eok; congruence).
    rewrite (process_existing_site k d s w Hup Hs).
    destruct (decide_status_ok k d s w Hup Hst) as [Hyes Hno].
    destruct (Site.status s) eqn:Est.
    + destruct Hyes as [Hdb Hpub]; [now left|].
      do 2 eexists. split; [now rewrite decide_status_keeps_up|].
      rewrite Hdb, Hpub. simpl sites.
      split; [now apply find_one_site_update with (s := s)|].
      split; [reflexivity|]. right. right. auto.
    + destruct (Z_lt_le_dec 0 (Site.consecutive_failures s)) as [Hf|Hf].
      * destruct Hyes as [Hdb Hpub]; [now right|].
        do 2 eexists. split; [now rewrite decide_status_keeps_up|].
        rewrite Hdb, Hpub. simpl sites.
        split; [now apply find_one_site_update with (s := s)|].
        split; [reflexivity|]. right. right. auto.
      * rewrite (Hno (conj eq_refl Hf)). simpl.
        exists s, []. rewrite app_nil_r. repeat split; auto.
  - assert (Hst : ResponseData.status d <> OK)
      by (intros E; rewrite E in Eok; discriminate).
    destruct (failed_step k d s w Hup Hs Hst) as (H1 & H2 & H3).
    cbv zeta in H1, H2, H3.
    do 2 eexists. split; [exact H1|]. split; [exact H2|].
    split; [exact H3|]. simpl Site.status.
    destruct (Site.status s);
      destruct (k <=? Site.consecutive_failures s + 1); simpl; auto.
Qed.

(** X2.  Whatever checks of one URL are processed, in whatever state the
    site record is: between two published (url, UNAVAILABLE) there is
    always a published (url, AVAILABLE), and none is published first
    while the site is already UNAVAILABLE. *)
Theorem no_two_down_alerts_in_a_row (k : Z) (u : string)
  (ds : list ResponseData.t) (w : World) (s : Site.t) :
  db_up (db w) = true ->
  find_one_site u (sites (db w)) = Some s ->
  Forall (fun d => ResponseData.url d = u) ds ->
  let w' := fst (gather (process_check_result k) ds w) in
  exists alerts,
    published w' = published w ++ alerts
    /\ well_alerted (is_down (Site.status s)) alerts
    /\ Forall (fun n => Notification.url n = u) alerts.
Proof.
  intros Hup Hs Hds. revert w s Hup Hs.
  induction Hds as [|d ds Hu _ IH]; intros w s Hup Hs; cbv zeta.
  - exists []. simpl. now rewrite app_nil_r.
  - subst u. destruct (status_step k d s w Hup Hs) as (s' & e & H1 & H2 & H3 & H4).
    cbv zeta in H1, H2, H3.
    cbn [gather]. destruct (process_check_result k d w) as [w1 r].
    simpl in H1, H2, H3.
    destruct (IH w1 s' H1 H2) as (alerts & G1 & G2 & G3). cbv zeta in G1.
    destruct (gather (process_check_result k) ds w1) as [w2 rs].
    simpl in *. exists (e ++ alerts).
    rewrite G1, H3, <- app_assoc. split; [reflexivity|].
    destruct H4 as [[-> E]|[[-> [E1 E2]]|[-> E]]]; simpl.
    + rewrite <- E. auto.
    + rewrite E1, E2 in *. simpl. repeat split; auto.
    + rewrite E in G2. simpl in G2. split; auto.
Qed.

(** X3.  The first check of a URL without a site record creates the
    record and is then applied to (AVAILABLE, 0): a successful check
    leaves (AVAILABLE, 0) and publishes nothing; a failed check leaves the
    counter at 1, and the site is UNAVAILABLE, with its notification,
    only if the threshold is at most 1. *)
Theorem first_check_creates_site (k : Z) (d : ResponseData.t) (w : World) :
  db_up (db w) = true ->
  find_one_site (ResponseData.url d) (sites (db w)) = None ->
  let u := ResponseData.url d in
  let w' := fst (process_check_result k d w) in
  (ResponseData.status d = OK ->
   sites (db w') = sites (db w) ++ [Site.mk u AVAILABLE 0]
   /\ published w' = published w
   /\ snd (process_check_result k d w) = Ok tt)
  /\ (ResponseData.status d <> OK ->
      sites (db w')
      = sites (db w)
        ++ [Site.mk u (if k <=? 1 then UNAVAILABLE else AVAILABLE) 1]
      /\ published w' =
         published w
         ++ (if k <=? 1 then [Notification.mk u UNAVAILABLE] else [])).
Proof.
  intros Hup Hnone. cbv zeta.
  set (s0 := Site.mk (ResponseData.url d) AVAILABLE 0).
  set (w1 := with_db w (with_sites (db w) (sites (db w) ++ [s0]))).
  assert (Hup1 : db_up (db w1) = true) by exact Hup.
  assert (Hs1 : find_one_site (ResponseData.url d) (sites (db w1)) = Some s0)
    by (now apply find_one_site_app_new).
  assert (Hrun : process_check_result k d w = decide_status k d s0 w1).
  { unfold process_check_result, bind.
    rewrite (get_site_up _ _ Hup), Hnone.
    unfold add_site, exception_handling, mongo. rewrite Hup.
    fold s0. fold w1. now rewrite (get_site_up _ _ Hup1), Hs1. }
  rewrite Hrun. split.
  - intros Hst. destruct (decide_status_ok k d s0 w1 Hup1 Hst) as [_ Hno].
    rewrite Hno by (simpl; split; [reflexivity | lia]). simpl. auto.
  - intros Hst.
    destruct (decide_status_failed k d s0 w1 Hup1 Hst) as [Hdb Hpub].
    cbv zeta in Hdb, Hpub. rewrite Hdb, Hpub. simpl.
    rewrite (update_one_site_app_new _ _ _ _ s0 Hnone eq_refl).
    now destruct (k <=? 1).
Qed.

(** X4.  While the database is unreachable a check changes nothing in
    the store, publishes nothing and does not raise; the three failures
    are logged. *)
Theorem check_while_database_down (k : Z) (d : ResponseData.t) (w : World) :
  db_up (db w) = false ->
  let w' := fst (process_check_result k d w) in
  snd (process_check_result k d w) = Ok tt
  /\ db w' = db w
  /\ published w' = published w
  /\ inbox w' = inbox w
  /\ log w' =
     log w ++ [MethodError "DBHandler" "get_site";
               MethodError "DBHandler" "add_site";
               SiteWriteError (ResponseData.url d)].
Proof.
  intros Hdown. cbv zeta.
  unfold process_check_result, bind, get_site, add_site, exception_handling,
    mongo, bind, ret, logger.
  rewrite Hdown. simpl. rewrite Hdown. simpl.
  repeat split. now rewrite <- !app_assoc.
Qed.

(** X5.  After any check on a recorded site, with a threshold of at least
    1: an AVAILABLE site has fewer failures than the threshold; a
    successful check leaves the site AVAILABLE with no positive counter;
    a failed check adds exactly one to the counter. *)
Theorem available_below_threshold (k : Z) (d : ResponseData.t) (s : Site.t)
  (w : World) :
  1 <= k ->
  db_up (db w) = true ->
  find_one_site (ResponseData.url d) (sites (db w)) = Some s ->
  let w' := fst (process_check_result k d w) in
  exists s',
    find_one_site (ResponseData.url d) (sites (db w')) = Some s'
    /\ (Site.status s' = AVAILABLE -> Site.consecutive_failures s' < k)
    /\ (ResponseData.status d = OK ->
        Site.status s' = AVAILABLE /\ Site.consecutive_failures s' <= 0)
    /\ (ResponseData.status d <> OK ->
        Site.consecutive_failures s' = Site.consecutive_failures s + 1).
Proof.
  intros Hk Hup Hs. cbv zeta.
  destruct (ResponseStatus_eqb (ResponseData.status d) OK) eqn:Eok.
  - assert (Hst : ResponseData.status d = OK)
      by (destruct (ResponseData.status d); simpl in Eok; congruence).
    rewrite (process_existing_site k d s w Hup Hs).
    destruct (decide_status_ok k d s w Hup Hst) as [Hyes Hno].
    destruct (Site.status s) eqn:Est;
      [|destruct (Z_lt_le_dec 0 (Site.consecutive_failures s)) as [Hf|Hf]].
    + destruct Hyes as [Hdb _]; [now left|]. rewrite Hdb. simpl sites.
      eexists. split; [now apply find_one_site_update with (s := s)|].
      simpl. repeat split; try lia. congruence.
    + destruct Hyes as [Hdb _]; [now right|]. rewrite Hdb. simpl sites.
      eexists. split; [now apply find_one_site_update with (s := s)|].
      simpl. repeat split; try lia. congruence.
    + rewrite (Hno (conj eq_refl Hf)). simpl. exists s.
      repeat split; auto; try lia. congruence.
  - assert (Hst : ResponseData.status d <> OK)
      by (intros E; rewrite E in Eok; discriminate).
    destruct (failed_step k d s w Hup Hs Hst) as (_ & H2 & _).
    cbv zeta in H2. eexists. split; [exact H2|]. simpl.
    repeat split; try tauto.
    destruct (k <=? Site.consecutive_failures s + 1) eqn:Ek;
      [discriminate|]. intros _. now apply Z.leb_gt.
Qed.

(** X6.  [subscribe] appends without looking for a duplicate: after it,
    a notification reaches every earlier subscriber, in order, and then
    the new one, also when the new one was subscribed before. *)
Theorem subscribe_then_publish (o : Observer) (n : Notification.t)
  (w : World) :
  (forall o', In o' (observers w) -> notify o' n = Ok tt) ->
  notify o n = Ok tt ->
  let w1 := fst (subscribe o w) in
  snd (_notify_observers n w1) = Ok tt
  /\ inbox (fst (_notify_observers n w1))
     = inbox w ++ map (fun o' => (name o', n)) (observers w) ++ [(name o, n)].
Proof.
  intros Hall Ho. cbv zeta. unfold _notify_observers, subscribe. simpl.
  rewrite for_observers_all_served.
  - simpl. split; [reflexivity|]. now rewrite map_app.
  - intros o' Hin. simpl in Hin. apply in_app_or in Hin.
    destruct Hin as [Hin|[<-|[]]]; auto.
Qed.

(** ** The check executor, further *)

Lemma gather_returns {A B} (P : World -> Prop) (f : A -> M B)
  (xs : list A) :
  (forall x w, In x xs -> P w ->
     P (fst (f x w)) /\ exists b, snd (f x w) = Ok b) ->
  forall w, P w ->
    P (fst (gather f xs w)) /\ exists bs, snd (gather f xs w) = Ok bs.
Proof.
  induction xs as [|x xs IH]; intros Hf w Hw; simpl.
  - eauto.
  - destruct (Hf x w (or_introl eq_refl) Hw) as (H1 & b & H2).
    destruct (f x w) as [w1 r]. simpl in H1, H2. subst r.
    destruct (IH (fun y w' Hy => Hf y w' (or_intror Hy)) w1 H1)
      as (G1 & bs & G2).
    destruct (gather f xs w1) as [w2 rs]. simpl in *. subst rs. eauto.
Qed.

Lemma process_new_site (k : Z) (d : ResponseData.t) (w : World) :
  db_up (db w) = true ->
  find_one_site (ResponseData.url d) (sites (db w)) = None ->
  process_check_result k d w
  = decide_status k d (Site.mk (ResponseData.url d) AVAILABLE 0)
      (with_db w
         (with_sites (db w)
            (sites (db w) ++ [Site.mk (ResponseData.url d) AVAILABLE 0]))).
Proof.
  intros Hup Hnone.
  set (s0 := Site.mk (ResponseData.url d) AVAILABLE 0).
  set (w1 := with_db w (with_sites (db w) (sites (db w) ++ [s0]))).
  assert (Hup1 : db_up (db w1) = true) by exact Hup.
  assert (Hs1 : find_one_site (ResponseData.url d) (sites (db w1)) = Some s0)
    by (now apply find_one_site_app_new).
  unfold process_check_result, bind.
  rewrite (get_site_up _ _ Hup), Hnone.
  unfold add_site, exception_handling, mongo. rewrite Hup.
  fold s0. fold w1. now rewrite (get_site_up _ _ Hup1), Hs1.
Qed.

Lemma process_down (k : Z) (d : ResponseData.t) (w : World) :
  db_up (db w) = false ->
  process_check_result k d w
  = (with_log w
       (log w ++ [MethodError "DBHandler" "get_site";
                  MethodError "DBHandler" "add_site";
                  SiteWriteError (ResponseData.url d)]), Ok tt).
Proof.
  intros Hdown.
  unfold process_check_result, bind, get_site, add_site, exception_handling,
    mongo, bind, ret, logger.
  rewrite Hdown. simpl. rewrite Hdown. simpl.
  unfold with_log. simpl. now rewrite <- !app_assoc.
Qed.

Lemma update_site_returns (url : string) (st : SiteStatus) (f : Z)
  (w : World) :
  snd (update_site url st f w) = Ok tt
  /\ observers (fst (update_site url st f w)) = observers w.
Proof.
  unfold update_site, bind, exception_handling, mongo, ret.
  destruct (db_up (db w)); simpl; auto.
Qed.

Lemma notify_observers_returns (n : Notification.t) (w : World) :
  observers_deliver w -> snd (_notify_observers n w) = Ok tt.
Proof.
  intros Hw. unfold _notify_observers.
  rewrite for_observers_all_served; [reflexivity|].
  intros o Ho. now apply Hw.
Qed.

Lemma decide_status_returns (k : Z) (d : ResponseData.t) (s : Site.t)
  (w : World) :
  observers_deliver w -> snd (decide_status k d s w) = Ok tt.
Proof.
  intros Hw. unfold decide_status.
  assert (Hnext : forall st f n,
    snd ((update_site (ResponseData.url d) st f ;;; _notify_observers n) w)
    = Ok tt).
  { intros st f n. unfold bind.
    destruct (update_site_returns (ResponseData.url d) st f w) as [H1 H2].
    destruct (update_site (ResponseData.url d) st f w) as [w1 r].
    simpl in H1, H2. subst r. apply notify_observers_returns.
    unfold observers_deliver. now rewrite H2. }
  destruct (ResponseStatus_eqb (ResponseData.status d) OK).
  - destruct (SiteStatus_eqb (Site.status s) UNAVAILABLE
              || (0 <? Site.consecutive_failures s)); [apply Hnext|].
    reflexivity.
  - destruct (SiteStatus_eqb (Site.status s) AVAILABLE && _);
      [apply Hnext|].
    unfold bind.
    destruct (update_site_returns (ResponseData.url d)
                (if k <=? Site.consecutive_failures s + 1
                 then UNAVAILABLE else Site.status s)
                (Site.consecutive_failures s + 1) w) as [H1 _].
    destruct (update_site _ _ _ w) as [w1 r]. simpl in H1. now subst r.
Qed.

Lemma process_keeps_observers (k : Z) (d : ResponseData.t) (w : World) :
  observers (fst (process_check_result k d w)) = observers w.
Proof.
  apply (stable_process_check_result
           (fun a b => observers b = observers a)
           ltac:(reflexivity) ltac:(intros; congruence)
           ltac:(reflexivity) (fun _ => True));
    auto; intros; reflexivity.
Qed.

Lemma process_returns (k : Z) (d : ResponseData.t) (w : World) :
  observers_deliver w -> snd (process_check_result k d w) = Ok tt.
Proof.
  intros Hw. destruct (db_up (db w)) eqn:Hup.
  - destruct (find_one_site (ResponseData.url d) (sites (db w))) as [s|]
      eqn:Hs.
    + rewrite (process_existing_site k d s w Hup Hs).
      now apply decide_status_returns.
    + rewrite (process_new_site k d w Hup Hs).
      now apply decide_status_returns.
  - now rewrite (process_down k d w Hup).
Qed.

(** X7.  While the database is reachable, a batch returns normally
    whenever no subscribed observer raises, whatever the network does:
    no IndexError comes from the warning loop and no AttributeError from
    a dropped result or from a site record that is read again. *)
Theorem run_task_returns (k : Z) (urls : list string) (w : World) :
  db_up (db w) = true ->
  (forall o n, In o (observers w) -> notify o n = Ok tt) ->
  snd (run_task k urls w) = Ok tt.
Proof.
  intros _ Hw.
  assert (Hkeep : forall (w1 w2 : World),
            observers w2 = observers w1 ->
            observers_deliver w1 -> observers_deliver w2).
  { unfold observers_deliver. intros w1 w2 E H. now rewrite E. }
  assert (Hrefl : forall a : World, observers a = observers a) by reflexivity.
  assert (Htrans : forall a b c : World,
            observers b = observers a -> observers c = observers b ->
            observers c = observers a) by (intros; congruence).
  unfold run_task, bind.
  destruct (gather_make_request_returns urls w) as (rs & Hrs & Hall).
  assert (O1 : observers (fst (gather make_request urls w)) = observers w).
  { apply (stable_gather (fun a b => observers b = observers a) Hrefl Htrans).
    intros u _.
    apply (stable_make_request (fun a b => observers b = observers a));
      auto; intros; reflexivity. }
  assert (Hlen := Forall2_length Hall).
  destruct (gather make_request urls w) as [w1 r1]. simpl in Hrs, O1.
  subst r1.
  assert (D := drop_failed_result (List.length rs) urls rs w1
                 (le_n _) ltac:(lia)).
  assert (O2 : observers (fst (drop_failed (List.length rs) urls rs w1))
               = observers w1).
  { apply (stable_drop_failed (fun a b => observers b = observers a));
      auto; intros; reflexivity. }
  destruct (drop_failed (List.length rs) urls rs w1) as [w2 r2].
  simpl in D, O2. subst r2. rewrite prepare_all_somes.
  set (docs := map prepare_for_database (somes rs)).
  destruct (gather_returns (fun a => observers a = observers w2)
              add_check_record docs) with (w := w2) as (O3 & ids & Hids);
    [|reflexivity|].
  { intros doc a _ Ha. split.
    - rewrite <- Ha.
      apply (stable_add_check_record (fun a b => observers b = observers a));
        auto; intros; reflexivity.
    - unfold add_check_record, exception_handling, mongo.
      destruct (db_up (db a)); simpl; eauto. }
  destruct (gather add_check_record docs w2) as [w3 r3]. simpl in O3, Hids.
  subst r3.
  assert (W := warn_unwritten_returns docs ids w3).
  assert (O4 : observers (fst (warn_unwritten docs ids w3)) = observers w3).
  { apply (stable_warn_unwritten (fun a b => observers b = observers a));
      auto; intros; reflexivity. }
  destruct (warn_unwritten docs ids w3) as [w4 r4]. simpl in W, O4. subst r4.
  assert (Hw4 : observers_deliver w4).
  { unfold observers_deliver. rewrite O4, O3, O2, O1. exact Hw. }
  destruct (gather_returns observers_deliver (forward k)
              (map Some (somes rs))) with (w := w4) as (_ & bs & Hbs);
    [|exact Hw4|].
  { intros x a Hx Ha. apply in_map_iff in Hx. destruct Hx as (d & <- & _).
    simpl. split.
    - apply (Hkeep a); [apply process_keeps_observers | exact Ha].
    - exists tt. now apply process_returns. }
  destruct (gather (forward k) (map Some (somes rs)) w4) as [w5 r5].
  simpl in Hbs. now subst r5.
Qed.

Lemma kept_before_absent {A} (seen : nat) (rs : list (option A)) :
  index_None rs = None -> kept_before seen rs = [].
Proof.
  revert seen. induction rs as [|[a|] rs IH]; intros seen; simpl;
    try discriminate; [reflexivity|].
  destruct (index_None rs); simpl; [discriminate | auto].
Qed.

Lemma kept_before_found {A} (seen : nat) (rs : list (option A)) (idx : nat) :
  index_None rs = Some idx ->
  kept_before seen rs = (seen + idx)%nat :: kept_before seen (pop idx rs).
Proof.
  revert seen idx. induction rs as [|[a|] rs IH]; intros seen idx H;
    simpl in *.
  - discriminate.
  - destruct (index_None rs) as [i|]; simpl in H; [|discriminate].
    injection H as <-. rewrite (IH (S seen) i eq_refl). simpl.
    f_equal. lia.
  - injection H as <-. simpl. f_equal. lia.
Qed.

(** X8.  The warning written for a dropped result names [urls[m]], where
    [m] is the number of kept results before it: the index is taken in
    the list from which the earlier dropped results are already gone.
    The first warning names the URL of the first dropped result; a later
    one names a URL further to the left. *)
Theorem dropped_warnings_are_shifted (fuel : nat) (urls : list string)
  (rs : list (option ResponseData.t)) (w : World) :
  (List.length rs <= fuel)%nat ->
  (List.length rs <= List.length urls)%nat ->
  log (fst (drop_failed fuel urls rs w))
  = log w ++ map (fun m => RequestError (nth m urls EmptyString))
               (kept_before 0 rs).
Proof.
  revert rs w. induction fuel as [|fuel IH]; intros rs w Hfuel Hurls; simpl.
  - destruct rs; [simpl; now rewrite app_nil_r | simpl in Hfuel; lia].
  - destruct (index_None rs) as [idx|] eqn:E.
    + destruct (index_None_found rs idx E) as (H1 & H2 & H3).
      rewrite (kept_before_found 0 rs idx E). simpl.
      destruct (nth_error urls idx) as [u|] eqn:En.
      * unfold bind, logger. rewrite IH by lia. simpl.
        rewrite <- app_assoc. simpl.
        now rewrite (nth_error_nth urls idx EmptyString En).
      * apply nth_error_None in En. lia.
    + rewrite (kept_before_absent 0 rs E). simpl. now rewrite app_nil_r.
Qed.

(** ** The probe, further *)

(** X9.  Every result the probe returns is for the requested URL, is
    stamped with the time of the request, and has one of four shapes: OK
    with a code from 200 to 299 and a latency; UNAVAILABLE with a code
    outside that range and no latency; DNS_ERROR or TIMEOUT with neither
    code nor latency. *)
Theorem probe_result_shape (url : string) (w : World) (d : ResponseData.t) :
  snd (make_request url w) = Ok (Some d) ->
  ResponseData.url d = url
  /\ ResponseData.timestamp d = at_time (net w (requests w) url)
  /\ match ResponseData.status d with
     | OK =>
         exists c t, ResponseData.code d = Some c /\ 200 <= c <= 299
                     /\ ResponseData.response_time d = Some t
     | UNAVAILABLE_RESPONSE =>
         exists c, ResponseData.code d = Some c /\ ~ 200 <= c <= 299
                   /\ ResponseData.response_time d = None
     | DNS_ERROR | TIMEOUT =>
         ResponseData.code d = None /\ ResponseData.response_time d = None
     end.
Proof.
  unfold make_request, exception_handling, make_request_body.
  destruct (outcome (net w (requests w) url)) as [c t|[| |what]]; simpl.
  - unfold raise_for_status.
    destruct (200 <=? c) eqn:E1; destruct (c <=? 299) eqn:E2; simpl;
      intros H; injection H as <-; simpl; repeat split;
      try (apply Z.leb_le in E1); try (apply Z.leb_le in E2);
      try (apply Z.leb_gt in E1); try (apply Z.leb_gt in E2);
      eexists; try eexists; repeat split; try reflexivity; lia.
  - intros H; injection H as <-; simpl; auto.
  - intros H; injection H as <-; simpl; auto.
  - discriminate.
Qed.

(** X10.  A probe is dropped exactly when the client raises something
    other than ConnectError and ConnectTimeout, and the drop is logged.
    Dropped or not, a probe makes one request, raises nothing and leaves
    the database, the observers and the published notifications alone. *)
Theorem probe_dropped_iff_other_error (url : string) (w : World) :
  let w' := fst (make_request url w) in
  (snd (make_request url w) = Ok None <->
   exists what,
     outcome (net w (requests w) url) = GetRaises (OtherHTTPError what))
  /\ (snd (make_request url w) = Ok None ->
      log w' = log w ++ [MethodError "HTTPRequestor" "make_request"])
  /\ (snd (make_request url w) <> Ok None -> log w' = log w)
  /\ requests w' = S (requests w)
  /\ db w' = db w
  /\ observers w' = observers w
  /\ published w' = published w.
Proof.
  cbv zeta. unfold make_request, exception_handling, make_request_body.
  destruct (outcome (net w (requests w) url)) as [c t|[| |what]]; simpl;
    try destruct (raise_for_status c); simpl;
    (split; [split; [discriminate || eauto
                    | intros (x & Hx); discriminate || reflexivity]|]);
    repeat split; try reflexivity; try discriminate;
    intros H; now elim H.
Qed.

(** ** The tick scheduler, further *)

(** X11.  A tick that finds the database unreachable returns normally:
    the counter still advances by one, the failure is logged, the due
    list is empty, no request is made and nothing is written or
    published. *)
Theorem tick_while_database_down (k td : Z) (w : World) :
  db_up (db w) = false ->
  let w' := fst (_tick k td w) in
  snd (_tick k td w) = Ok tt
  /\ ticks w' = ticks w + 1
  /\ requests w' = requests w
  /\ db w' = db w
  /\ published w' = published w
  /\ log w' =
     log w ++ [MethodError "DBHandler" "get_monitors_urls_for_tick";
               UrlListError; TickUrls []].
Proof.
  intros Hdown. cbv zeta.
  unfold _tick, _urls_per_tick, get_monitors_urls_for_tick,
    exception_handling, mongo, bind, logger, ret. simpl.
  rewrite Hdown. simpl. repeat split. now rewrite <- !app_assoc.
Qed.

(** X12.  With a positive tick duration, a monitor with a positive
    interval [I] is due exactly on the ticks whose elapsed time is a
    multiple of lcm(I, TICK_DURATION): on every
    (I / gcd(I, TICK_DURATION))-th tick.  An interval that TICK_DURATION
    does not divide is thereby stretched to that least common
    multiple. *)
Theorem due_every_lcm (td t : Z) (m : Monitor.t) :
  0 < td ->
  0 < Monitor.interval m ->
  0 < t ->
  (where_due (t * td) m = true <->
   (Z.lcm (Monitor.interval m) td | t * td))
  /\ (where_due (t * td) m = true <->
      (Monitor.interval m / Z.gcd (Monitor.interval m) td | t)).
Proof.
  intros Htd HI Ht. set (I := Monitor.interval m) in *.
  assert (Hdue : where_due (t * td) m = true <-> (I | t * td)).
  { rewrite where_due_iff by nia. apply Z.mod_divide. lia. }
  split.
  - rewrite Hdue. split.
    + intros H. apply Z.lcm_least; [exact H|]. apply Z.divide_factor_r.
    + intros H. apply Z.divide_trans with (Z.lcm I td); [|exact H].
      apply Z.divide_lcm_l.
  - rewrite Hdue.
    set (g := Z.gcd I td).
    assert (Hg : 0 < g).
    { assert (0 <= g) by apply Z.gcd_nonneg.
      assert (g <> 0) by (intros E; apply Z.gcd_eq_0_l in E; lia). lia. }
    destruct (Z.gcd_divide_l I td) as [i Hi].
    destruct (Z.gcd_divide_r I td) as [d Hd]. fold g in Hi, Hd.
    assert (Hdiv : I / g = i) by (rewrite Hi; apply Z.div_mul; lia).
    assert (Hcop : Z.gcd i d = 1).
    { assert (E := Z.gcd_div_gcd I td g ltac:(lia) eq_refl).
      rewrite Hdiv in E. replace (td / g) with d in E; [exact E|].
      rewrite Hd. symmetry. apply Z.div_mul. lia. }
    rewrite Hdiv. split.
    + intros H. rewrite Hi, Hd in H.
      replace (t * (d * g)) with (g * (d * t)) in H by ring.
      rewrite (Z.mul_comm i g) in H.
      apply Z.mul_divide_cancel_l in H; [|lia].
      now apply Z.gauss with d.
    + intros [q Hq]. exists (q * d). rewrite Hi, Hd, Hq. ring.
Qed.

(** ** The monitors collection *)

Lemma db_method_up {A} (method : string) (op : DBState -> DBState * A)
  (w : World) :
  db_up (db w) = true ->
  exception_handling "DBHandler" method (mongo op) w
  = (with_db w (fst (op (db w))), Ok (Some (snd (op (db w))))).
Proof.
  intros Hup. unfold exception_handling, mongo. rewrite Hup.
  now destruct (op (db w)).
Qed.

Lemma delete_one_monitor_spec (user_id : Z) (url : string)
  (l : list Monitor.t) :
  let (l', n) := delete_one_monitor user_id url l in
  others user_id url l' = others user_id url l
  /\ (matching user_id url l = O -> n = 0 /\ l' = l)
  /\ (matching user_id url l <> O ->
      n = 1 /\ S (matching user_id url l') = matching user_id url l).
Proof.
  unfold matching, others. induction l as [|m l IH]; simpl.
  - repeat split; auto; exfalso; auto.
  - destruct (delete_one_monitor user_id url l) as [l' n].
    destruct (monitor_matches user_id url m) eqn:E; simpl.
    + repeat split; auto; discriminate.
    + rewrite E. simpl. destruct IH as (H1 & H2 & H3).
      split; [now rewrite H1|]. split.
      * intros H. destruct (H2 H) as [-> ->]. auto.
      * exact H3.
Qed.

(** X13.  With the database reachable, [add_monitor] makes
    [check_user_monitors_for_url] answer True for that user and URL,
    raises the user's monitor count by one, leaves every other user's
    count as it was and puts the user among the subscribers of the
    URL. *)
Theorem add_monitor_is_seen (user_id : Z) (url : string) (interval : Z)
  (w : World) :
  db_up (db w) = true ->
  let w' := fst (add_monitor user_id url interval w) in
  snd (check_user_monitors_for_url user_id url w') = Ok (Some true)
  /\ (forall n, snd (get_user_monitors_count user_id w) = Ok (Some n) ->
        snd (get_user_monitors_count user_id w') = Ok (Some (n + 1)))
  /\ (forall other, other <> user_id ->
        snd (get_user_monitors_count other w')
        = snd (get_user_monitors_count other w))
  /\ exists users,
       snd (get_monitor_users_by_url url w') = Ok (Some users)
       /\ In user_id users.
Proof.
  intros Hup. cbv zeta. unfold add_monitor.
  rewrite db_method_up by exact Hup. simpl fst.
  set (w' := with_db w _).
  assert (Hup' : db_up (db w') = true) by exact Hup.
  unfold check_user_monitors_for_url, get_user_monitors_count,
    get_monitor_users_by_url.
  rewrite !db_method_up by assumption. simpl.
  repeat split.
  - destruct (find (monitor_matches user_id url)
                (monitors (db w) ++ [Monitor.mk user_id url interval]))
      eqn:E; [reflexivity|].
    exfalso.
    assert (Hn := find_none _ _ E (Monitor.mk user_id url interval)
                    ltac:(apply in_or_app; right; now left)).
    unfold monitor_matches in Hn. simpl in Hn.
    rewrite Z.eqb_refl, String.eqb_refl in Hn. discriminate.
  - intros n H. injection H as <-. rewrite filter_app, length_app. simpl.
    rewrite Z.eqb_refl. simpl. do 2 f_equal. lia.
  - intros other Hne. rewrite !db_method_up by assumption. simpl.
    rewrite filter_app, length_app. simpl.
    replace (user_id =? other) with false
      by (symmetry; apply Z.eqb_neq; congruence).
    simpl. do 3 f_equal. lia.
  - eexists. split; [reflexivity|]. apply nodup_In, in_map_iff.
    exists (Monitor.mk user_id url interval). split; [reflexivity|].
    apply filter_In. split.
    + apply in_or_app. right. now left.
    + simpl. apply String.eqb_refl.
Qed.

(** Where the first monitor of a user and URL stands. *)
Lemma first_match_split (user_id : Z) (url : string) (l : list Monitor.t) :
  matching user_id url l <> O ->
  exists pre m post,
    l = pre ++ m :: post
    /\ matching user_id url pre = O
    /\ monitor_matches user_id url m = true.
Proof.
  unfold matching. induction l as [|x l IH]; simpl; [intros H; now elim H|].
  destruct (monitor_matches user_id url x) eqn:E.
  - intros _. exists [], x, l. auto.
  - intros H. destruct (IH H) as (pre & m & post & -> & Hpre & Hm).
    exists (x :: pre), m, post. simpl. rewrite E. auto.
Qed.

Lemma delete_one_monitor_first (user_id : Z) (url : string)
  (pre : list Monitor.t) (m : Monitor.t) (post : list Monitor.t) :
  matching user_id url pre = O ->
  monitor_matches user_id url m = true ->
  delete_one_monitor user_id url (pre ++ m :: post) = (pre ++ post, 1).
Proof.
  unfold matching. intros Hpre Hm. induction pre as [|x pre IH]; simpl.
  - now rewrite Hm.
  - simpl in Hpre. destruct (monitor_matches user_id url x);
      [discriminate|].
    now rewrite (IH Hpre).
Qed.

(** X14.  With the database reachable, [delete_monitor] returns 0 and
    changes nothing when the user has no monitor for the URL; otherwise
    it returns 1 and the collection is the old one without the first
    monitor of that user and URL: every other monitor, a second one of
    the same user and URL included, stays as it was and where it was. *)
Theorem delete_monitor_removes_one (user_id : Z) (url : string) (w : World) :
  db_up (db w) = true ->
  let before := monitors (db w) in
  let after := monitors (db (fst (delete_monitor user_id url w))) in
  (matching user_id url before = O ->
   snd (delete_monitor user_id url w) = Ok (Some 0) /\ after = before)
  /\ (matching user_id url before <> O ->
      exists pre m post,
        before = pre ++ m :: post
        /\ matching user_id url pre = O
        /\ monitor_matches user_id url m = true
        /\ after = pre ++ post
        /\ snd (delete_monitor user_id url w) = Ok (Some 1))
  /\ others user_id url after = others user_id url before
  /\ (matching user_id url before <> O ->
      S (matching user_id url after) = matching user_id url before).
Proof.
  intros Hup. cbv zeta. unfold delete_monitor.
  rewrite db_method_up by exact Hup.
  assert (H := delete_one_monitor_spec user_id url (monitors (db w))).
  assert (F := first_match_split user_id url (monitors (db w))).
  assert (D := delete_one_monitor_first user_id url).
  destruct (delete_one_monitor user_id url (monitors (db w))) as [l n] eqn:E.
  simpl. destruct H as (H1 & H2 & H3). split; [|split; [|split]].
  - intros Hm. destruct (H2 Hm) as [-> ->]. auto.
  - intros Hm. destruct (F Hm) as (pre & m & post & Hl & Hpre & Hmm).
    exists pre, m, post. rewrite Hl in E. rewrite (D pre m post Hpre Hmm) in E.
    injection E as <- <-. auto.
  - exact H1.
  - intros Hm. now destruct (H3 Hm).
Qed.

(** X15.  A monitor added while the database is reachable shows in the
    due list of the next tick exactly when that tick's elapsed time is a
    multiple of its interval; every other URL is due as before. *)
Theorem added_monitor_is_scheduled (td : Z) (user_id : Z) (url : string)
  (interval : Z) (w : World) :
  db_up (db w) = true ->
  0 < td ->
  0 <= ticks w ->
  let w' := fst (add_monitor user_id url interval w) in
  exists before after,
    snd (_urls_per_tick td w) = Ok before
    /\ snd (_urls_per_tick td w') = Ok after
    /\ forall u,
         In u after <->
         In u before
         \/ (u = url /\ ((ticks w + 1) * td) mod interval = 0).
Proof.
  intros Hup Htd Ht. cbv zeta. unfold add_monitor.
  rewrite db_method_up by exact Hup. simpl fst.
  set (w' := with_db w _).
  assert (Hup' : db_up (db w') = true) by exact Hup.
  rewrite (urls_per_tick_up td w Hup), (urls_per_tick_up td w' Hup').
  simpl. do 2 eexists. split; [reflexivity|]. split; [reflexivity|].
  intros u. rewrite !nodup_In, filter_app, map_app, in_app_iff.
  assert (Hpos : 0 < (ticks w + 1) * td) by nia.
  assert (Hdue := where_due_iff ((ticks w + 1) * td)
                    (Monitor.mk user_id url interval) Hpos).
  simpl in Hdue. cbn [filter].
  destruct (where_due ((ticks w + 1) * td) (Monitor.mk user_id url interval)).
  - assert (Hd := proj1 Hdue eq_refl). simpl. split.
    + intros [H|[<-|[]]]; auto.
    + intros [H|[-> _]]; auto.
  - simpl. split.
    + intros [H|[]]. auto.
    + intros [H|[-> Hd]]; auto. apply Hdue in Hd. discriminate.
Qed.

(** X16.  A check record written while the database is reachable is
    returned by [get_check_records] exactly when it is of the requested
    URL and its timestamp lies between the two dates, ends included; it
    comes after the records returned before. *)
Theorem written_check_is_read (doc : Check.t) (url : string)
  (beg_date end_date : Z) (w : World) :
  db_up (db w) = true ->
  let w' := fst (add_check_record doc w) in
  exists before,
    snd (get_check_records url beg_date end_date w) = Ok (Some before)
    /\ (Check.url doc = url
        /\ beg_date <= Check.timestamp doc <= end_date ->
        snd (get_check_records url beg_date end_date w')
        = Ok (Some (before ++ [doc])))
    /\ (~ (Check.url doc = url
           /\ beg_date <= Check.timestamp doc <= end_date) ->
        snd (get_check_records url beg_date end_date w')
        = Ok (Some before)).
Proof.
  intros Hup. cbv zeta. rewrite (add_check_record_up doc w Hup). simpl fst.
  set (w' := with_db w _).
  assert (Hup' : db_up (db w') = true) by exact Hup.
  unfold get_check_records. rewrite !db_method_up by assumption. simpl.
  eexists. split; [reflexivity|]. rewrite filter_app. cbn [filter].
  assert (Hin : in_period url beg_date end_date doc = true <->
                Check.url doc = url
                /\ beg_date <= Check.timestamp doc <= end_date).
  { unfold in_period. rewrite !andb_true_iff, String.eqb_eq, !Z.leb_le.
    tauto. }
  destruct (in_period url beg_date end_date doc).
  - split; [reflexivity|]. intros Hn. elim Hn. now apply Hin.
  - split; [|now rewrite app_nil_r]. intros H. apply Hin in H. discriminate.
Qed.

(** ** The incident analyzer, further *)

Lemma insert_by_timestamp_ordered (c : Check.t) (l : list Check.t) :
  time_ordered l -> time_ordered (insert_by_timestamp c l).
Proof.
  induction l as [|d l IH]; simpl; [auto|].
  intros [Hd Hl].
  destruct (Check.timestamp c <=? Check.timestamp d) eqn:E.
  - apply Z.leb_le in E. simpl. auto.
  - apply Z.leb_gt in E. specialize (IH Hl). split; [|exact IH].
    destruct l as [|e l]; simpl in *.
    + lia.
    + destruct (Check.timestamp c <=? Check.timestamp e); [lia | exact Hd].
Qed.

Lemma sorted_by_timestamp_is_ordered (l : list Check.t) :
  time_ordered (sorted_by_timestamp l).
Proof.
  induction l as [|c l IH]; simpl; [exact I|].
  now apply insert_by_timestamp_ordered.
Qed.

Lemma insert_by_timestamp_filter (p : Check.t -> bool) (c : Check.t)
  (l : list Check.t) :
  List.length (filter p (insert_by_timestamp c l))
  = List.length (filter p (c :: l)).
Proof.
  induction l as [|d l IH]; [reflexivity|].
  simpl insert_by_timestamp.
  destruct (Check.timestamp c <=? Check.timestamp d); [reflexivity|].
  simpl in *. destruct (p d); destruct (p c); simpl in *; lia.
Qed.

Lemma sorted_by_timestamp_filter (p : Check.t -> bool) (l : list Check.t) :
  List.length (filter p (sorted_by_timestamp l)) = List.length (filter p l).
Proof.
  induction l as [|c l IH]; [reflexivity|].
  simpl sorted_by_timestamp. rewrite insert_by_timestamp_filter.
  simpl. destruct (p c); simpl; now rewrite IH.
Qed.

Lemma time_ordered_head (c : Check.t) (l : list Check.t) :
  time_ordered (c :: l) ->
  forall x, In x l -> Check.timestamp c <= Check.timestamp x.
Proof.
  revert c. induction l as [|d l IH]; intros c [Hc Hl] x Hx; [now elim Hx|].
  destruct Hx as [<-|Hx]; [exact Hc|].
  apply Z.le_trans with (Check.timestamp d); [exact Hc | now apply IH].
Qed.

Lemma closing_time_from (l : list Check.t) (d : Check.t) :
  closing_time l d = Check.timestamp d
  \/ exists x, In x l /\ closing_time l d = Check.timestamp x.
Proof.
  unfold closing_time.
  assert (Hsub : forall l', (forall x, In x (after_streak l') -> In x l')).
  { induction l' as [|c l' IH]; simpl; [auto|].
    destruct (_is_check_successful c); [auto|]. intros x Hx. right. auto. }
  destruct (after_streak l) as [|s r] eqn:E.
  - destruct l as [|c l]; [now left|]. right.
    exists (last (c :: l) d). split; [|reflexivity].
    clear E. revert c. induction l as [|e l IH]; intros c; [now left|].
    right. apply IH.
  - right. exists s. split; [|reflexivity]. apply Hsub. rewrite E. now left.
Qed.

Lemma incidents_by_streak_well_timed (k : Z) (b : bool) (l : list Check.t) :
  time_ordered l -> Forall well_timed (incidents_by_streak k b l).
Proof.
  revert b. induction l as [|c l IH]; intros b Hord; simpl; [constructor|].
  assert (Hl : time_ordered l) by (destruct Hord; assumption).
  destruct (_is_check_successful c); [now apply IH|].
  destruct b; [now apply IH|].
  apply Forall_app. split; [|now apply IH].
  destruct (k <=? _); constructor; [|constructor].
  exists (Check.timestamp c), (closing_time l c). simpl.
  repeat split; auto.
  destruct (closing_time_from l c) as [->|(x & Hx & ->)]; [lia|].
  now apply (time_ordered_head c l).
Qed.

(** X17.  With a threshold of at least 1 and whatever the order of the
    input, every incident has a start and an end, the start is not after
    the end, and the duration, their difference, is not negative. *)
Theorem incidents_are_well_timed (k : Z) (checks : list Check.t) :
  1 <= k ->
  exists incs,
    _find_incidents k checks = Ok incs
    /\ Forall well_timed incs
    /\ Forall (fun i => 0 <= Incident.duration i) incs.
Proof.
  intros Hk. eexists. split; [now apply find_incidents_sorted|].
  assert (H := incidents_by_streak_well_timed k false
                 (sorted_by_timestamp checks)
                 (sorted_by_timestamp_is_ordered checks)).
  split; [exact H|].
  eapply Forall_impl; [|exact H].
  intros i (s & e & _ & _ & Hle & ->). lia.
Qed.

Lemma failed_split (l : list Check.t) :
  failed l = (List.length (failure_streak l) + failed (after_streak l))%nat.
Proof.
  unfold failed. induction l as [|c l IH]; simpl; [reflexivity|].
  destruct (_is_check_successful c) eqn:E; simpl.
  - now rewrite E.
  - now rewrite IH.
Qed.

Lemma incidents_inside_skip (k : Z) (l : list Check.t) :
  incidents_by_streak k true l = incidents_by_streak k false (after_streak l).
Proof.
  induction l as [|c l IH]; simpl; [reflexivity|].
  destruct (_is_check_successful c) eqn:E; simpl; [now rewrite E | exact IH].
Qed.

Lemma incidents_by_streak_count (k : Z) (l : list Check.t) :
  0 <= k ->
  k * Z.of_nat (List.length (incidents_by_streak k false l))
  <= Z.of_nat (failed l).
Proof.
  intros Hk. remember (List.length l) as n eqn:Hn.
  revert l Hn. induction n as [n IH] using lt_wf_ind. intros l Hn.
  destruct l as [|c l]; [simpl; lia|].
  assert (Hafter : (List.length (after_streak l) <= List.length l)%nat).
  { clear. induction l as [|c l IH]; simpl; [lia|].
    destruct (_is_check_successful c); simpl; lia. }
  destruct (_is_check_successful c) eqn:E.
  - rewrite (incidents_by_streak_success k false c l E).
    unfold failed. simpl. rewrite E. simpl.
    apply (IH (List.length l)); [subst n; simpl; lia | reflexivity].
  - rewrite (incidents_by_streak_first k c l E), length_app,
      incidents_inside_skip.
    assert (H := IH (List.length (after_streak l))
                   ltac:(subst n; simpl; lia) (after_streak l) eq_refl).
    assert (Hf : failed (c :: l)
                 = S (List.length (failure_streak l) + failed (after_streak l))).
    { unfold failed at 1. simpl. rewrite E. simpl. f_equal.
      apply failed_split. }
    rewrite Hf.
    destruct (k <=? 1 + Z.of_nat (List.length (failure_streak l))) eqn:Ek.
    + apply Z.leb_le in Ek. simpl List.length. nia.
    + simpl List.length. nia.
Qed.

(** X18.  With a threshold of at least 1, every incident stands for at
    least FAILURE_THRESHOLD failed checks of its own: the threshold times
    the number of incidents is at most the number of failed checks. *)
Theorem incidents_need_failures (k : Z) (checks : list Check.t) :
  1 <= k ->
  exists incs,
    _find_incidents k checks = Ok incs
    /\ k * Z.of_nat (List.length incs) <= Z.of_nat (failed checks).
Proof.
  intros Hk. eexists. split; [now apply find_incidents_sorted|].
  unfold failed. rewrite <- (sorted_by_timestamp_filter _ checks).
  apply incidents_by_streak_count. lia.
Qed.

(** ** The uptime statistics, further *)

Lemma round_half_even_nonneg (q : Q) :
  (0 <= q)%Q -> 0 <= round_half_even q.
Proof.
  intros Hq. unfold round_half_even.
  assert (Hf : 0 <= Qfloor q).
  { change 0 with (Qfloor (inject_Z 0)) at 1. now apply Qfloor_resp_le. }
  destruct (Qcompare _ _); [destruct (Z.even _)| |]; lia.
Qed.

Lemma round_half_even_le (q : Q) (n : Z) :
  (q <= inject_Z n)%Q -> round_half_even q <= n.
Proof.
  intros Hq. unfold round_half_even.
  assert (Hf : Qfloor q <= n).
  { rewrite <- (Qfloor_Z n). now apply Qfloor_resp_le. }
  destruct (Z.eq_dec (Qfloor q) n) as [E|E].
  - assert (Hlt : Qcompare (q - inject_Z (Qfloor q)) (1 # 2) = Lt).
    { apply Qlt_alt. rewrite E. apply Qle_lt_trans with 0%Q; [|reflexivity].
      apply Qle_minus_iff in Hq. apply Qle_minus_iff.
      setoid_replace (0 + - (q - inject_Z n))%Q with (inject_Z n + - q)%Q
        by ring. exact Hq. }
    rewrite Hlt. lia.
  - destruct (Qcompare _ _); [destruct (Z.even _)| |]; lia.
Qed.

Lemma round2_range (q : Q) :
  (0 <= q)%Q -> (q <= inject_Z 100)%Q ->
  (0 <= round2 q)%Q /\ (round2 q <= inject_Z 100)%Q.
Proof.
  intros H0 H100. unfold round2.
  assert (A : 0 <= round_half_even (q * inject_Z 100)).
  { apply round_half_even_nonneg. apply Qmult_le_0_compat; [exact H0|].
    discriminate. }
  assert (B : round_half_even (q * inject_Z 100) <= 10000).
  { apply round_half_even_le.
    change (inject_Z 10000) with (inject_Z 100 * inject_Z 100)%Q.
    apply Qmult_le_compat_r; [exact H100 | discriminate]. }
  unfold Qle. simpl. lia.
Qed.

Lemma ratio_range (s t : Z) :
  0 <= s <= t -> 0 < t ->
  (0 <= inject_Z s / inject_Z t * inject_Z 100)%Q
  /\ (inject_Z s / inject_Z t * inject_Z 100 <= inject_Z 100)%Q.
Proof.
  intros Hs Ht.
  assert (Hpos : (0 < inject_Z t)%Q)
    by (change 0%Q with (inject_Z 0); now rewrite <- Zlt_Qlt).
  assert (H0 : (0 <= inject_Z s / inject_Z t)%Q).
  { apply Qle_shift_div_l; [exact Hpos|]. rewrite Qmult_0_l.
    change 0%Q with (inject_Z 0). rewrite <- Zle_Qle. lia. }
  assert (H1 : (inject_Z s / inject_Z t <= 1)%Q).
  { apply Qle_shift_div_r; [exact Hpos|]. rewrite Qmult_1_l.
    rewrite <- Zle_Qle. lia. }
  split.
  - apply Qmult_le_0_compat; [exact H0 | discriminate].
  - setoid_replace (inject_Z 100) with (1 * inject_Z 100)%Q at 2 by ring.
    apply Qmult_le_compat_r; [exact H1 | discriminate].
Qed.

Lemma sum_nonneg (l : list Z) (a : Z) :
  Forall (fun x => 0 <= x) l -> 0 <= a -> 0 <= fold_left Z.add l a.
Proof.
  intros Hl. revert a. induction Hl as [|x l Hx _ IH]; intros a Ha; simpl;
    [exact Ha|]. apply IH. lia.
Qed.

(** The statistics of a history that is not empty, downtime included. *)
Lemma uptime_stats_fields (k : Z) (c : Check.t) (l : list Check.t) :
  1 <= k ->
  exists st,
    _calculate_uptime_stats k (c :: l) = Ok st
    /\ UptimeStats.total_checks st = Z.of_nat (List.length (c :: l))
    /\ UptimeStats.successful_checks st
       = Z.of_nat (List.length (filter _is_check_successful (c :: l)))
    /\ UptimeStats.failed_checks st
       = UptimeStats.total_checks st - UptimeStats.successful_checks st
    /\ UptimeStats.uptime_percentage st
       = round2 (inject_Z (UptimeStats.successful_checks st)
                 / inject_Z (UptimeStats.total_checks st) * inject_Z 100)
    /\ UptimeStats.downtime_duration st
       = fold_left Z.add
           (map Incident.duration
              (incidents_by_streak k false (sorted_by_timestamp (c :: l))))
           0.
Proof.
  intros Hk. unfold _calculate_uptime_stats, _calculate_downtime_duration.
  rewrite (find_incidents_sorted k (c :: l) Hk).
  replace (0 <? Z.of_nat (List.length (c :: l))) with true
    by (symmetry; apply Z.ltb_lt; simpl List.length; lia).
  destruct (response_times (c :: l)); eexists; (split; [reflexivity|]);
    simpl; repeat split; reflexivity.
Qed.

(** X19.  With a threshold of at least 1, the statistics of every history
    are within range: the successful and the failed checks add up to the
    total and neither is negative, the uptime percentage lies between 0
    and 100, and the downtime is not negative. *)
Theorem uptime_stats_in_range (k : Z) (checks : list Check.t) :
  1 <= k ->
  exists st,
    _calculate_uptime_stats k checks = Ok st
    /\ 0 <= UptimeStats.successful_checks st
    /\ 0 <= UptimeStats.failed_checks st
    /\ UptimeStats.successful_checks st + UptimeStats.failed_checks st
       = UptimeStats.total_checks st
    /\ (0 <= UptimeStats.uptime_percentage st)%Q
    /\ (UptimeStats.uptime_percentage st <= inject_Z 100)%Q
    /\ 0 <= UptimeStats.downtime_duration st.
Proof.
  intros Hk. destruct checks as [|c l].
  - eexists. split; [reflexivity|]. simpl.
    repeat split; try lia; discriminate.
  - destruct (uptime_stats_fields k c l Hk)
      as (st & Hst & Ht & Hs & Hf & Hu & Hd).
    exists st. split; [exact Hst|].
    assert (Hle : UptimeStats.successful_checks st
                  <= UptimeStats.total_checks st).
    { rewrite Hs, Ht. apply inj_le. apply filter_length_le. }
    assert (Hpos : 0 < UptimeStats.total_checks st)
      by (rewrite Ht; simpl List.length; lia).
    assert (H0 : 0 <= UptimeStats.successful_checks st) by (rewrite Hs; lia).
    destruct (ratio_range _ _ (conj H0 Hle) Hpos) as [R0 R100].
    destruct (round2_range _ R0 R100) as [U0 U100].
    rewrite Hu, Hf, Hd. repeat split; auto; try lia.
    apply sum_nonneg; [|lia].
    apply Forall_map.
    eapply Forall_impl;
      [|apply (incidents_by_streak_well_timed k false _
                 (sorted_by_timestamp_is_ordered (c :: l)))].
    intros i (s & e & _ & _ & Hse & ->). lia.
Qed.

Lemma round_half_even_Z (n : Z) : round_half_even (inject_Z n) = n.
Proof.
  unfold round_half_even. rewrite Qfloor_Z.
  assert (H : Qcompare (inject_Z n - inject_Z n) (1 # 2) = Lt).
  { apply Qlt_alt.
    setoid_replace (inject_Z n - inject_Z n)%Q with 0%Q by ring.
    reflexivity. }
  now rewrite H.
Qed.

Lemma round_half_even_comp (x y : Q) :
  (x == y)%Q -> round_half_even x = round_half_even y.
Proof.
  intros H. unfold round_half_even.
  rewrite (Qfloor_comp x y H).
  assert (E : (x - inject_Z (Qfloor y) == y - inject_Z (Qfloor y))%Q)
    by (now rewrite H).
  now rewrite (Qcompare_comp _ _ E (1 # 2) (1 # 2) (Qeq_refl _)).
Qed.

(** X20.  With a threshold of at least 1: a history without a failed
    check has no incident, no downtime and an uptime of 100; a history
    without a successful check has an uptime of 0. *)
Theorem uniform_histories (k : Z) (checks : list Check.t) :
  1 <= k ->
  checks <> [] ->
  exists st,
    _calculate_uptime_stats k checks = Ok st
    /\ (failed checks = O ->
        _find_incidents k checks = Ok []
        /\ UptimeStats.failed_checks st = 0
        /\ UptimeStats.downtime_duration st = 0
        /\ (UptimeStats.uptime_percentage st == 100)%Q)
    /\ (filter _is_check_successful checks = [] ->
        UptimeStats.successful_checks st = 0
        /\ (UptimeStats.uptime_percentage st == 0)%Q).
Proof.
  intros Hk Hne. destruct checks as [|c l]; [now elim Hne|].
  destruct (uptime_stats_fields k c l Hk)
    as (st & Hst & Ht & Hs & Hf & Hu & Hd).
  exists st. split; [exact Hst|]. split.
  - intros Hnone.
    assert (Hincs : incidents_by_streak k false (sorted_by_timestamp (c :: l))
                    = []).
    { assert (H := incidents_by_streak_count k
                     (sorted_by_timestamp (c :: l)) ltac:(lia)).
      unfold failed in H, Hnone.
      rewrite sorted_by_timestamp_filter, Hnone in H.
      destruct (incidents_by_streak k false _); [reflexivity|].
      simpl List.length in H. lia. }
    assert (Hall : UptimeStats.successful_checks st
                   = UptimeStats.total_checks st).
    { rewrite Hs, Ht. f_equal. unfold failed in Hnone. clear - Hnone.
      induction (c :: l) as [|x r IH]; simpl in *; [reflexivity|].
      destruct (_is_check_successful x); simpl in *;
        [now rewrite IH | discriminate]. }
    split; [now rewrite find_incidents_sorted, Hincs|].
    split; [lia|]. split; [now rewrite Hd, Hincs|].
    rewrite Hu, Hall. unfold round2.
    assert (Hpos : ~ (inject_Z (UptimeStats.total_checks st) == 0)%Q).
    { rewrite Ht. simpl List.length. unfold Qeq. simpl. lia. }
    rewrite (round_half_even_comp _ (inject_Z 10000)).
    + now rewrite round_half_even_Z.
    + change (inject_Z 10000) with (inject_Z 100 * inject_Z 100)%Q.
      field. exact Hpos.
  - intros Hnone. split; [now rewrite Hs, Hnone|].
    rewrite Hu, Hs, Hnone. simpl List.length.
    unfold round2.
    rewrite (round_half_even_comp _ (inject_Z 0)).
    + now rewrite round_half_even_Z.
    + unfold Qdiv. now rewrite !Qmult_0_l.
Qed.

(** ** The daily statistics and the weekly report *)

Lemma round1_range (q : Q) :
  (0 <= q)%Q -> (q <= inject_Z 100)%Q ->
  (0 <= round1 q)%Q /\ (round1 q <= inject_Z 100)%Q.
Proof.
  intros H0 H100. unfold round1.
  assert (A : 0 <= round_half_even (q * inject_Z 10)).
  { apply round_half_even_nonneg. apply Qmult_le_0_compat; [exact H0|].
    discriminate. }
  assert (B : round_half_even (q * inject_Z 10) <= 1000).
  { apply round_half_even_le.
    change (inject_Z 1000) with (inject_Z 100 * inject_Z 10)%Q.
    apply Qmult_le_compat_r; [exact H100 | discriminate]. }
  unfold Qle. simpl. lia.
Qed.

Lemma day_stats_cases (checks : list Check.t) (d : Z) :
  (filter (on_day d) checks = [] /\ day_stats checks d = [])
  \/ exists b,
       day_stats checks d = [b]
       /\ DailyStat.date b = d
       /\ DailyStat.total_checks b
          = Z.of_nat (List.length (filter (on_day d) checks))
       /\ 1 <= DailyStat.total_checks b
       /\ (0 <= DailyStat.uptime_percentage b)%Q
       /\ (DailyStat.uptime_percentage b <= inject_Z 100)%Q.
Proof.
  unfold day_stats. fold (on_day d).
  destruct (filter (on_day d) checks) as [|c l]; [now left|].
  right. eexists. split; [reflexivity|]. cbv zeta.
  cbn [DailyStat.date DailyStat.total_checks DailyStat.uptime_percentage].
  split; [reflexivity|]. split; [reflexivity|].
  split; [simpl List.length; lia|].
  replace (0 <? Z.of_nat (List.length (c :: l))) with true
    by (symmetry; apply Z.ltb_lt; simpl List.length; lia).
  apply round1_range; apply ratio_range; try (simpl List.length; lia).
  - split; [lia|]. apply inj_le, filter_length_le.
  - split; [lia|]. apply inj_le, filter_length_le.
Qed.

Lemma in_days_cases (d hi : Z) (c : Check.t) :
  d < hi ->
  in_days d hi c = on_day d c || in_days (d + 1) hi c
  /\ on_day d c && in_days (d + 1) hi c = false.
Proof.
  intros Hd. unfold in_days, on_day.
  set (x := date_of (Check.timestamp c)).
  destruct (x =? d) eqn:E1; destruct (d <=? x) eqn:E2;
    destruct (x <? hi) eqn:E3; destruct (d + 1 <=? x) eqn:E4; simpl;
    split; try reflexivity; exfalso;
    try (apply Z.eqb_eq in E1); try (apply Z.eqb_neq in E1);
    try (apply Z.leb_le in E2); try (apply Z.leb_gt in E2);
    try (apply Z.ltb_lt in E3); try (apply Z.ltb_ge in E3);
    try (apply Z.leb_le in E4); try (apply Z.leb_gt in E4); lia.
Qed.

Lemma in_days_split (checks : list Check.t) (d hi : Z) :
  d < hi ->
  List.length (filter (in_days d hi) checks)
  = (List.length (filter (on_day d) checks)
     + List.length (filter (in_days (d + 1) hi) checks))%nat.
Proof.
  intros Hd. induction checks as [|c l IH]; [reflexivity|].
  cbn [filter]. destruct (in_days_cases d hi c Hd) as [H1 H2].
  rewrite H1.
  destruct (on_day d c); destruct (in_days (d + 1) hi c);
    simpl in *; try discriminate; rewrite IH; lia.
Qed.

Lemma in_days_empty (checks : list Check.t) (d : Z) :
  filter (in_days d d) checks = [].
Proof.
  induction checks as [|c l IH]; [reflexivity|]. simpl. unfold in_days at 1.
  destruct (d <=? _) eqn:E1; destruct (_ <? d) eqn:E2; simpl; auto.
  apply Z.leb_le in E1. apply Z.ltb_lt in E2. lia.
Qed.

Lemma daily_loop_spec (checks : list Check.t) (n : nat) (d0 : Z) :
  let ds := daily_loop n d0 checks in
  Forall (fun b =>
            d0 <= DailyStat.date b < d0 + Z.of_nat n
            /\ DailyStat.total_checks b
               = Z.of_nat (List.length
                             (filter (on_day (DailyStat.date b)) checks))
            /\ 1 <= DailyStat.total_checks b
            /\ (0 <= DailyStat.uptime_percentage b)%Q
            /\ (DailyStat.uptime_percentage b <= inject_Z 100)%Q) ds
  /\ rising (map DailyStat.date ds)
  /\ (forall day, d0 <= day < d0 + Z.of_nat n ->
        filter (on_day day) checks <> [] ->
        exists b, In b ds /\ DailyStat.date b = day)
  /\ sum_Z (map DailyStat.total_checks ds)
     = Z.of_nat (List.length (filter (in_days d0 (d0 + Z.of_nat n)) checks))
  /\ (List.length ds <= n)%nat.
Proof.
  cbv zeta. revert d0. induction n as [|n IH]; intros d0.
  - simpl. rewrite Z.add_0_r, in_days_empty. repeat split; auto.
    intros day Hday. exfalso. lia.
  - cbn [daily_loop]. destruct (IH (d0 + 1)) as (A & B & C & D & E).
    assert (Hhi : d0 + 1 + Z.of_nat n = d0 + Z.of_nat (S n)) by lia.
    rewrite Hhi in *.
    assert (A' : Forall (fun b => d0 + 1 <= DailyStat.date b)
                   (daily_loop n (d0 + 1) checks)).
    { eapply Forall_impl; [|exact A]. intros b [H _]. lia. }
    destruct (day_stats_cases checks d0) as [[Hnone ->]|(b & -> & Hb)].
    + simpl. split; [|split; [|split; [|split]]].
      * eapply Forall_impl; [|exact A]. intros b [H H']. split; [lia|exact H'].
      * exact B.
      * intros day Hday Hne.
        destruct (Z.eq_dec day d0) as [->|Hd]; [contradiction|].
        apply C; [lia | exact Hne].
      * rewrite D, (in_days_split checks d0) by lia. now rewrite Hnone.
      * lia.
    + destruct Hb as (Hdate & Htot & H1 & U0 & U100).
      simpl. split; [|split; [|split; [|split]]].
      * constructor; [rewrite Hdate, <- Htot; repeat split; auto; lia|].
        eapply Forall_impl; [|exact A]. intros x [H H']. split; [lia|exact H'].
      * split; [|exact B].
        destruct (daily_loop n (d0 + 1) checks) as [|y r]; [exact I|].
        simpl. inversion A'. lia.
      * intros day Hday Hne.
        destruct (Z.eq_dec day d0) as [->|Hd]; [exists b; auto|].
        destruct (C day ltac:(lia) Hne) as (x & Hx & Hxd). eauto.
      * rewrite D, (in_days_split checks d0) by lia.
        rewrite Htot, Nat2Z.inj_add. reflexivity.
      * lia.
Qed.

(** X21.  The daily statistics hold one entry for every day of the window
    that has at least one check and none for a day without checks; the
    entries come in the order of the days; each gives the number of
    checks of its day and an uptime percentage between 0 and 100. *)
Theorem daily_stats_buckets (checks : list Check.t) (start_date end_date : Z) :
  let ds := _calculate_daily_stats checks start_date end_date in
  Forall (fun b =>
            date_of start_date <= DailyStat.date b <= date_of end_date
            /\ DailyStat.total_checks b
               = Z.of_nat (List.length
                             (filter (on_day (DailyStat.date b)) checks))
            /\ 1 <= DailyStat.total_checks b
            /\ (0 <= DailyStat.uptime_percentage b)%Q
            /\ (DailyStat.uptime_percentage b <= inject_Z 100)%Q) ds
  /\ rising (map DailyStat.date ds)
  /\ (forall day, date_of start_date <= day <= date_of end_date ->
        filter (on_day day) checks <> [] ->
        exists b, In b ds /\ DailyStat.date b = day).
Proof.
  cbv zeta. unfold _calculate_daily_stats.
  destruct (daily_loop_spec checks
              (Z.to_nat (date_of end_date - date_of start_date + 1))
              (date_of start_date)) as (A & B & C & _).
  split; [|split; [exact B|]].
  - eapply Forall_impl; [|exact A]. intros b (H1 & H2). split; [lia | exact H2].
  - intros day Hday. apply C. lia.
Qed.

(** X22.  The totals of the daily entries add up to the number of checks
    whose day lies in the window, so that no check of the window is
    counted twice or left out. *)
Theorem daily_totals_add_up (checks : list Check.t) (start_date end_date : Z) :
  sum_Z (map DailyStat.total_checks
           (_calculate_daily_stats checks start_date end_date))
  = Z.of_nat
      (List.length
         (filter (in_days (date_of start_date) (date_of end_date + 1))
            checks)).
Proof.
  unfold _calculate_daily_stats.
  destruct (daily_loop_spec checks
              (Z.to_nat (date_of end_date - date_of start_date + 1))
              (date_of start_date)) as (_ & _ & _ & D & _).
  rewrite D.
  destruct (Z_lt_le_dec (date_of end_date) (date_of start_date)) as [Hlt|Hle].
  - replace (Z.to_nat (date_of end_date - date_of start_date + 1)) with O
      by lia.
    rewrite Z.add_0_r, in_days_empty.
    assert (E : filter (in_days (date_of start_date) (date_of end_date + 1))
                  checks = []).
    { clear - Hlt. induction checks as [|c l IH]; [reflexivity|]. simpl.
      unfold in_days at 1.
      destruct (_ <=? _) eqn:E1; destruct (_ <? _) eqn:E2; simpl; auto.
      apply Z.leb_le in E1. apply Z.ltb_lt in E2. lia. }
    now rewrite E.
  - do 4 f_equal. lia.
Qed.

Lemma filter_all {A} (p : A -> bool) (l : list A) :
  (forall x, In x l -> p x = true) -> filter p l = l.
Proof.
  induction l as [|x l IH]; intros H; [reflexivity|]. simpl.
  rewrite (H x (or_introl eq_refl)). f_equal. apply IH.
  intros y Hy. apply H. now right.
Qed.

Lemma date_of_week (e : Z) : date_of (e - 7 * 86400) = date_of e - 7.
Proof.
  unfold date_of. replace (e - 7 * 86400) with (e + (-7) * 86400) by lia.
  rewrite Z.div_add by lia. lia.
Qed.

Lemma date_of_mono (a b : Z) : a <= b -> date_of a <= date_of b.
Proof. intros H. unfold date_of. apply Z.div_le_mono; lia. Qed.

(** X23.  With the database reachable and a threshold of at least 1, the
    report covers the checks of the URL from seven days before the end
    date to the end date, both included, and its parts agree: the total
    of the statistics is the number of those checks and also the sum of
    the daily totals; the downtime is the sum of the durations of the
    listed incidents, each of them well timed; and there are at most
    eight daily entries.  The world is left as it was. *)
Theorem weekly_report_is_consistent (k now : Z) (url : string)
  (end_date : option Z) (w : World) :
  1 <= k ->
  db_up (db w) = true ->
  let e := match end_date with Some e => e | None => now end in
  let window := filter (in_period url (e - 7 * 86400) e) (checks (db w)) in
  exists report,
    generate_weekly_report k now url end_date w = (w, Ok report)
    /\ WeeklyReport.url report = url
    /\ WeeklyReport.period_end report = e
    /\ WeeklyReport.period_start report = e - 604800
    /\ UptimeStats.total_checks (WeeklyReport.stats report)
       = Z.of_nat (List.length window)
    /\ sum_Z (map DailyStat.total_checks (WeeklyReport.daily_stats report))
       = UptimeStats.total_checks (WeeklyReport.stats report)
    /\ UptimeStats.downtime_duration (WeeklyReport.stats report)
       = fold_left Z.add
           (map Incident.duration (WeeklyReport.incidents report)) 0
    /\ Forall well_timed (WeeklyReport.incidents report)
    /\ (List.length (WeeklyReport.daily_stats report) <= 8)%nat.
Proof.
  intros Hk Hup. cbv zeta.
  set (e := match end_date with Some e => e | None => now end).
  set (window := filter (in_period url (e - 7 * 86400) e) (checks (db w))).
  assert (Hget : get_check_records url (e - 7 * 86400) e w
                 = (w, Ok (Some window))).
  { unfold get_check_records. rewrite db_method_up by exact Hup. simpl.
    now rewrite with_db_same. }
  assert (Hdays : forall c, In c window ->
            in_days (date_of (e - 7 * 86400)) (date_of e + 1) c = true).
  { intros c Hc. apply filter_In in Hc. destruct Hc as [_ Hc].
    unfold in_period in Hc. rewrite !andb_true_iff, !Z.leb_le in Hc.
    destruct Hc as [[_ H1] H2]. unfold in_days.
    apply andb_true_iff. split; [apply Z.leb_le | apply Z.ltb_lt].
    - now apply date_of_mono.
    - apply date_of_mono in H2. lia. }
  destruct (daily_loop_spec window
              (Z.to_nat (date_of e - date_of (e - 7 * 86400) + 1))
              (date_of (e - 7 * 86400))) as (_ & _ & _ & D & L).
  assert (Hn : Z.to_nat (date_of e - date_of (e - 7 * 86400) + 1) = 8%nat)
    by (rewrite date_of_week; lia).
  rewrite Hn in D, L.
  replace (date_of (e - 7 * 86400) + Z.of_nat 8) with (date_of e + 1) in D
    by (rewrite date_of_week; lia).
  rewrite (filter_all _ window Hdays) in D.
  unfold generate_weekly_report. fold e. unfold bind. rewrite Hget.
  unfold lift, ret, _calculate_daily_stats. rewrite Hn.
  rewrite (find_incidents_sorted k window Hk).
  destruct window as [|c l] eqn:Ew.
  - eexists. split; [reflexivity|]. simpl. repeat split; auto.
  - destruct (uptime_stats_fields k c l Hk)
      as (st & Hst & Ht & _ & _ & _ & Hd).
    rewrite Hst. eexists. split; [reflexivity|].
    cbn [WeeklyReport.url WeeklyReport.period_end WeeklyReport.period_start
         WeeklyReport.stats WeeklyReport.incidents WeeklyReport.daily_stats].
    repeat split; auto.
    + congruence.
    + apply incidents_by_streak_well_timed, sorted_by_timestamp_is_ordered.
Qed.

(** X24.  While the database is unreachable no report is produced: the
    failed read is logged and [generate_weekly_report] raises TypeError,
    from sorting the missing list. *)
Theorem report_while_database_down (k now : Z) (url : string)
  (end_date : option Z) (w : World) :
  db_up (db w) = false ->
  snd (generate_weekly_report k now url end_date w) = Raise TypeError
  /\ db (fst (generate_weekly_report k now url end_date w)) = db w
  /\ log (fst (generate_weekly_report k now url end_date w))
     = log w ++ [MethodError "DBHandler" "get_check_records"].
Proof.
  intros Hdown.
  unfold generate_weekly_report, get_check_records, exception_handling,
    mongo, bind, lift, raise.
  rewrite Hdown. simpl. auto.
Qed.

(** ** The address check of the URL validator *)

(** X25.  An address is accepted exactly when none of the listed ranges
    contains it, and a rejected one is reported with the first range
    that contains it; the two tests that follow the loop, for multicast
    and for reserved addresses, never reject anything, both ranges being
    in the list. *)
Theorem ip_rejected_by_range_only (ip : IPAddress) :
  (fst (_validate_ip_address ip) = true <->
   forall r, In r forbidden_ip_ranges -> network_contains r ip = false)
  /\ (fst (_validate_ip_address ip) = true ->
      snd (_validate_ip_address ip) = AddressCorrect)
  /\ (fst (_validate_ip_address ip) = false ->
      exists r,
        find (fun r => network_contains r ip) forbidden_ip_ranges = Some r
        /\ snd (_validate_ip_address ip) = InForbiddenRange ip r)
  /\ (forall ip', snd (_validate_ip_address ip) <> MulticastForbidden ip')
  /\ (forall ip', snd (_validate_ip_address ip) <> ReservedForbidden ip').
Proof.
  unfold _validate_ip_address.
  destruct (find (fun r => network_contains r ip) forbidden_ip_ranges)
    as [r|] eqn:E.
  - simpl. repeat split; try discriminate.
    + intros H. apply find_some in E. destruct E as [Hin Hc].
      rewrite (H r Hin) in Hc. discriminate.
    + intros _. now exists r.
  - assert (Hnone := find_none _ _ E).
    assert (Hm : is_multicast ip = false).
    { apply (Hnone (mkNetwork IPv4 (dotted 224 0 0 0) 4)). simpl. tauto. }
    assert (Hr : is_reserved ip = false).
    { apply (Hnone (mkNetwork IPv4 (dotted 240 0 0 0) 4)). simpl. tauto. }
    rewrite Hm, Hr.
    destruct (ip_version ip); simpl; repeat split; try discriminate; auto.
Qed.

Lemma bits_above (v n i : Z) :
  0 <= v < 2 ^ n -> n <= i -> Z.testbit v i = false.
Proof.
  intros [H0 Hv] Hi. destruct (Z.eq_dec v 0) as [->|Hne].
  - apply Z.bits_0.
  - apply Z.bits_above_log2; [exact H0|].
    assert (Hn : 0 <= n).
    { destruct (Z_lt_le_dec n 0) as [Hneg|]; [|assumption].
      rewrite Z.pow_neg_r in Hv by exact Hneg. lia. }
    assert (Z.log2 v < n) by (apply Z.log2_lt_pow2; lia). lia.
Qed.

Lemma land_netmask (v s p : Z) :
  0 <= s -> 0 <= p -> 0 <= v < 2 ^ (s + p) ->
  Z.land v (Z.shiftl (Z.ones p) s) = v / 2 ^ s * 2 ^ s.
Proof.
  intros Hs Hp Hv.
  rewrite <- Z.shiftr_div_pow2, <- Z.shiftl_mul_pow2 by exact Hs.
  apply Z.bits_inj'. intros i Hi.
  rewrite Z.land_spec, !Z.shiftl_spec by exact Hi.
  destruct (Z_lt_le_dec i s) as [Hlt|Hge].
  - rewrite (Z.testbit_neg_r (Z.ones p)), (Z.testbit_neg_r (Z.shiftr v s))
      by lia.
    apply andb_false_r.
  - rewrite Z.shiftr_spec by lia. rewrite Z.testbit_ones by exact Hp.
    replace (i - s + s) with i by lia.
    destruct (Z_lt_le_dec (i - s) p) as [Hin|Hout].
    + replace (0 <=? i - s) with true by (symmetry; apply Z.leb_le; lia).
      replace (i - s <? p) with true by (symmetry; apply Z.ltb_lt; lia).
      apply andb_true_r.
    + rewrite (bits_above v (s + p) i Hv) by lia. reflexivity.
Qed.

Lemma contains_v4 (base p v : Z) :
  0 <= p <= 32 -> 0 <= v < 2 ^ 32 ->
  network_contains (mkNetwork IPv4 base p) (mkIP IPv4 v)
  = (v / 2 ^ (32 - p) * 2 ^ (32 - p) =? base).
Proof.
  intros Hp Hv. unfold network_contains, netmask.
  cbn [net_version ip_version ip_value prefixlen network_address
       IPVersion_eqb max_prefixlen andb].
  rewrite land_netmask; [reflexivity | lia | lia |].
  now replace (32 - p + p) with 32 by lia.
Qed.

(** X26.  An IPv4 address a.b.c.d is accepted exactly when it lies
    outside 127.0.0.0/8, 10.0.0.0/8, 172.16.0.0/12, 192.168.0.0/16,
    169.254.0.0/16 and below 224.0.0.0: the first octet decides, with the
    second for the three blocks that are narrower than /8. *)
Theorem ipv4_accepted_ranges (a b c d : Z) :
  0 <= a <= 255 -> 0 <= b <= 255 -> 0 <= c <= 255 -> 0 <= d <= 255 ->
  fst (_validate_ip_address (mkIP IPv4 (dotted a b c d))) = true <->
  a <> 127 /\ a <> 10
  /\ ~ (a = 172 /\ 16 <= b <= 31)
  /\ ~ (a = 192 /\ b = 168)
  /\ ~ (a = 169 /\ b = 254)
  /\ a < 224.
Proof.
  intros Ha Hb Hc Hd.
  set (v := dotted a b c d).
  assert (Hv : 0 <= v < 2 ^ 32).
  { unfold v, dotted. change (2 ^ 32) with 4294967296. lia. }
  assert (K8 : v / 16777216 = a).
  { symmetry. apply Z.div_unique with (b * 65536 + c * 256 + d).
    - left. lia.
    - unfold v, dotted. lia. }
  assert (K12 : v / 1048576 = a * 16 + b / 16).
  { symmetry. apply Z.div_unique with (b mod 16 * 65536 + c * 256 + d).
    - left. assert (H := Z.mod_pos_bound b 16 ltac:(lia)). lia.
    - unfold v, dotted. assert (H := Z.div_mod b 16 ltac:(lia)). lia. }
  assert (K16 : v / 65536 = a * 256 + b).
  { symmetry. apply Z.div_unique with (c * 256 + d).
    - left. lia.
    - unfold v, dotted. lia. }
  assert (K4 : v / 268435456 = a / 16).
  { symmetry.
    apply Z.div_unique
      with (a mod 16 * 16777216 + b * 65536 + c * 256 + d).
    - left. assert (H := Z.mod_pos_bound a 16 ltac:(lia)). lia.
    - unfold v, dotted. assert (H := Z.div_mod a 16 ltac:(lia)). lia. }
  unfold _validate_ip_address, forbidden_ip_ranges, is_multicast, is_reserved.
  cbn [find].
  rewrite !(contains_v4 _ _ v) by (try exact Hv; lia).
  unfold network_contains.
  cbn [ip_version net_version IPVersion_eqb andb].
  change (2 ^ (32 - 8)) with 16777216.
  change (2 ^ (32 - 12)) with 1048576.
  change (2 ^ (32 - 16)) with 65536.
  change (2 ^ (32 - 4)) with 268435456.
  rewrite K8, K12, K16, K4. unfold dotted. clearbody v.
  assert (Ea := Z.div_mod a 16 ltac:(lia)).
  assert (Ra := Z.mod_pos_bound a 16 ltac:(lia)).
  assert (Eb := Z.div_mod b 16 ltac:(lia)).
  assert (Rb := Z.mod_pos_bound b 16 ltac:(lia)).
  repeat match goal with
         | |- context [?x =? ?y] =>
             let E := fresh "E" in
             destruct (Z.eqb_spec x y) as [E|E]
         end;
    simpl; (split; [try discriminate; intros _; lia
                   | intros H; try reflexivity; exfalso; lia]).
Qed.

(** ** [update_monitor] *)

Lemma update_one_monitor_spec (user_id : Z) (url : string) (interval : Z)
  (l : list Monitor.t) :
  let (l', n) := update_one_monitor user_id url interval l in
  others user_id url l' = others user_id url l
  /\ List.length l' = List.length l
  /\ (n = 0 \/ n = 1)
  /\ (n = 0 <-> l' = l)
  /\ (forall m,
        find (monitor_matches user_id url) l = Some m ->
        find (monitor_matches user_id url) l'
        = Some (Monitor.mk (Monitor.user_id m) (Monitor.url m) interval)).
Proof.
  unfold others. induction l as [|m l IH]; simpl.
  - repeat split; auto; discriminate.
  - destruct (update_one_monitor user_id url interval l) as [l' n].
    destruct (monitor_matches user_id url m) eqn:E.
    + assert (E' : monitor_matches user_id url
                     (Monitor.mk (Monitor.user_id m) (Monitor.url m) interval)
                   = true) by exact E.
      simpl. rewrite E'. simpl.
      split; [reflexivity|]. split; [reflexivity|].
      destruct (Z.eqb_spec (Monitor.interval m) interval) as [Hi|Hi].
      * split; [now left|]. split.
        -- split; [|reflexivity]. intros _. subst interval.
           now destruct m.
        -- intros m0 H. now injection H as <-.
      * split; [now right|]. split.
        -- split; [discriminate|]. intros H. exfalso. apply Hi.
           injection H as H. rewrite <- H at 1. reflexivity.
        -- intros m0 H. now injection H as <-.
    + simpl. rewrite E. simpl.
      destruct IH as (H1 & H2 & H3 & H4 & H5).
      split; [now rewrite H1|]. split; [now rewrite H2|]. split; [exact H3|].
      split; [|exact H5].
      split.
      * intros H. apply H4 in H. now subst l'.
      * intros H. apply H4. now injection H.
Qed.

Lemma update_one_monitor_first (user_id : Z) (url : string) (interval : Z)
  (pre : list Monitor.t) (m : Monitor.t) (post : list Monitor.t) :
  matching user_id url pre = O ->
  monitor_matches user_id url m = true ->
  update_one_monitor user_id url interval (pre ++ m :: post)
  = (pre ++ Monitor.mk (Monitor.user_id m) (Monitor.url m) interval :: post,
     if Monitor.interval m =? interval then 0 else 1).
Proof.
  unfold matching. intros Hpre Hm. induction pre as [|x pre IH]; simpl.
  - now rewrite Hm.
  - simpl in Hpre. destruct (monitor_matches user_id url x);
      [discriminate|].
    now rewrite (IH Hpre).
Qed.

(** X27.  With the database reachable, [update_monitor] returns 0 and
    changes nothing when the user has no monitor for the URL; otherwise
    the collection is the old one with the new interval written into the
    first monitor of that user and URL, every other monitor, a second one
    of the same user and URL included, staying as it was and where it
    was, and the count returned is 0 when that monitor already had the
    interval and 1 when not.  So the count is 0 exactly when the
    collection is left as it was. *)
Theorem update_monitor_counts_changes (user_id : Z) (url : string)
  (interval : Z) (w : World) :
  db_up (db w) = true ->
  let before := monitors (db w) in
  let after := monitors (db (fst (update_monitor user_id url interval w))) in
  (matching user_id url before = O ->
   snd (update_monitor user_id url interval w) = Ok (Some 0)
   /\ after = before)
  /\ (matching user_id url before <> O ->
      exists pre m post,
        before = pre ++ m :: post
        /\ matching user_id url pre = O
        /\ monitor_matches user_id url m = true
        /\ after
           = pre ++ Monitor.mk (Monitor.user_id m) (Monitor.url m) interval
                    :: post
        /\ snd (update_monitor user_id url interval w)
           = Ok (Some (if Monitor.interval m =? interval then 0 else 1)))
  /\ exists n,
       snd (update_monitor user_id url interval w) = Ok (Some n)
       /\ (n = 0 \/ n = 1)
       /\ (n = 0 <-> after = before).
Proof.
  intros Hup. cbv zeta. unfold update_monitor.
  rewrite db_method_up by exact Hup.
  assert (H := update_one_monitor_spec user_id url interval (monitors (db w))).
  assert (F := first_match_split user_id url (monitors (db w))).
  assert (U := update_one_monitor_first user_id url interval).
  destruct (update_one_monitor user_id url interval (monitors (db w)))
    as [l' n] eqn:E.
  destruct H as (H1 & H2 & H3 & H4 & H5). simpl.
  split; [|split].
  - intros Hm.
    assert (Hnone : find (monitor_matches user_id url) (monitors (db w))
                    = None).
    { destruct (find (monitor_matches user_id url) (monitors (db w)))
        as [m|] eqn:Ef; [|reflexivity].
      exfalso. destruct (find_some _ _ Ef) as [Hin Hmm].
      unfold matching in Hm.
      assert (Hf : In m (filter (monitor_matches user_id url)
                           (monitors (db w))))
        by (apply filter_In; auto).
      destruct (filter (monitor_matches user_id url) (monitors (db w)));
        [exact Hf | discriminate Hm]. }
    assert (El : l' = monitors (db w)).
    { clear - E Hnone. revert l' n E.
      induction (monitors (db w)) as [|x l IH]; simpl; intros l' n E.
      - now injection E as <- _.
      - simpl in Hnone. destruct (monitor_matches user_id url x);
          [discriminate|].
        destruct (update_one_monitor user_id url interval l) as [l0 n0].
        injection E as <- _. f_equal. now apply (IH Hnone l0 n0). }
    split; [|exact El]. do 2 f_equal. now apply H4.
  - intros Hm. destruct (F Hm) as (pre & m & post & Hl & Hpre & Hmm).
    exists pre, m, post. rewrite Hl in E.
    rewrite (U pre m post Hpre Hmm) in E. injection E as <- <-. auto.
  - exists n. auto.
Qed.

(** ** The text of a duration *)

Lemma unit_of_full_words (num : Z) (word : TimeUnit) :
  unit_of (format_full_words num word) = word.
Proof.
  unfold format_full_words.
  destruct (num mod 10 =? 1); [reflexivity|].
  now destruct ((2 <=? num mod 10) && (num mod 10 <? 5)).
Qed.

(** X28.  In both modes the text reads as the same duration, the words
    leaving out only a figure that is zero.  Below an hour it reads as
    [seconds] exactly; from an hour to a day it is exact to the minute;
    from a day on, the figure printed with the hour unit is the remainder
    in seconds, [seconds % 86400], so the text reads as
    [seconds + 3599 * (seconds % 86400)]: right for whole days only. *)
Theorem duration_shown (seconds : Z) (full_words : bool) :
  let v := shown (format_duration seconds full_words) in
  v = shown (format_duration seconds false)
  /\ (seconds < 3600 -> v = seconds)
  /\ (3600 <= seconds < 86400 -> v <= seconds < v + 60)
  /\ (86400 <= seconds -> v = seconds + 3599 * (seconds mod 86400))
  /\ (86400 <= seconds -> (v = seconds <-> (86400 | seconds))).
Proof.
  cbv zeta.
  assert (E60 := Z.div_mod seconds 60 ltac:(lia)).
  assert (R60 := Z.mod_pos_bound seconds 60 ltac:(lia)).
  assert (E3600 := Z.div_mod seconds 3600 ltac:(lia)).
  assert (R3600 := Z.mod_pos_bound seconds 3600 ltac:(lia)).
  assert (Em := Z.div_mod (seconds mod 3600) 60 ltac:(lia)).
  assert (Rm := Z.mod_pos_bound (seconds mod 3600) 60 ltac:(lia)).
  assert (Ed := Z.div_mod seconds 86400 ltac:(lia)).
  assert (Rd := Z.mod_pos_bound seconds 86400 ltac:(lia)).
  assert (Hdiv : (86400 | seconds) <-> seconds mod 86400 = 0).
  { split; intros H.
    - now apply Z.mod_divide in H.
    - apply Z.mod_divide; [lia | exact H]. }
  unfold format_duration.
  destruct (Z.ltb_spec seconds 60) as [H60|H60];
    [|destruct (Z.ltb_spec seconds 3600) as [H3600|H3600];
      [|destruct (Z.ltb_spec seconds 86400) as [Hday|Hday]]].
  - destruct full_words; unfold shown, sum_Z;
      cbn [map fst snd fold_right unit_of];
      rewrite ?unit_of_full_words; cbn [unit_seconds unit_of];
      repeat split; intros; try lia.
  - destruct full_words;
      [destruct (Z.eqb_spec (seconds mod 60) 0) as [Hz|Hz]|];
      unfold shown, sum_Z; cbn [map fst snd fold_right unit_of];
      rewrite ?unit_of_full_words; cbn [unit_seconds unit_of];
      repeat split; intros; try lia.
  - cbv zeta.
    destruct full_words;
      [destruct (Z.eqb_spec (seconds mod 3600 / 60) 0) as [Hz|Hz]|];
      unfold shown, sum_Z; cbn [map fst snd fold_right unit_of];
      rewrite ?unit_of_full_words; cbn [unit_seconds unit_of];
      repeat split; intros; try lia.
  - cbv zeta.
    destruct full_words;
      [destruct (Z.eqb_spec (seconds mod 86400) 0) as [Hz|Hz]|];
      unfold shown, sum_Z; cbn [map fst snd fold_right unit_of];
      rewrite ?unit_of_full_words; cbn [unit_seconds unit_of];
      repeat split; intros; try lia;
      try (apply Hdiv; lia);
      try (match goal with H : (_ | _) |- _ => apply Hdiv in H end; lia).
Qed.

(** X29.  With [full_words] every figure is followed by the form of the
    word that [format_full_words] gives for that very figure, also the
    seconds after the minutes, whose form is chosen from the whole
    duration: 60 being a multiple of 10, the last digit is the same.
    Without it every figure is followed by an abbreviation.  In both
    modes there are one or two figures, the larger unit first. *)
Theorem duration_words_fit_figures (seconds : Z) (full_words : bool) :
  let text := format_duration seconds full_words in
  Forall (fun p =>
            snd p = if full_words
                    then format_full_words (fst p) (unit_of (snd p))
                    else Abbrev (unit_of (snd p))) text
  /\ rising (rev (map (fun p => unit_seconds (unit_of (snd p))) text))
  /\ (1 <= List.length text <= 2)%nat.
Proof.
  cbv zeta.
  assert (Hdigit : format_full_words seconds Seconds
                   = format_full_words (seconds mod 60) Seconds).
  { unfold format_full_words.
    now rewrite (Z.mod_mod_divide seconds 60 10) by (exists 6; reflexivity). }
  unfold format_duration.
  destruct (seconds <? 60); [|destruct (seconds <? 3600);
                               [|destruct (seconds <? 86400)]];
    cbv zeta;
    destruct full_words;
    repeat match goal with
           | |- context [if ?x =? ?y then _ else _] => destruct (x =? y)
           end;
    (split; [|split; [|simpl; lia]]);
    try (repeat constructor; cbn [fst snd];
         rewrite ?unit_of_full_words; try reflexivity; exact Hdigit);
    cbn [map snd rev app]; rewrite ?unit_of_full_words; simpl; lia.
Qed.

(** ** The further properties at concrete inputs *)

Lemma failure_run_notifies_once_witness :
  let w := world_of [Site.mk example_url AVAILABLE 0] [] in
  let ds := [failed_at 1; failed_at 2; failed_at 3; failed_at 4] in
  let w' := fst (gather (process_check_result 3) ds w) in
  1 <= 3
  /\ db_up (db w) = true
  /\ find_one_site example_url (sites (db w))
     = Some (Site.mk example_url AVAILABLE 0)
  /\ Forall (fun d => ResponseData.url d = example_url
                      /\ ResponseData.status d <> OK) ds
  /\ find_one_site example_url (sites (db w'))
     = Some (Site.mk example_url UNAVAILABLE 4)
  /\ published w' = [Notification.mk example_url UNAVAILABLE].
Proof.
  intros w ds w'.
  assert (H1 : 1 <= 3) by lia.
  assert (H4 : Forall (fun d => ResponseData.url d = example_url
                                /\ ResponseData.status d <> OK) ds)
    by (repeat (constructor; [split; [reflexivity | discriminate]|]);
        constructor).
  split; [exact H1|]. split; [reflexivity|]. split; [reflexivity|].
  split; [exact H4|].
  exact (failure_run_notifies_once 3 example_url ds w H1 eq_refl eq_refl H4).
Defined.

Lemma no_two_down_alerts_in_a_row_witness :
  let w := world_of [Site.mk example_url UNAVAILABLE 5] [] in
  let ds := [failed_at 1; ok_at 2; failed_at 3] in
  let w' := fst (gather (process_check_result 1) ds w) in
  db_up (db w) = true
  /\ find_one_site example_url (sites (db w))
     = Some (Site.mk example_url UNAVAILABLE 5)
  /\ Forall (fun d => ResponseData.url d = example_url) ds
  /\ exists alerts,
       published w' = alerts
       /\ well_alerted true alerts
       /\ Forall (fun n => Notification.url n = example_url) alerts.
Proof.
  intros w ds w'.
  assert (H3 : Forall (fun d => ResponseData.url d = example_url) ds)
    by (repeat (constructor; [reflexivity|]); constructor).
  split; [reflexivity|]. split; [reflexivity|]. split; [exact H3|].
  exact (no_two_down_alerts_in_a_row 1 example_url ds w
           (Site.mk example_url UNAVAILABLE 5) eq_refl eq_refl H3).
Defined.

Lemma first_check_creates_site_witness :
  let w := world_of [] [] in
  let w' := fst (process_check_result 3 (failed_at 5) w) in
  db_up (db w) = true
  /\ find_one_site example_url (sites (db w)) = None
  /\ sites (db w') = [Site.mk example_url AVAILABLE 1]
  /\ published w' = [].
Proof.
  intros w w'.
  split; [reflexivity|]. split; [reflexivity|].
  destruct (first_check_creates_site 3 (failed_at 5) w eq_refl eq_refl)
    as [_ H].
  apply H. discriminate.
Defined.

Lemma check_while_database_down_witness :
  let w := world_without_database in
  db_up (db w) = false
  /\ snd (process_check_result 3 (failed_at 5) w) = Ok tt
  /\ db (fst (process_check_result 3 (failed_at 5) w)) = db w.
Proof.
  intros w. split; [reflexivity|].
  destruct (check_while_database_down 3 (failed_at 5) w eq_refl)
    as (H1 & H2 & _).
  split; [exact H1 | exact H2].
Defined.

Lemma available_below_threshold_witness :
  let w := world_of [Site.mk example_url AVAILABLE 1] [] in
  let w' := fst (process_check_result 3 (failed_at 5) w) in
  1 <= 3
  /\ db_up (db w) = true
  /\ find_one_site example_url (sites (db w))
     = Some (Site.mk example_url AVAILABLE 1)
  /\ exists s',
       find_one_site example_url (sites (db w')) = Some s'
       /\ Site.consecutive_failures s' = 1 + 1.
Proof.
  intros w w'.
  assert (H1 : 1 <= 3) by lia.
  split; [exact H1|]. split; [reflexivity|]. split; [reflexivity|].
  destruct (available_below_threshold 3 (failed_at 5)
              (Site.mk example_url AVAILABLE 1) w H1 eq_refl eq_refl)
    as (s' & Hs & _ & _ & Hf).
  exists s'. split; [exact Hs|]. apply Hf. discriminate.
Defined.

Lemma subscribe_then_publish_witness :
  let n := Notification.mk example_url UNAVAILABLE in
  let w := world_of [] [working_observer] in
  let w1 := fst (subscribe working_observer w) in
  (forall o', In o' (observers w) -> notify o' n = Ok tt)
  /\ notify working_observer n = Ok tt
  /\ inbox (fst (_notify_observers n w1)) = [("working", n); ("working", n)].
Proof.
  intros n w w1.
  assert (H1 : forall o', In o' (observers w) -> notify o' n = Ok tt).
  { intros o' [<-|[]]. reflexivity. }
  split; [exact H1|]. split; [reflexivity|].
  destruct (subscribe_then_publish working_observer n w H1 eq_refl)
    as [_ H].
  exact H.
Defined.

Lemma run_task_returns_witness :
  let w := world_of [] [working_observer] in
  db_up (db w) = true
  /\ (forall o n, In o (observers w) -> notify o n = Ok tt)
  /\ snd (run_task 3 [example_url] w) = Ok tt.
Proof.
  intros w.
  assert (H1 : forall o n, In o (observers w) -> notify o n = Ok tt).
  { intros o n [<-|[]]. reflexivity. }
  split; [reflexivity|]. split; [exact H1|].
  exact (run_task_returns 3 [example_url] w eq_refl H1).
Defined.

Lemma dropped_warnings_are_shifted_witness :
  let urls := ["a"; "b"; "c"] in
  let rs := [Some (ok_at 1); None; None] in
  let w := world_of [] [] in
  (List.length rs <= 3)%nat
  /\ (List.length rs <= List.length urls)%nat
  /\ log (fst (drop_failed 3 urls rs w))
     = [RequestError "b"; RequestError "b"].
Proof.
  intros urls rs w.
  assert (H1 : (List.length rs <= 3)%nat) by (simpl; lia).
  assert (H2 : (List.length rs <= List.length urls)%nat) by (simpl; lia).
  split; [exact H1|]. split; [exact H2|].
  exact (dropped_warnings_are_shifted 3 urls rs w H1 H2).
Defined.

Lemma probe_result_shape_witness :
  let w := world_answering (mkExchange 7 (Response 404 (1 # 2))) in
  let d := ResponseData.mk example_url UNAVAILABLE_RESPONSE 7 (Some 404)
             None in
  snd (make_request example_url w) = Ok (Some d)
  /\ ResponseData.url d = example_url
  /\ ResponseData.timestamp d = 7.
Proof.
  intros w d.
  assert (H1 : snd (make_request example_url w) = Ok (Some d))
    by reflexivity.
  split; [exact H1|].
  destruct (probe_result_shape example_url w d H1) as (H2 & H3 & _).
  split; [exact H2 | exact H3].
Defined.

Lemma tick_while_database_down_witness :
  let w := world_without_database in
  db_up (db w) = false
  /\ snd (_tick 3 10 w) = Ok tt
  /\ ticks (fst (_tick 3 10 w)) = 1
  /\ requests (fst (_tick 3 10 w)) = 0%nat.
Proof.
  intros w. split; [reflexivity|].
  destruct (tick_while_database_down 3 10 w eq_refl) as (H1 & H2 & H3 & _).
  split; [exact H1|]. split; [exact H2 | exact H3].
Defined.

Lemma due_every_lcm_witness :
  let m := Monitor.mk 1 example_url 15 in
  0 < 10
  /\ 0 < Monitor.interval m
  /\ 0 < 3
  /\ where_due (3 * 10) m = true
  /\ ~ (Z.lcm (Monitor.interval m) 10 | 2 * 10).
Proof.
  intros m.
  assert (H1 : 0 < 10) by lia.
  assert (H2 : 0 < Monitor.interval m) by (simpl; lia).
  assert (H3 : 0 < 3) by lia.
  assert (H4 : 0 < 2) by lia.
  split; [exact H1|]. split; [exact H2|]. split; [exact H3|].
  split.
  - destruct (due_every_lcm 10 3 m H1 H2 H3) as [_ [_ H]].
    apply H. exists 1. reflexivity.
  - destruct (due_every_lcm 10 2 m H1 H2 H4) as [[_ H] _].
    intros D. apply H in D. discriminate D.
Defined.

Lemma add_monitor_is_seen_witness :
  let w := world_monitoring [] in
  let w' := fst (add_monitor 1 example_url 30 w) in
  db_up (db w) = true
  /\ snd (check_user_monitors_for_url 1 example_url w') = Ok (Some true)
  /\ snd (get_user_monitors_count 1 w') = Ok (Some (0 + 1)).
Proof.
  intros w w'. split; [reflexivity|].
  destruct (add_monitor_is_seen 1 example_url 30 w eq_refl)
    as (H1 & H2 & _).
  split; [exact H1|]. apply H2. reflexivity.
Defined.

Lemma delete_monitor_removes_one_witness :
  let w := world_monitoring [Monitor.mk 1 example_url 30;
                             Monitor.mk 2 example_url 60;
                             Monitor.mk 1 example_url 90] in
  let after := monitors (db (fst (delete_monitor 1 example_url w))) in
  db_up (db w) = true
  /\ snd (delete_monitor 1 example_url w) = Ok (Some 1)
  /\ after = [Monitor.mk 2 example_url 60; Monitor.mk 1 example_url 90].
Proof.
  intros w after. split; [reflexivity|].
  destruct (delete_monitor_removes_one 1 example_url w eq_refl)
    as (_ & H & _).
  destruct H as (pre & m & post & Hl & Hpre & _ & Ha & Hr); [discriminate|].
  split; [exact Hr|].
  destruct pre as [|x pre].
  - injection Hl as _ <-. exact Ha.
  - injection Hl as <- _. discriminate Hpre.
Defined.

Lemma added_monitor_is_scheduled_witness :
  let w := world_monitoring [] in
  let w' := fst (add_monitor 1 example_url 10 w) in
  db_up (db w) = true
  /\ 0 < 10
  /\ 0 <= ticks w
  /\ exists after,
       snd (_urls_per_tick 10 w') = Ok after /\ In example_url after.
Proof.
  intros w w'.
  assert (H2 : 0 < 10) by lia.
  assert (H3 : 0 <= ticks w) by (simpl; lia).
  split; [reflexivity|]. split; [exact H2|]. split; [exact H3|].
  destruct (added_monitor_is_scheduled 10 1 example_url 10 w eq_refl H2 H3)
    as (before & after & _ & Ha & H).
  exists after. split; [exact Ha|].
  apply H. right. split; reflexivity.
Defined.

Lemma written_check_is_read_witness :
  let w := world_with_checks [check_at OK 3 None] in
  let w' := fst (add_check_record (check_at TIMEOUT 5 None) w) in
  db_up (db w) = true
  /\ snd (get_check_records example_url 0 10 w')
     = Ok (Some [check_at OK 3 None; check_at TIMEOUT 5 None])
  /\ snd (get_check_records example_url 6 10 w') = Ok (Some []).
Proof.
  intros w w'. split; [reflexivity|]. split.
  - destruct (written_check_is_read (check_at TIMEOUT 5 None) example_url
                0 10 w eq_refl) as (before & Hb & H & _).
    injection Hb as <-. apply H. simpl. split; [reflexivity | lia].
  - destruct (written_check_is_read (check_at TIMEOUT 5 None) example_url
                6 10 w eq_refl) as (before & Hb & _ & H).
    injection Hb as <-. apply H. simpl. intros [_ C]. lia.
Defined.

Lemma incidents_are_well_timed_witness :
  1 <= 3
  /\ exists incs,
       _find_incidents 3 failure_run = Ok incs /\ Forall well_timed incs.
Proof.
  assert (H1 : 1 <= 3) by lia.
  split; [exact H1|].
  destruct (incidents_are_well_timed 3 failure_run H1) as (incs & H & W & _).
  exists incs. split; [exact H | exact W].
Defined.

Lemma incidents_need_failures_witness :
  1 <= 3
  /\ exists incs,
       _find_incidents 3 failure_run = Ok incs
       /\ 3 * Z.of_nat (List.length incs) <= Z.of_nat (failed failure_run).
Proof.
  assert (H1 : 1 <= 3) by lia.
  split; [exact H1|].
  exact (incidents_need_failures 3 failure_run H1).
Defined.

Lemma uptime_stats_in_range_witness :
  1 <= 3
  /\ exists st,
       _calculate_uptime_stats 3 one_of_three = Ok st
       /\ (UptimeStats.uptime_percentage st <= inject_Z 100)%Q.
Proof.
  assert (H1 : 1 <= 3) by lia.
  split; [exact H1|].
  destruct (uptime_stats_in_range 3 one_of_three H1)
    as (st & H & _ & _ & _ & _ & Hle & _).
  exists st. split; [exact H | exact Hle].
Defined.

Lemma uniform_histories_witness :
  let checks := [check_at OK 0 None; check_at OK 60 (Some (1 # 4))] in
  1 <= 3
  /\ checks <> []
  /\ exists st,
       _calculate_uptime_stats 3 checks = Ok st
       /\ (UptimeStats.uptime_percentage st == 100)%Q.
Proof.
  intros checks.
  assert (H1 : 1 <= 3) by lia.
  assert (H2 : checks <> []) by discriminate.
  split; [exact H1|]. split; [exact H2|].
  destruct (uniform_histories 3 checks H1 H2) as (st & H & Hall & _).
  exists st. split; [exact H|]. apply Hall. reflexivity.
Defined.

Lemma weekly_report_is_consistent_witness :
  let w := world_with_checks failure_run in
  1 <= 3
  /\ db_up (db w) = true
  /\ exists report,
       generate_weekly_report 3 1000 example_url None w = (w, Ok report)
       /\ WeeklyReport.period_start report = 1000 - 604800
       /\ UptimeStats.total_checks (WeeklyReport.stats report) = 5.
Proof.
  intros w.
  assert (H1 : 1 <= 3) by lia.
  split; [exact H1|]. split; [reflexivity|].
  destruct (weekly_report_is_consistent 3 1000 example_url None w H1 eq_refl)
    as (report & H & _ & _ & Hs & Ht & _).
  exists report. split; [exact H|]. split; [exact Hs | exact Ht].
Defined.

Lemma report_while_database_down_witness :
  let w := world_without_database in
  db_up (db w) = false
  /\ snd (generate_weekly_report 3 1000 example_url None w) = Raise TypeError.
Proof.
  intros w. split; [reflexivity|].
  destruct (report_while_database_down 3 1000 example_url None w eq_refl)
    as [H _].
  exact H.
Defined.

Lemma ipv4_accepted_ranges_witness :
  0 <= 93 <= 255 /\ 0 <= 184 <= 255 /\ 0 <= 216 <= 255 /\ 0 <= 34 <= 255
  /\ fst (_validate_ip_address (mkIP IPv4 (dotted 93 184 216 34))) = true
  /\ fst (_validate_ip_address (mkIP IPv4 (dotted 172 20 0 1))) <> true.
Proof.
  assert (Ha : 0 <= 93 <= 255) by lia.
  assert (Hb : 0 <= 184 <= 255) by lia.
  assert (Hc : 0 <= 216 <= 255) by lia.
  assert (Hd : 0 <= 34 <= 255) by lia.
  split; [exact Ha|]. split; [exact Hb|]. split; [exact Hc|].
  split; [exact Hd|]. split.
  - apply (ipv4_accepted_ranges 93 184 216 34 Ha Hb Hc Hd). lia.
  - intros H.
    apply (ipv4_accepted_ranges 172 20 0 1) in H; [|lia|lia|lia|lia].
    destruct H as (_ & _ & H & _). apply H. lia.
Defined.

Lemma update_monitor_counts_changes_witness :
  let w := world_monitoring [Monitor.mk 2 example_url 45;
                             Monitor.mk 1 example_url 30;
                             Monitor.mk 1 example_url 90] in
  db_up (db w) = true
  /\ snd (update_monitor 1 example_url 60 w) = Ok (Some 1)
  /\ monitors (db (fst (update_monitor 1 example_url 60 w)))
     = [Monitor.mk 2 example_url 45; Monitor.mk 1 example_url 60;
        Monitor.mk 1 example_url 90].
Proof.
  intros w. split; [reflexivity|].
  destruct (update_monitor_counts_changes 1 example_url 60 w eq_refl)
    as (_ & H & _).
  destruct H as (pre & m & post & Hl & Hpre & Hm & Ha & Hr); [discriminate|].
  destruct pre as [|x [|y pre]].
  - injection Hl as <- _. discriminate Hm.
  - injection Hl as <- <- <-. split; [exact Hr | exact Ha].
  - injection Hl as <- <- _. discriminate Hpre.
Defined.
